(** * docker-to-obsi: a shallow embedding of the note synchronizer

    The plugin fetches compose files from a repository, rewrites the
    fenced compose block of the notes that name a stack, and creates
    notes from a template for the stacks that have none.

    Strings are lists of code units ([list ascii], the units below 256);
    the regular expressions of the source are written with backtracking
    matcher combinators in continuation-passing style, the way the
    language standard defines them; maps and sets are [gmap] and [gset];
    the host (vault, clock, generation API) is an explicit [Runtime]
    record and a [World] threaded through a state-and-exception monad. *)

From Stdlib Require Import Ascii String List Bool Arith Lia DecimalString.
From stdpp Require Import base option list gmap strings.

Local Open Scope char_scope.
Local Open Scope list_scope.

(** ** String primitives of the language *)

Module JS.

(** A literal of the source, as a list of code units. *)
Definition str (s : string) : list ascii := list_ascii_of_string s.

(** LineTerminator code units: LF and CR. *)
Definition is_line_terminator (c : ascii) : bool :=
  (c =? "010") || (c =? "013").

(** WhiteSpace code units: TAB, VT, FF, SP, NBSP. *)
Definition is_white_space (c : ascii) : bool :=
  (c =? "009") || (c =? "011") || (c =? "012") || (c =? " ") || (c =? "160").

(** The class [\s] of a pattern, also what [trim] removes. *)
Definition is_space (c : ascii) : bool :=
  is_white_space c || is_line_terminator c.

Fixpoint trimStart (s : list ascii) : list ascii :=
  match s with
  | c :: s' => if is_space c then trimStart s' else s
  | [] => []
  end.

Definition trimEnd (s : list ascii) : list ascii := rev (trimStart (rev s)).

Definition trim (s : list ascii) : list ascii := trimEnd (trimStart s).

(** [strip_prefix p s] is what follows [p] when [s] starts with [p]. *)
Fixpoint strip_prefix (p s : list ascii) : option (list ascii) :=
  match p, s with
  | [], _ => Some s
  | a :: p', b :: s' => if (a =? b) then strip_prefix p' s' else None
  | _ :: _, [] => None
  end.

Definition startsWith (s p : list ascii) : bool :=
  match strip_prefix p s with Some _ => true | None => false end.

Fixpoint includes (s p : list ascii) : bool :=
  match strip_prefix p s with
  | Some _ => true
  | None => match s with
            | [] => false
            | _ :: s' => includes s' p
            end
  end.

Definition endsWith (s p : list ascii) : bool := startsWith (rev s) (rev p).

(** A string is falsy exactly when it is empty. *)
Definition truthy (s : list ascii) : bool :=
  match s with [] => false | _ :: _ => true end.

(** [GetSubstitution] for a pattern without capture groups: in a
    replacement string [$$] is a dollar, [$&] the matched text, [$`] the
    text before the match and [$'] the text after it; every other
    character, a dollar before a digit included, stands for itself. *)
Fixpoint get_substitution (matched before after repl : list ascii)
  : list ascii :=
  match repl with
  | [] => []
  | c :: r =>
    if (c =? "$") then
      match r with
      | d :: r' =>
        if (d =? "$") then "$" :: get_substitution matched before after r'
        else if (d =? "&") then matched ++ get_substitution matched before after r'
        else if (d =? "`") then before ++ get_substitution matched before after r'
        else if (d =? "'") then after ++ get_substitution matched before after r'
        else c :: get_substitution matched before after r
      | [] => [c]
      end
    else c :: get_substitution matched before after r
  end.

(** *** Pattern matchers

    A matcher takes the input at the current position and a continuation
    for the rest of the pattern; it answers the result of the first
    alternative, in priority order, whose continuation succeeds. *)

Definition Matcher (R : Type) : Type :=
  list ascii -> (list ascii -> option R) -> option R.

(** A literal run of characters. *)
Definition lit {R} (p : list ascii) : Matcher R :=
  fun s k => match strip_prefix p s with Some r => k r | None => None end.

Definition seq {R} (m1 m2 : Matcher R) : Matcher R :=
  fun s k => m1 s (fun r => m2 r k).

(** [m?], greedy: with [m] first, without it on failure. *)
Definition opt {R} (m : Matcher R) : Matcher R :=
  fun s k => match m s k with Some r => Some r | None => k s end.

(** [[cls]*], greedy: the longest run first, then shorter ones. *)
Fixpoint star_greedy {R} (cls : ascii -> bool) (s : list ascii)
    (k : list ascii -> option R) : option R :=
  match s with
  | c :: s' =>
    if cls c then
      match star_greedy cls s' k with
      | Some r => Some r
      | None => k s
      end
    else k s
  | [] => k []
  end.

(** [[cls]+], greedy. *)
Definition plus_greedy {R} (cls : ascii -> bool) : Matcher R :=
  fun s k => match s with
             | c :: s' => if cls c then star_greedy cls s' k else None
             | [] => None
             end.

(** [[cls]*?], lazy: the shortest run first, then longer ones. *)
Fixpoint star_lazy {R} (cls : ascii -> bool) (s : list ascii)
    (k : list ascii -> option R) : option R :=
  match k s with
  | Some r => Some r
  | None => match s with
            | c :: s' => if cls c then star_lazy cls s' k else None
            | [] => None
            end
  end.

(** [^] under the [m] flag: at the start of the input or just after a
    line terminator. The text before the position is kept reversed. *)
Definition at_line_start (before_rev : list ascii) : bool :=
  match before_rev with
  | [] => true
  | c :: _ => is_line_terminator c
  end.

(** *** [String.prototype.replace] with a global pattern

    One pass from left to right. [exec before_rev s] tries the pattern
    at the current position and answers the captures and the input left
    after the match; [replacer matched captures before after] is the
    text put in its place. The characters of a match are skipped before
    the pattern is tried again. The patterns of this program match no
    empty string, so a match consumes at least one character. *)
Section RegExpReplace.
Context {C : Type}.
Variable exec : list ascii -> list ascii -> option (C * list ascii).
Variable replacer : list ascii -> C -> list ascii -> list ascii -> list ascii.

Fixpoint replace_matches (skip : nat) (before_rev s : list ascii)
  : list ascii :=
  match s with
  | [] => []
  | c :: s' =>
    match skip with
    | S n => replace_matches n (c :: before_rev) s'
    | O =>
      match exec before_rev s with
      | Some (caps, rest) =>
          replacer (take (length s - length rest) s) caps
                   (rev before_rev) rest
          ++ replace_matches (length s' - length rest) (c :: before_rev) s'
      | None => c :: replace_matches 0 (c :: before_rev) s'
      end
    end
  end.

Definition replace_global (s : list ascii) : list ascii :=
  replace_matches 0 [] s.

(** [s.match(re)] without the global flag: the leftmost match, as
    the text before it, its own text and the text after it. *)
Fixpoint match_first_from (before_rev s : list ascii)
  : option (list ascii * list ascii * list ascii) :=
  match exec before_rev s with
  | Some (_, rest) =>
      Some (rev before_rev, take (length s - length rest) s, rest)
  | None =>
      match s with
      | [] => None
      | c :: s' => match_first_from (c :: before_rev) s'
      end
  end.

Definition match_first (s : list ascii)
  : option (list ascii * list ascii * list ascii) :=
  match_first_from [] s.
End RegExpReplace.

(** A pattern that is a literal token, tried at a position. *)
Definition token_exec (tok : list ascii) (before_rev s : list ascii)
  : option (unit * list ascii) :=
  lit tok s (fun r => Some (tt, r)).

(** [s.replace(/tok/g, repl)] for a literal token and a replacement
    string, in which the dollar patterns are expanded. *)
Definition replace_token (tok repl s : list ascii) : list ascii :=
  replace_global (token_exec tok)
    (fun matched _ before after => get_substitution matched before after repl)
    s.

(** [s.replace(pat, repl)] for a pattern string: the first occurrence
    only, the dollar patterns of [repl] expanded. *)
Fixpoint replace_first_from (pat repl before_rev s : list ascii)
  : list ascii :=
  match strip_prefix pat s with
  | Some rest =>
      rev before_rev ++ get_substitution pat (rev before_rev) rest repl ++ rest
  | None =>
      match s with
      | [] => rev before_rev
      | c :: s' => replace_first_from pat repl (c :: before_rev) s'
      end
  end.

Definition replace_first (pat repl s : list ascii) : list ascii :=
  replace_first_from pat repl [] s.

(** [s.split(sep)] for a separator of one character. *)
Fixpoint split_char_from (sep : ascii) (cur_rev s : list ascii)
  : list (list ascii) :=
  match s with
  | [] => [rev cur_rev]
  | c :: s' =>
    if (c =? sep) then rev cur_rev :: split_char_from sep [] s'
    else split_char_from sep (c :: cur_rev) s'
  end.

Definition split_char (sep : ascii) (s : list ascii) : list (list ascii) :=
  split_char_from sep [] s.

(** [s.split(/[cls]+/)]: the pieces between the maximal runs of
    characters of the class; a run at either end leaves an empty piece
    there. [in_run] says that the previous character was in the class. *)
Fixpoint split_runs_from (cls : ascii -> bool) (in_run : bool)
    (cur_rev s : list ascii) : list (list ascii) :=
  match s with
  | [] => [rev cur_rev]
  | c :: s' =>
    if cls c then
      if in_run then split_runs_from cls true [] s'
      else rev cur_rev :: split_runs_from cls true [] s'
    else split_runs_from cls false (c :: cur_rev) s'
  end.

Definition split_runs (cls : ascii -> bool) (s : list ascii)
  : list (list ascii) :=
  split_runs_from cls false [] s.

(** [pieces.join(sep)]. *)
Fixpoint join (sep : list ascii) (pieces : list (list ascii)) : list ascii :=
  match pieces with
  | [] => []
  | [p] => p
  | p :: ps => p ++ sep ++ join sep ps
  end.

(** [a.pop()], the value it returns: the last element. *)
Definition pop {A} (l : list A) : option A := last l.

End JS.

Import JS.

Declare Scope matcher_scope.
Delimit Scope matcher_scope with matcher.
Infix ">>" := seq (at level 60, right associativity) : matcher_scope.

(** ** The stack files of the fetcher and the settings of the plugin *)

Module Github.

Record DockerStackFile := {
  name : list ascii;
  content : list ascii
}.

End Github.

Module Plugin.

Record DockerToObsiSettings := {
  ghUsername : list ascii;
  ghRepository : list ascii;
  ghToken : list ascii;
  folderPath : list ascii;
  frontmatterProperty : list ascii;
  templateFilePath : list ascii;
  useAI : bool;
  openaiApiKey : list ascii;
  fileNamePrefix : list ascii;
  fileNameSuffix : list ascii
}.

Definition DEFAULT_SETTINGS : DockerToObsiSettings := {|
  ghUsername := [];
  ghRepository := [];
  ghToken := [];
  folderPath := [];
  frontmatterProperty := str "stackName";
  templateFilePath := [];
  useAI := false;
  openaiApiKey := [];
  fileNamePrefix := [];
  fileNameSuffix := []
|}.

End Plugin.

(** ** The host: vault, clock, remote services *)

Module Host.

(** A frontmatter value: a string, or a list of strings (the tags). *)
Inductive FmValue :=
| FmString (s : list ascii)
| FmList (l : list (list ascii)).

Abbreviation Frontmatter := (gmap (list ascii) FmValue).

(** A file of the vault. [frontmatter] is [None] when the host fails to
    hand the metadata of the file out. *)
Record TFile := {
  path : list ascii;
  frontmatter : option Frontmatter;
  data : list ascii
}.

Inductive AbstractFile :=
| File (f : TFile)
| Folder (p : list ascii).

Definition abstract_path (a : AbstractFile) : list ascii :=
  match a with
  | File f => path f
  | Folder p => p
  end.

Inductive Error :=
| HttpError
| SdkError
| HostError.

(** How an asynchronous call ends: with a value, with an exception, or
    never (a promise that is never settled). *)
Inductive outcome (A : Type) :=
| Returned (a : A)
| Raised (e : Error)
| Pending.
Arguments Returned {A} a.
Arguments Raised {A} e.
Arguments Pending {A}.

(** A request sent to the generation API: the credential and the name
    of the stack. *)
Inductive Request :=
| GenerateText (apiKey stackName : list ascii)
| GenerateObject (apiKey stackName : list ascii).

(** What the program takes from its environment. *)
Record Runtime := {
  (** [String.prototype.toUpperCase] and [toLowerCase] *)
  toUpperCase : list ascii -> list ascii;
  toLowerCase : list ascii -> list ascii;
  (** [now.format(f)]; [None] when the call throws *)
  format : list ascii -> option (list ascii);
  (** [now.format("YYYY/MM/DD")] *)
  default_date : list ascii;
  (** the answers of the generation API *)
  generateText : list ascii -> list ascii -> outcome (list ascii);
  generateObject : list ascii -> list ascii -> outcome (list (list ascii));
  (** the answers of the repository API: the recursive listing of the
      compose files and the text of a file *)
  fetchComposeYamlFiles : outcome (list (list ascii));
  fetchGithubFileContent : list ascii -> outcome (list ascii);
  (** the metadata block the host reads out of the text of a new note *)
  parseFrontMatter : list ascii -> option Frontmatter;
  (** whether [vault.create] accepts a path *)
  create_ok : list ascii -> bool
}.

(** The mutable state: the vault and the requests sent so far, the
    latest first. *)
Record World := {
  vault : list AbstractFile;
  requests : list Request
}.

(** *** State and exceptions *)

Definition M (A : Type) : Type := World -> outcome A * World.

Definition ret {A} (a : A) : M A := fun w => (Returned a, w).

Definition bind {A B} (m : M A) (k : A -> M B) : M B :=
  fun w => match m w with
           | (Returned a, w') => k a w'
           | (Raised e, w') => (Raised e, w')
           | (Pending, w') => (Pending, w')
           end.

Definition raise {A} (e : Error) : M A := fun w => (Raised e, w).

(** An awaited promise that never settles. *)
Definition never {A} : M A := fun w => (Pending, w).

(** [try { m } catch (e) { h e }]: the effects of [m] stay. *)
Definition try_catch {A} (m : M A) (h : Error -> M A) : M A :=
  fun w => match m w with
           | (Raised e, w') => h e w'
           | r => r
           end.

(** Awaiting an answer of the environment. *)
Definition await {A} (o : outcome A) : M A := fun w => (o, w).

(** [Promise.all]: rejected when one of the promises is, otherwise
    pending when one of them is, otherwise fulfilled with the values in
    the order of the promises. Of several rejections the first one in
    that order is taken (the source takes the first one in time). *)
Fixpoint promise_all {A} (l : list (outcome A)) : outcome (list A) :=
  match l with
  | [] => Returned []
  | o :: l' =>
      match o, promise_all l' with
      | Raised e, _ => Raised e
      | _, Raised e => Raised e
      | Pending, _ => Pending
      | _, Pending => Pending
      | Returned a, Returned l'' => Returned (a :: l'')
      end
  end.

Definition get_vault : M (list AbstractFile) := fun w => (Returned (vault w), w).

Definition put_vault (v : list AbstractFile) : M unit :=
  fun w => (Returned tt, {| vault := v; requests := requests w |}).

Definition send (r : Request) : M unit :=
  fun w => (Returned tt, {| vault := vault w; requests := r :: requests w |}).

Fixpoint mapM {A B} (f : A -> M B) (l : list A) : M (list B) :=
  match l with
  | [] => ret []
  | x :: l' => bind (f x) (fun y => bind (mapM f l') (fun ys => ret (y :: ys)))
  end.

Fixpoint foldM {A S} (f : S -> A -> M S) (acc : S) (l : list A) : M S :=
  match l with
  | [] => ret acc
  | x :: l' => bind (f acc x) (fun acc' => foldM f acc' l')
  end.

(** *** The vault *)

Definition getAbstractFileByPath (p : list ascii) : M (option AbstractFile) :=
  bind get_vault (fun v =>
    ret (List.find (fun a => bool_decide (abstract_path a = p)) v)).

(** Every file of the vault whose extension is [md]. *)
Definition vault_getMarkdownFiles : M (list TFile) :=
  bind get_vault (fun v =>
    ret (omap (fun a => match a with
                        | File f => if endsWith (path f) (str ".md")
                                    then Some f else None
                        | Folder _ => None
                        end) v)).

(** [vault.read(file)]: the current text of the file. *)
Definition vault_read (file : TFile) : M (list ascii) :=
  bind (getAbstractFileByPath (path file)) (fun a =>
    match a with
    | Some (File f) => ret (data f)
    | _ => raise HostError
    end).

Definition update_file (p : list ascii) (g : TFile -> TFile)
    (a : AbstractFile) : AbstractFile :=
  match a with
  | File f => if bool_decide (path f = p) then File (g f) else a
  | Folder _ => a
  end.

(** [vault.modify(file, text)]. *)
Definition vault_modify (file : TFile) (text : list ascii) : M unit :=
  bind (getAbstractFileByPath (path file)) (fun a =>
    match a with
    | Some (File _) =>
        bind get_vault (fun v =>
          put_vault (map (update_file (path file)
            (fun f => {| path := path f; frontmatter := frontmatter f;
                         data := text |})) v))
    | _ => raise HostError
    end).

End Host.

Import Host.

Notation "'let!' x ':=' m 'in' k" := (bind m (fun x => k))
  (at level 10, x name, m at level 100, k at level 200,
   format "'[v' 'let!'  x  ':='  m  'in' '/' k ']'").

(** ** The fetcher (github.ts) *)

Module GithubService.
Import Github.

(** The name of the stack of a compose file, from the path of the file. *)
Definition stack_name (path : list ascii) : list ascii :=
  match pop (split_char "/" (replace_first (str "/compose.yaml") [] path)) with
  | Some segment => if truthy segment then segment else str "__unknown__"
  | None => str "__unknown__"
  end.

(** The promise made for one path: the stack of the path once its text
    is fetched. *)
Definition contentPromise (rt : Runtime) (path : list ascii)
  : outcome DockerStackFile :=
  match fetchGithubFileContent rt path with
  | Returned content =>
      Returned {| name := stack_name path; content := content |}
  | Raised e => Raised e
  | Pending => Pending
  end.

(** The texts are fetched side by side and awaited with
    [Promise.all]. *)
Definition fetchAllComposeStackFiles (rt : Runtime)
  : M (list DockerStackFile) :=
  let! filePaths := await (fetchComposeYamlFiles rt) in
  await (promise_all (map (contentPromise rt) filePaths)).

End GithubService.

(** ** The generation adapter (ai.ts) *)

Module AIService.
Import Github Plugin.

Section Service.
Variable rt : Runtime.
Variable settings : DockerToObsiSettings.

Definition placeholder_description : list ascii :=
  str "Write description here".

Definition generateStackDescription (stack : DockerStackFile)
  : M (list ascii) :=
  try_catch
    (let apiKey := trim (openaiApiKey settings) in
     if negb (truthy apiKey) then ret placeholder_description
     else
       let! _ := send (GenerateText apiKey (name stack)) in
       let! text := await (generateText rt apiKey (name stack)) in
       ret (trim text))
    (fun _ => ret placeholder_description).

Definition generateStackTags (stack : DockerStackFile)
  : M (list (list ascii)) :=
  try_catch
    (let apiKey := trim (openaiApiKey settings) in
     if negb (truthy apiKey) then ret []
     else
       let! _ := send (GenerateObject apiKey (name stack)) in
       let! tags := await (generateObject rt apiKey (name stack)) in
       ret tags)
    (fun _ => ret []).
End Service.

End AIService.

(** ** Notes: synchronizer and template renderer (obsidian.ts) *)

Module ObsidianService.
Import Github Plugin.

(** The pattern of a compose block,
    [^```ya?ml\s+title=(docker-)?compose\.ya?ml\r?\n([\s\S]*?)\n```],
    after its [^]. *)
Definition yamlCodeBlockRegex {R} : Matcher R :=
  (lit (str "```y") >> opt (lit (str "a")) >> lit (str "ml")
   >> plus_greedy is_space
   >> lit (str "title=") >> opt (lit (str "docker-"))
   >> lit (str "compose.y") >> opt (lit (str "a")) >> lit (str "ml")
   >> opt (lit ["013"]) >> lit ["010"]
   >> star_lazy (fun _ => true)
   >> lit ("010" :: str "```"))%matcher.

(** The pattern tried at a position, under the [m] flag. *)
Definition yamlCodeBlock_exec (before_rev s : list ascii)
  : option (unit * list ascii) :=
  if at_line_start before_rev
  then yamlCodeBlockRegex s (fun rest => Some (tt, rest))
  else None.

(** The normalized block written for a stack content. *)
Definition newCodeBlock (newContent : list ascii) : list ascii :=
  str "```yaml title=compose.yaml" ++ "010" :: trim newContent
    ++ "010" :: str "```".

(** Creation: [template.replace(yamlCodeBlockRegex, () => block)], the
    pattern carrying the flags [gm]. *)
Definition processYamlCodeBlocks (template stackContent : list ascii)
  : list ascii :=
  replace_global yamlCodeBlock_exec
    (fun _ _ _ _ => newCodeBlock stackContent) template.

(** Update: the text [updateYamlCodeBlock] writes back, [None] when the
    note has no compose block. The pattern carries the flag [m] only;
    the text of its match is then replaced as a string. *)
Definition updatedContent (content newContent : list ascii)
  : option (list ascii) :=
  match match_first yamlCodeBlock_exec content with
  | None => None
  | Some (_, oldCodeBlock, _) =>
      Some (replace_first oldCodeBlock (newCodeBlock newContent) content)
  end.

(** The pattern of a formatted date, [\{\{date:([^}]+)\}\}]; the capture
    is the format. *)
Definition dateFormatRegex (s : list ascii)
  : option (list ascii * list ascii) :=
  lit (str "{{date:") s (fun s1 =>
    plus_greedy (fun c => negb (c =? "}")) s1 (fun s2 =>
      lit (str "}}") s2 (fun s3 =>
        Some (take (length s1 - length s2) s1, s3)))).

Definition is_name_separator (c : ascii) : bool :=
  (c =? "-") || (c =? "_") || is_space c.

Section Service.
Variable rt : Runtime.
Variable settings : DockerToObsiSettings.

(** For a path that names no file the promise is left unsettled; when
    the host fails on the file the promise is rejected. *)
Definition getFrontmatter (filePath : list ascii) : M Frontmatter :=
  let! file := getAbstractFileByPath filePath in
  match file with
  | Some (File f) =>
      match frontmatter f with
      | Some fm => ret fm
      | None => raise HostError
      end
  | _ => never
  end.

(** The property is written through the host, which finds the file by
    its path; the write is taken to land before the next step. *)
Definition setFrontmatterProperty (file : TFile)
    (propertyName : list ascii) (value : FmValue) : M unit :=
  let! found := getAbstractFileByPath (path file) in
  match found with
  | Some (File f) =>
      match frontmatter f with
      | Some fm =>
          let! v := get_vault in
          put_vault (map (update_file (path file)
            (fun g => {| path := path g;
                         frontmatter := Some (<[propertyName := value]> fm);
                         data := data g |})) v)
      | None => raise HostError
      end
  | _ => raise HostError
  end.

(** [vault.create(path, text)]. *)
Definition vault_create (filePath text : list ascii) : M TFile :=
  let! v := get_vault in
  let! existing := getAbstractFileByPath filePath in
  match existing with
  | Some _ => raise HostError
  | None =>
      if create_ok rt filePath then
        let f := {| path := filePath;
                    frontmatter := parseFrontMatter rt text;
                    data := text |} in
        let! _ := put_vault (v ++ [File f]) in
        ret f
      else raise HostError
  end.

Definition updateYamlCodeBlock (file : TFile) (newContent : list ascii)
  : M bool :=
  let! content := vault_read file in
  match updatedContent content newContent with
  | None => ret false
  | Some updated =>
      let! _ := vault_modify file updated in
      ret true
  end.

Definition getMarkdownFiles : M (list TFile) :=
  let folder := trim (folderPath settings) in
  let! allFiles := vault_getMarkdownFiles in
  if negb (truthy folder) then ret allFiles
  else ret (List.filter (fun file => startsWith (path file) folder) allFiles).

(** [new Map(stacks.map(stack => [stack.name, stack.content]))]: the
    entries are set one after the other. *)
Definition stackMap (stacks : list DockerStackFile)
  : gmap (list ascii) (list ascii) :=
  foldl (fun m stack => <[name stack := content stack]> m) ∅ stacks.

(** Whether a frontmatter value is truthy. *)
Definition value_truthy (v : option FmValue) : bool :=
  match v with
  | Some (FmString s) => truthy s
  | Some (FmList _) => true
  | None => false
  end.

(** The callback of [checkNotesForMatchingStacks] for one note. *)
Definition update_note (map : gmap (list ascii) (list ascii))
    (file : TFile) : M bool :=
  try_catch
    (let! fm := getFrontmatter (path file) in
     let stackName := fm !! frontmatterProperty settings in
     if negb (value_truthy stackName) then ret false
     else
       match stackName with
       | Some (FmString s) =>
           match map !! s with
           | Some stackContent =>
               if truthy stackContent
               then updateYamlCodeBlock file stackContent
               else ret false
           | None => ret false
           end
       | _ => ret false
       end)
    (fun _ => ret false).

(** The notes are worked on one after the other: each callback
    touches its own note only. *)
Definition checkNotesForMatchingStacks (stacks : list DockerStackFile)
  : M nat :=
  let map := stackMap stacks in
  let! allFiles := getMarkdownFiles in
  let! results := mapM (update_note map) allFiles in
  ret (length (List.filter (fun success : bool => success) results)).

(** The callback of [findMissingStacks] for one note; a list value is
    truthy, but as an element of the set it equals no stack name. *)
Definition collect_name (existingStackNames : gset (list ascii))
    (file : TFile) : M (gset (list ascii)) :=
  try_catch
    (let! fm := getFrontmatter (path file) in
     let stackName := fm !! frontmatterProperty settings in
     match stackName with
     | Some (FmString s) =>
         if truthy s then ret ({[ s ]} ∪ existingStackNames)
         else ret existingStackNames
     | _ => ret existingStackNames
     end)
    (fun _ => ret existingStackNames).

Definition findMissingStacks (stacks : list DockerStackFile)
  : M (list DockerStackFile) :=
  let! allFiles := getMarkdownFiles in
  let! existingStackNames := foldM collect_name ∅ allFiles in
  ret (List.filter
         (fun stack => negb (bool_decide (name stack ∈ existingStackNames)))
         stacks).

Definition capitalizeStackName (stackName : list ascii) : list ascii :=
  join [" "]
    (map (fun word => toUpperCase rt (take 1 word)
                      ++ toLowerCase rt (drop 1 word))
         (split_runs is_name_separator stackName)).

Definition processDateVariables (template : list ascii) : list ascii :=
  let processedTemplate :=
    replace_global (fun _ s => dateFormatRegex s)
      (fun _ fmt _ _ =>
         match format rt fmt with
         | Some d => d
         | None => default_date rt
         end)
      template in
  replace_token (str "{{date}}") (default_date rt) processedTemplate.

Definition generateFileName (stackName : list ascii) : list ascii :=
  let capitalizedName := capitalizeStackName stackName in
  let processedPrefix :=
    if truthy (fileNamePrefix settings)
    then processDateVariables (fileNamePrefix settings) else [] in
  let processedSuffix :=
    if truthy (fileNameSuffix settings)
    then processDateVariables (fileNameSuffix settings) else [] in
  let fileName := capitalizedName in
  let fileName :=
    if truthy processedPrefix then processedPrefix ++ fileName
    else fileName in
  let fileName :=
    if truthy processedSuffix then fileName ++ processedSuffix
    else fileName in
  fileName ++ str ".md".

Definition processTemplate (template : list ascii)
    (stack : DockerStackFile) : M (list ascii) :=
  let processedTemplate :=
    if includes template (str "{{stackContent}}")
    then replace_token (str "{{stackContent}}") (content stack) template
    else processYamlCodeBlocks template (content stack) in
  let! description :=
    (if includes processedTemplate (str "{{about}}") && useAI settings
     then AIService.generateStackDescription rt settings stack
     else ret (str "Write description here")) in
  let processedTemplate := processDateVariables processedTemplate in
  ret (replace_token (str "{{about}}") description
         (replace_token (str "{{stackName}}") (name stack)
            processedTemplate)).

(** The body of the loop of [createNotesFromTemplate] for one stack. *)
Definition create_note (templateContent : list ascii)
    (templateHasTags : bool) (folder : list ascii)
    (createdCount : nat) (stack : DockerStackFile) : M nat :=
  try_catch
    (let! noteContent := processTemplate templateContent stack in
     let fileName := generateFileName (name stack) in
     let filePath :=
       if truthy folder then folder ++ "/" :: fileName else fileName in
     let! existingFile := getAbstractFileByPath filePath in
     match existingFile with
     | Some _ => ret createdCount
     | None =>
         let! newFile := vault_create filePath noteContent in
         let! _ := setFrontmatterProperty newFile
                     (frontmatterProperty settings)
                     (FmString (name stack)) in
         let! _ :=
           (if templateHasTags && useAI settings then
              let! generatedTags :=
                AIService.generateStackTags rt settings stack in
              setFrontmatterProperty newFile (str "tags")
                (FmList generatedTags)
            else ret tt) in
         ret (S createdCount)
     end)
    (fun _ => ret createdCount).

Definition createNotesFromTemplate (stacks : list DockerStackFile)
  : M nat :=
  let template := trim (templateFilePath settings) in
  if negb (truthy template) then ret 0
  else
    let! templateFile := getAbstractFileByPath template in
    match templateFile with
    | Some (File tf) =>
        let! templateContent := vault_read tf in
        let! templateFrontmatter := getFrontmatter (path tf) in
        let templateHasTags :=
          bool_decide (is_Some (templateFrontmatter !! str "tags")) in
        let folder := trim (folderPath settings) in
        foldM (create_note templateContent templateHasTags folder) 0 stacks
    | _ => ret 0
    end.
End Service.

End ObsidianService.

(** ** Functions of the specification

    Direct readings of the patterns, without backtracking, and the sets
    the statements below speak of. They are compared with the
    definitions above, never used by them. *)

Module Spec.
Import Github Plugin.

Fixpoint drop_while (cls : ascii -> bool) (s : list ascii) : list ascii :=
  match s with
  | c :: s' => if cls c then drop_while cls s' else s
  | [] => []
  end.

(** [s] without [p] in front when it starts with [p]. *)
Definition opt_prefix (p s : list ascii) : list ascii :=
  default s (strip_prefix p s).

(** The input left after the opening line of a compose block. *)
Definition header_end (s : list ascii) : option (list ascii) :=
  s1 ← strip_prefix (str "```y") s;
  s3 ← strip_prefix (str "ml") (opt_prefix (str "a") s1);
  match s3 with
  | c :: s3' =>
    if is_space c then
      s5 ← strip_prefix (str "title=") (drop_while is_space s3');
      s7 ← strip_prefix (str "compose.y") (opt_prefix (str "docker-") s5);
      s9 ← strip_prefix (str "ml") (opt_prefix (str "a") s7);
      strip_prefix ["010"] (opt_prefix ["013"] s9)
    else None
  | [] => None
  end.

(** The opening lines of a compose block, as a set of texts. *)
Definition is_header (H : list ascii) : Prop :=
  exists a ws d a' cr,
    H = str "```y" ++ a ++ str "ml" ++ ws ++ str "title=" ++ d
        ++ str "compose.y" ++ a' ++ str "ml" ++ cr ++ ["010"]
    /\ (a = [] \/ a = str "a")
    /\ ws <> []
    /\ Forall (fun c => is_space c = true) ws
    /\ (d = [] \/ d = str "docker-")
    /\ (a' = [] \/ a' = str "a")
    /\ (cr = [] \/ cr = ["013"]).

(** The closing fence of a block: a line feed and three backquotes. *)
Definition closing_fence : list ascii := "010" :: str "```".

(** The input left after the first closing fence. *)
Fixpoint find_close (s : list ascii) : option (list ascii) :=
  match strip_prefix closing_fence s with
  | Some r => Some r
  | None => match s with
            | [] => None
            | _ :: s' => find_close s'
            end
  end.

(** The string a note holds at the configured key, if it holds one. *)
Definition key_value (settings : DockerToObsiSettings) (file : TFile)
  : option (list ascii) :=
  match frontmatter file with
  | Some fm =>
      match fm !! frontmatterProperty settings with
      | Some (FmString s) => Some s
      | _ => None
      end
  | None => None
  end.

(** The set of the frontmatter values at the configured key across the
    given notes. *)
Definition frontmatter_values (settings : DockerToObsiSettings)
    (files : list TFile) : gset (list ascii) :=
  list_to_set (omap (key_value settings) files).

(** The candidate notes of a vault: the markdown files under the
    configured folder. *)
Definition candidates (settings : DockerToObsiSettings)
    (v : list AbstractFile) : list TFile :=
  let folder := trim (folderPath settings) in
  List.filter
    (fun file => negb (truthy folder) || startsWith (path file) folder)
    (omap (fun a => match a with
                    | File f => if endsWith (path f) (str ".md")
                                then Some f else None
                    | Folder _ => None
                    end) v).

(** A name as words and the runs of separators between them: a first
    word, then each run with the word after it. *)
Definition is_word (w : list ascii) : Prop :=
  Forall (fun c => ObsidianService.is_name_separator c = false) w.

Definition is_run (sp : list ascii) : Prop :=
  sp <> [] /\ Forall (fun c => ObsidianService.is_name_separator c = true) sp.

(** Every run is a run of separators, every word a word, and no word
    between two runs is empty. *)
Fixpoint well_split (rest : list (list ascii * list ascii)) : Prop :=
  match rest with
  | [] => True
  | (sp, w) :: rest' =>
      is_run sp /\ is_word w /\ (rest' <> [] -> w <> []) /\ well_split rest'
  end.

Definition spell (w0 : list ascii) (rest : list (list ascii * list ascii))
  : list ascii :=
  w0 ++ concat (map (fun p => fst p ++ snd p) rest).

(** A word with its first letter in upper case and the others in
    lower case. *)
Definition capitalize_word (rt : Runtime) (w : list ascii) : list ascii :=
  toUpperCase rt (take 1 w) ++ toLowerCase rt (drop 1 w).

(** Two environments whose string functions and clock give the same
    answers. *)
Definition same_answers (rt rt' : Runtime) : Prop :=
  (forall s, toUpperCase rt s = toUpperCase rt' s)
  /\ (forall s, toLowerCase rt s = toLowerCase rt' s)
  /\ (forall f, format rt f = format rt' f)
  /\ default_date rt = default_date rt'.

(** What the synchronizer decides for one note, from the note alone:
    the new text, or [None] when the note is left alone. *)
Definition note_update (settings : DockerToObsiSettings)
    (map : gmap (list ascii) (list ascii)) (file : TFile)
  : option (list ascii) :=
  match key_value settings file with
  | Some s =>
      if truthy s then
        match map !! s with
        | Some stackContent =>
            if truthy stackContent
            then ObsidianService.updatedContent (data file) stackContent
            else None
        | None => None
        end
      else None
  | None => None
  end.

Definition set_data (text : list ascii) (file : TFile) : TFile :=
  {| path := path file; frontmatter := frontmatter file; data := text |}.

(** An entry of the vault after the notes at the given paths have been
    synchronized. *)
Definition sync_entry (settings : DockerToObsiSettings)
    (map : gmap (list ascii) (list ascii)) (paths : list (list ascii))
    (a : AbstractFile) : AbstractFile :=
  match a with
  | File f =>
      if bool_decide (path f ∈ paths) then
        match note_update settings map f with
        | Some text => File (set_data text f)
        | None => a
        end
      else a
  | Folder _ => a
  end.

(** The path at which the note of a stack is created. *)
Definition destination (rt : Runtime) (settings : DockerToObsiSettings)
    (folder : list ascii) (stack : DockerStackFile) : list ascii :=
  if truthy folder
  then folder ++ "/" :: ObsidianService.generateFileName rt settings (name stack)
  else ObsidianService.generateFileName rt settings (name stack).

(** The entry of a vault at a path, if there is one. *)
Definition entry_at (p : list ascii) (v : list AbstractFile)
  : option AbstractFile :=
  List.find (fun a => bool_decide (abstract_path a = p)) v.

(** A note whose frontmatter could be written. *)
Definition written (a : AbstractFile) : bool :=
  match a with
  | File f => bool_decide (is_Some (frontmatter f))
  | Folder _ => false
  end.

(** No two entries of a vault share a path. *)
Definition unique_paths (v : list AbstractFile) : bool :=
  bool_decide (NoDup (abstract_path <$> v)).

(** The pass of the creation rule over a text that comes after
    [before_rev] (reversed): the global replacement goes on from a
    position inside the document. [processYamlCodeBlocks] is the pass
    from the start of the document. *)
Definition creation_pass (before_rev text stackContent : list ascii)
  : list ascii :=
  replace_matches ObsidianService.yamlCodeBlock_exec
    (fun _ _ _ _ => ObsidianService.newCodeBlock stackContent)
    0 before_rev text.

(** Whether a replacement string holds one of the dollar patterns that
    [replace] expands: [$$], [$&], [$`] or [$']. *)
Definition has_dollar_pattern (s : list ascii) : bool :=
  includes s (str "$$") || includes s (str "$&")
  || includes s ["$"; "`"] || includes s (str "$'").

(** Whether a text ends with a beginning of [tok]: a part of [tok]
    that is not empty and stops before the end of [tok]. *)
Fixpoint ends_with_start_of (tok c : list ascii) : bool :=
  match c with
  | [] => false
  | x :: c' =>
      match strip_prefix (x :: c') tok with
      | Some (_ :: _) => true
      | _ => ends_with_start_of tok c'
      end
  end.

(** Whether a text begins with an end of [tok]: a part of [tok] that
    is not empty and starts after the beginning of [tok]. *)
Fixpoint starts_with_end_of (tok c : list ascii) : bool :=
  match tok with
  | [] => false
  | _ :: tok' =>
      match tok' with
      | [] => false
      | _ :: _ => startsWith c tok' || starts_with_end_of tok' c
      end
  end.

(** The placeholders without a format that the later steps replace. *)
Definition placeholders : list (list ascii) :=
  [str "{{date}}"; str "{{stackName}}"; str "{{about}}"].

(** A content that no placeholder can take hold of: it holds no
    [{{date:] and none of the placeholders, does not end with a
    beginning of one of them, does not begin with an end of a
    placeholder, and is not a piece of one. *)
Definition placeholder_safe (c : list ascii) : bool :=
  negb (includes c (str "{{date:"))
  && negb (ends_with_start_of (str "{{date:") c)
  && forallb (fun tok =>
                negb (includes c tok)
                && negb (ends_with_start_of tok c)
                && negb (starts_with_end_of tok c)
                && negb (includes tok c))
       placeholders.

(** Whether a text is the beginning of a date with a format that is
    not yet closed: a beginning of [{{date:], or [{{date:] and then no
    closing brace but, at most, as the last character. *)
Definition in_date_placeholder (s : list ascii) : bool :=
  match strip_prefix (str "{{date:") s with
  | Some r => negb (includes (removelast r) ["}"])
  | None =>
      match strip_prefix s (str "{{date:") with
      | Some _ => true
      | None => false
      end
  end.

(** Whether a text ends inside a date with a format. *)
Fixpoint ends_in_date_placeholder (s : list ascii) : bool :=
  match s with
  | [] => false
  | c :: s' => in_date_placeholder (c :: s') || ends_in_date_placeholder s'
  end.

(** The generation API answers every request, with a value or with an
    error. *)
Definition responsive (rt : Runtime) : Prop :=
  (forall k n, generateText rt k n <> Pending)
  /\ (forall k n, generateObject rt k n <> Pending).

End Spec.

(** ** A sample environment, for the concrete cases *)

Module Sample.
Import Github Plugin.

Definition upper_char (c : ascii) : ascii :=
  let n := nat_of_ascii c in
  if (97 <=? n)%nat && (n <=? 122)%nat then ascii_of_nat (n - 32) else c.

Definition lower_char (c : ascii) : ascii :=
  let n := nat_of_ascii c in
  if (65 <=? n)%nat && (n <=? 90)%nat then ascii_of_nat (n + 32) else c.

(** A clock stopped on 1 June 2025 that knows the format [YYYY], a
    generation API that is down, a host that accepts every path. *)
Definition runtime : Runtime := {|
  toUpperCase := map upper_char;
  toLowerCase := map lower_char;
  format := fun f => if bool_decide (f = str "YYYY") then Some (str "2025")
                     else None;
  default_date := str "2025/06/01";
  generateText := fun _ _ => Raised SdkError;
  generateObject := fun _ _ => Raised SdkError;
  fetchComposeYamlFiles :=
    Returned [str "web/compose.yaml"; str "db/compose.yaml"];
  fetchGithubFileContent := fun _ => Returned (str "services: {}");
  parseFrontMatter := fun _ => Some ∅;
  create_ok := fun _ => true
|}.

Definition stack (n c : string) : DockerStackFile :=
  {| name := str n; content := str c |}.

(** A note whose frontmatter names a stack under [stackName]. *)
Definition note (p n text : string) : TFile :=
  {| path := str p;
     frontmatter := Some {[ str "stackName" := FmString (str n) ]};
     data := str text |}.

Definition world (v : list AbstractFile) : World :=
  {| vault := v; requests := [] |}.

(** Settings that name a template, and a vault that holds it beside a
    note for the stack [web]. *)
Definition template_settings : DockerToObsiSettings := {|
  ghUsername := [];
  ghRepository := [];
  ghToken := [];
  folderPath := [];
  frontmatterProperty := str "stackName";
  templateFilePath := str "stack-template.md";
  useAI := false;
  openaiApiKey := [];
  fileNamePrefix := [];
  fileNameSuffix := []
|}.

Definition template_file : TFile :=
  {| path := str "stack-template.md";
     frontmatter := Some ∅;
     data := str "# {{stackName}} {{stackContent}}" |}.

Definition template_vault : list AbstractFile :=
  [File template_file; File (note "Web.md" "web" "")].

Definition nl : string := String "010" EmptyString.

(** A template with one compose block, and a stack content that holds
    a fence line of its own. *)
Definition one_block : list ascii :=
  str ("```yaml title=compose.yaml" ++ nl ++ "old" ++ nl ++ "```").

Definition fenced_content : list ascii :=
  str ("a" ++ nl ++ "```" ++ nl ++ "b").

(** A document with two compose blocks. *)
Definition two_blocks : list ascii :=
  str ("```yaml title=compose.yaml" ++ nl ++ "one" ++ nl ++ "```" ++ nl
       ++ "```yml title=docker-compose.yml" ++ nl ++ "two" ++ nl ++ "```").

End Sample.

(** ** The listing of the repository (github.ts)

    [fetchComposeYamlFiles] asks the repository API for the listing of
    a directory, keeps the files whose name holds [compose.yaml] and
    calls itself on every sub-directory. The recursion of the source has
    no bound; here it is cut by a number of levels, beyond which the
    promise counts as not settled. *)

Module RepositoryListing.

(** An item of a listing, with the three fields the source reads. *)
Record Item := {
  item_type : list ascii;
  item_name : list ascii;
  item_path : list ascii
}.

(** One turn of the loop over the items: the files and the directories
    found so far. *)
Definition classify (acc : list (list ascii) * list (list ascii))
    (item : Item) : list (list ascii) * list (list ascii) :=
  if bool_decide (item_type item = str "file")
     && includes (item_name item) (str "compose.yaml")
  then (acc.1 ++ [item_path item], acc.2)
  else if bool_decide (item_type item = str "dir")
  then (acc.1, acc.2 ++ [item_path item])
  else acc.

Section Listing.
(** The answer of the API to the listing of a directory; an answer
    that is not [ok], or that is no list of items, is an exception. *)
Variable contents : list ascii -> outcome (list Item).

Fixpoint fetchComposeYamlFiles (levels : nat) (path : list ascii)
  : outcome (list (list ascii)) :=
  match levels with
  | O => Pending
  | S levels' =>
      match contents path with
      | Returned items =>
          let found := foldl classify ([], []) items in
          let files := found.1 in
          let directories := found.2 in
          if (0 <? length directories)%nat then
            match promise_all
                    (map (fetchComposeYamlFiles levels') directories) with
            | Returned subFileResults =>
                Returned (foldl (fun files subFiles => files ++ subFiles)
                            files subFileResults)
            | Raised e => Raised e
            | Pending => Pending
            end
          else Returned files
      | Raised e => Raised e
      | Pending => Pending
      end
  end.

(** The compose files of a listing and its sub-directories, as the
    statements below speak of them. *)
Definition is_compose_file (item : Item) : Prop :=
  item_type item = str "file"
  /\ includes (item_name item) (str "compose.yaml") = true.

Definition is_directory (item : Item) : Prop :=
  item_type item = str "dir".

(** [reached n root dir]: [dir] is [n] levels below [root], each
    level a directory of the listing of the one above. *)
Inductive reached : nat -> list ascii -> list ascii -> Prop :=
| reached_here root : reached 0 root root
| reached_below n root items item dir :
    contents root = Returned items ->
    item ∈ items -> is_directory item ->
    reached n (item_path item) dir ->
    reached (S n) root dir.
End Listing.

End RepositoryListing.

(** ** The dialog that selects the stacks to create (modal.ts) *)

Module StackSelectionModal.
Import Github.

(** The state of the dialog: the stacks it lists, the names selected,
    and the check marks it shows, one for each listed stack. *)
Record Modal := {
  stacks : list DockerStackFile;
  selectedStacks : gset (list ascii);
  checkboxes : list bool
}.

Definition has (selected : gset (list ascii)) (stack : DockerStackFile)
  : bool :=
  bool_decide (name stack ∈ selected).

Definition constructor (stacks : list DockerStackFile) : Modal :=
  {| stacks := stacks;
     selectedStacks := list_to_set (name <$> stacks);
     checkboxes := [] |}.

(** What the user does in the open dialog; [Toggle index] is a click on
    the check mark, or on the label, of the stack listed at [index]. *)
Inductive Event :=
| SelectAll
| SelectNone
| Toggle (index : nat).

Section Dialog.
(** [stacks.sort((a, b) => a.name.localeCompare(b.name))], which
    reorders the array of the dialog in place. *)
Variable sort : list DockerStackFile -> list DockerStackFile.

Definition onOpen (m : Modal) : Modal :=
  let sorted := sort (stacks m) in
  {| stacks := sorted;
     selectedStacks := selectedStacks m;
     checkboxes := has (selectedStacks m) <$> sorted |}.

(** The check marks are set again one by one, each from the stack at
    its index; [None] when there is no stack at an index (the source
    throws a [TypeError]). *)
Fixpoint refresh_from (m : Modal) (index : nat) (boxes : list bool)
  : option (list bool) :=
  match boxes with
  | [] => Some []
  | _ :: boxes' =>
      stack ← stacks m !! index;
      rest ← refresh_from m (S index) boxes';
      Some (has (selectedStacks m) stack :: rest)
  end.

Definition refreshCheckboxes (m : Modal) : option Modal :=
  boxes ← refresh_from m 0 (checkboxes m);
  Some {| stacks := stacks m;
          selectedStacks := selectedStacks m;
          checkboxes := boxes |}.

Definition selectAll (m : Modal) : option Modal :=
  refreshCheckboxes
    {| stacks := stacks m;
       selectedStacks := list_to_set (name <$> stacks m);
       checkboxes := checkboxes m |}.

Definition selectNone (m : Modal) : option Modal :=
  refreshCheckboxes
    {| stacks := stacks m;
       selectedStacks := ∅;
       checkboxes := checkboxes m |}.

(** The handler of the stack listed at [index]: it sets the check
    mark of that stack only. An index beyond the list names no check
    mark, and nothing happens. *)
Definition toggleSelection (index : nat) (m : Modal) : Modal :=
  match stacks m !! index with
  | Some stack =>
      let selected :=
        if has (selectedStacks m) stack
        then selectedStacks m ∖ {[ name stack ]}
        else {[ name stack ]} ∪ selectedStacks m in
      {| stacks := stacks m;
         selectedStacks := selected;
         checkboxes := <[index := has selected stack]> (checkboxes m) |}
  | None => m
  end.

Definition handle (m : Modal) (e : Event) : option Modal :=
  match e with
  | SelectAll => selectAll m
  | SelectNone => selectNone m
  | Toggle index => Some (toggleSelection index m)
  end.

Fixpoint handle_all (m : Modal) (events : list Event) : option Modal :=
  match events with
  | [] => Some m
  | e :: events' => m' ← handle m e; handle_all m' events'
  end.

(** What [Create Selected] hands to [onSubmit]. *)
Definition selectedStackObjects (m : Modal) : list DockerStackFile :=
  List.filter (has (selectedStacks m)) (stacks m).

(** The dialog as opened for a list of stacks, and after some
    events. *)
Definition opened (missingStacks : list DockerStackFile) : Modal :=
  onOpen (constructor missingStacks).
End Dialog.

End StackSelectionModal.

(** ** The two commands (command.ts)

    What a command shows is kept as a trace: the texts of its status
    bar item, the removal of the item, the notices and the dialog it
    opens. The messages written to the console are left out. *)

Module CommandManager.
Import Github Plugin.

Inductive UiEvent :=
| StatusBarItem
| SetText (text : list ascii)
| Remove
| Notice (text : list ascii)
| ModalOpen (stacks : list DockerStackFile).

(** The world and the trace, the latest event last. *)
Record Session := {
  world : World;
  shown : list UiEvent
}.

Definition C (A : Type) : Type := Session -> outcome A * Session.

Definition pure {A} (a : A) : C A := fun s => (Returned a, s).

Definition and_then {A B} (m : C A) (k : A -> C B) : C B :=
  fun s => match m s with
           | (Returned a, s') => k a s'
           | (Raised e, s') => (Raised e, s')
           | (Pending, s') => (Pending, s')
           end.

Definition lift {A} (m : M A) : C A :=
  fun s => match m (world s) with
           | (o, w') => (o, {| world := w'; shown := shown s |})
           end.

Definition show (e : UiEvent) : C unit :=
  fun s => (Returned tt, {| world := world s; shown := shown s ++ [e] |}).

(** [try { m } catch (err) { h err }]. *)
Definition catch {A} (m : C A) (h : Error -> C A) : C A :=
  fun s => match m s with
           | (Raised e, s') => h e s'
           | r => r
           end.

(** [try { m } finally { f }]: [f] runs once [m] has ended, with a
    value or with an exception. *)
Definition finally {A} (m : C A) (f : C unit) : C A :=
  fun s => match m s with
           | (Returned a, s') =>
               match f s' with
               | (Returned _, s'') => (Returned a, s'')
               | (Raised e, s'') => (Raised e, s'')
               | (Pending, s'') => (Pending, s'')
               end
           | (Raised e, s') =>
               match f s' with
               | (Returned _, s'') => (Raised e, s'')
               | (Raised e', s'') => (Raised e', s'')
               | (Pending, s'') => (Pending, s'')
               end
           | (Pending, s') => (Pending, s')
           end.

(** A number in a template literal. *)
Definition decimal (n : nat) : list ascii :=
  str (NilEmpty.string_of_uint (Nat.to_uint n)).

Definition plural (n : nat) : list ascii :=
  if (n =? 1)%nat then [] else str "s".

Section Commands.
Variable rt : Runtime.
Variable settings : DockerToObsiSettings.

Definition dockerToObsiCommand : C unit :=
  and_then (show StatusBarItem) (fun _ =>
  and_then (show (SetText (str "Fetching docker stacks..."))) (fun _ =>
  finally
    (catch
       (and_then (lift (GithubService.fetchAllComposeStackFiles rt))
          (fun stacks =>
           if (length stacks =? 0)%nat
           then show (Notice (str "No Docker stacks found."))
           else
             and_then
               (show (Notice (str "Found " ++ decimal (length stacks)
                                ++ str " Docker stacks."))) (fun _ =>
             and_then
               (show (SetText
                        (str "Updating docker stacks in obsidian files...")))
               (fun _ =>
             and_then
               (lift (ObsidianService.checkNotesForMatchingStacks
                        settings stacks)) (fun updatedCount =>
             if (0 <? updatedCount)%nat
             then show (Notice (str "Successfully updated "
                                  ++ decimal updatedCount ++ str " note"
                                  ++ plural updatedCount
                                  ++ str " with Docker stack content."))
             else show (Notice
                          (str "No matching notes found to update.")))))))
       (fun _ =>
          show (Notice (str "Failed to fetch file content from GitHub."))))
    (show Remove))).

(** The callback the dialog calls with the selected stacks. *)
Definition onSubmit (selectedStacks : list DockerStackFile) : C unit :=
  if (length selectedStacks =? 0)%nat
  then show (Notice (str "No stacks selected for creation."))
  else
    and_then (show StatusBarItem) (fun _ =>
    and_then (show (SetText (str "Creating notes from template...")))
      (fun _ =>
    finally
      (catch
         (and_then
            (lift (ObsidianService.createNotesFromTemplate rt settings
                     selectedStacks)) (fun createdCount =>
          if (0 <? createdCount)%nat
          then show (Notice (str "Successfully created "
                               ++ decimal createdCount ++ str " new note"
                               ++ plural createdCount
                               ++ str " for Docker stacks."))
          else show (Notice
                       (str "Failed to create notes. Check console for errors."))))
         (fun _ =>
            show (Notice
                    (str "Failed to create Docker notes. Check console for details."))))
      (show Remove))).

(** The command opens the dialog and ends; the dialog calls
    [onSubmit] later. *)
Definition createMissingDockerNotesCommand : C unit :=
  and_then (show StatusBarItem) (fun _ =>
  and_then (show (SetText (str "Fetching docker stacks..."))) (fun _ =>
  finally
    (catch
       (and_then (lift (GithubService.fetchAllComposeStackFiles rt))
          (fun stacks =>
           if (length stacks =? 0)%nat
           then show (Notice (str "No Docker stacks found."))
           else
             and_then
               (show (SetText
                        (str "Finding missing Docker stack notes...")))
               (fun _ =>
             and_then
               (lift (ObsidianService.findMissingStacks settings stacks))
               (fun missingStacks =>
             if (length missingStacks =? 0)%nat
             then show (Notice
                          (str "All Docker stacks already have corresponding notes."))
             else
               and_then (show Remove) (fun _ =>
               show (ModalOpen missingStacks))))))
       (fun _ =>
          show (Notice
                  (str "Failed to create Docker notes. Check console for details."))))
    (show Remove))).
End Commands.

(** The notices of a trace, in their order. *)
Definition notices (trace : list UiEvent) : list (list ascii) :=
  omap (fun e => match e with Notice text => Some text | _ => None end) trace.

(** The status bar items a trace leaves on the bar: those added and not
    removed; removing an item twice removes it once. *)
Fixpoint status_items (left : nat) (trace : list UiEvent) : nat :=
  match trace with
  | [] => left
  | StatusBarItem :: trace' => status_items (S left) trace'
  | Remove :: trace' => status_items (Nat.pred left) trace'
  | _ :: trace' => status_items left trace'
  end.

End CommandManager.

(** ** More sample values *)

Module Cases.
Import Github Plugin.

Definition item (type name path : string) : RepositoryListing.Item :=
  RepositoryListing.Build_Item (str type) (str name) (str path).

(** A repository: a compose file and a readme at the top, a directory
    [web] with a compose file, a directory [docs] without one. *)
Definition repository (path : list ascii)
  : outcome (list RepositoryListing.Item) :=
  if bool_decide (path = [])
  then Returned [ item "file" "compose.yaml" "compose.yaml";
                  item "file" "README.md" "README.md";
                  item "dir" "web" "web";
                  item "dir" "docs" "docs" ]
  else if bool_decide (path = str "web")
  then Returned [ item "file" "docker-compose.yaml"
                    "web/docker-compose.yaml" ]
  else if bool_decide (path = str "docs")
  then Returned []
  else Raised HttpError.

(** The same repository, with a directory that cannot be listed. *)
Definition broken_repository (path : list ascii)
  : outcome (list RepositoryListing.Item) :=
  if bool_decide (path = str "docs") then Raised HttpError
  else repository path.

(** An environment in which the text of [web/compose.yaml] never
    comes and the text of [db/compose.yaml] cannot be fetched. *)
Definition stalled_runtime : Runtime := {|
  toUpperCase := toUpperCase Sample.runtime;
  toLowerCase := toLowerCase Sample.runtime;
  format := format Sample.runtime;
  default_date := default_date Sample.runtime;
  generateText := generateText Sample.runtime;
  generateObject := generateObject Sample.runtime;
  fetchComposeYamlFiles := fetchComposeYamlFiles Sample.runtime;
  fetchGithubFileContent := fun path =>
    if bool_decide (path = str "web/compose.yaml") then Pending
    else if bool_decide (path = str "db/compose.yaml") then Raised HttpError
    else Returned (str "services: {}");
  parseFrontMatter := parseFrontMatter Sample.runtime;
  create_ok := create_ok Sample.runtime
|}.

End Cases.
(** * Properties *)

Import Github Plugin GithubService AIService ObsidianService Spec.

Set Warnings "-clear-no-such-hyp".

(** ** Prefixes and inclusion *)

Section StringFacts.
Implicit Types p s r : list ascii.

Lemma strip_prefix_Some p s r : strip_prefix p s = Some r <-> s = p ++ r.
Proof.
  revert s. induction p as [|a p IH]; intros s; simpl.
  - split; [intros [= ->]|intros ->]; done.
  - destruct s as [|b s]; [split; [done|intros [=]]|].
    destruct (Ascii.eqb_spec a b) as [->|Hne].
    + rewrite IH. split; [intros ->; done|intros [= ->]; done].
    + split; [done|intros [= ? ?]; done].
Qed.

Lemma strip_prefix_app p r : strip_prefix p (p ++ r) = Some r.
Proof. by apply strip_prefix_Some. Qed.

Lemma strip_prefix_None p s :
  strip_prefix p s = None <-> forall r, s <> p ++ r.
Proof.
  split.
  - intros H r ->. by rewrite strip_prefix_app in H.
  - intros H. destruct (strip_prefix p s) as [r|] eqn:E; [|done].
    apply strip_prefix_Some in E. by destruct (H r).
Qed.

Lemma includes_true s p :
  includes s p = true <-> exists a b, s = a ++ p ++ b.
Proof.
  induction s as [|c s IH]; simpl.
  - destruct (strip_prefix p []) as [r|] eqn:E.
    + apply strip_prefix_Some in E. split; [|done].
      intros _. by exists [], r.
    + split; [done|]. intros (a & b & H).
      destruct a; [|done]. simpl in H.
      rewrite H, strip_prefix_app in E. done.
  - destruct (strip_prefix p (c :: s)) as [r|] eqn:E.
    + apply strip_prefix_Some in E. split; [|done].
      intros _. by exists [], r.
    + rewrite IH. split.
      * intros (a & b & ->). by exists (c :: a), b.
      * intros (a & b & H). destruct a as [|x a].
        -- simpl in H. rewrite H, strip_prefix_app in E. done.
        -- injection H as -> ->. by exists a, b.
Qed.

Lemma includes_false s p :
  includes s p = false <-> forall a b, s <> a ++ p ++ b.
Proof.
  split.
  - intros H a b Heq.
    assert (includes s p = true) by (apply includes_true; eauto).
    congruence.
  - intros H. destruct (includes s p) eqn:E; [|done].
    apply includes_true in E as (a & b & ->). by destruct (H a b).
Qed.

(** A text that lacks a pattern lacks every extension of it. *)
Lemma includes_false_longer s p q :
  includes s p = false -> includes s (p ++ q) = false.
Proof.
  rewrite !includes_false. intros H a b ->.
  apply (H a (q ++ b)). by rewrite <- !app_assoc.
Qed.

Lemma includes_false_suffix a s p :
  includes (a ++ s) p = false -> includes s p = false.
Proof.
  rewrite !includes_false. intros H x y ->.
  apply (H (a ++ x) y). by rewrite <- !app_assoc.
Qed.

Lemma includes_char_false s c :
  includes s [c] = false <-> c ∉ s.
Proof.
  rewrite includes_false. split.
  - intros H Hin. apply list_elem_of_split in Hin as (a & b & ->).
    by apply (H a b).
  - intros H a b ->. apply H. set_solver.
Qed.

Lemma endsWith_app s p : endsWith (s ++ p) p = true.
Proof.
  unfold endsWith, startsWith. by rewrite rev_app_distr, strip_prefix_app.
Qed.

(** A replacement without a dollar stands for itself. *)
Lemma get_substitution_plain matched before after repl :
  "$" ∉ repl -> get_substitution matched before after repl = repl.
Proof.
  induction repl as [|c r IH]; [done|]. intros Hin.
  apply not_elem_of_cons in Hin as [Hc Hr]. simpl.
  destruct (Ascii.eqb_spec c "$") as [->|_]; [done|].
  by rewrite IH.
Qed.

Lemma replace_first_from_unfold pat repl b s :
  replace_first_from pat repl b s
  = match strip_prefix pat s with
    | Some rest =>
        rev b ++ get_substitution pat (rev b) rest repl ++ rest
    | None =>
        match s with
        | [] => rev b
        | c :: s' => replace_first_from pat repl (c :: b) s'
        end
    end.
Proof. by destruct s. Qed.

(** Replacing a pattern string: the text up to its first occurrence
    is copied, the occurrence replaced, the text after it copied. *)
Lemma replace_first_from_spec pat repl pre : forall b rest,
  (forall u1 u2, pre = u1 ++ u2 -> u2 <> [] ->
     strip_prefix pat (u2 ++ pat ++ rest) = None) ->
  replace_first_from pat repl b (pre ++ pat ++ rest)
  = rev b ++ pre ++ get_substitution pat (rev b ++ pre) rest repl ++ rest.
Proof.
  induction pre as [|c pre IH]; intros b rest H.
  - rewrite replace_first_from_unfold. simpl app.
    by rewrite strip_prefix_app, app_nil_r.
  - rewrite replace_first_from_unfold.
    rewrite (H [] (c :: pre) eq_refl) by done.
    cbn [app]. rewrite IH.
    + cbn [rev]. by rewrite <- !app_assoc.
    + intros u1 u2 -> Hne. by apply (H (c :: u1) u2).
Qed.
End StringFacts.

(** ** The global replacement *)

Section ReplaceFacts.
Context {C : Type}.
Variable exec : list ascii -> list ascii -> option (C * list ascii).
Variable replacer : list ascii -> C -> list ascii -> list ascii -> list ascii.

Local Abbreviation RM := (replace_matches exec replacer).

Lemma replace_matches_skip n b s :
  n <= length s -> RM n b s = RM 0 (rev (take n s) ++ b) (drop n s).
Proof using Type.
  revert b s. induction n as [|n IH]; intros b s Hn.
  - by rewrite take_0, drop_0.
  - destruct s as [|c s]; simpl in Hn; [lia|].
    cbn [replace_matches]. rewrite IH by lia.
    rewrite firstn_cons, skipn_cons. simpl. by rewrite <- app_assoc.
Qed.

(** At a match, the replacement is written and the pass goes on after
    the match. *)
Lemma replace_matches_hit b m caps rest :
  m <> [] -> exec b (m ++ rest) = Some (caps, rest) ->
  RM 0 b (m ++ rest)
  = replacer m caps (rev b) rest ++ RM 0 (rev m ++ b) rest.
Proof using Type.
  intros Hm He. destruct m as [|c m]; [done|].
  change ((c :: m) ++ rest) with (c :: (m ++ rest)) in *.
  cbn [replace_matches]. rewrite He.
  replace (length (c :: m ++ rest) - length rest) with (length (c :: m))
    by (simpl; rewrite length_app; lia).
  replace (length (m ++ rest) - length rest) with (length m)
    by (rewrite length_app; lia).
  change (c :: m ++ rest) with ((c :: m) ++ rest).
  rewrite take_app_length.
  rewrite replace_matches_skip by (rewrite length_app; lia).
  rewrite take_app_length, drop_app_length. simpl.
  by rewrite <- app_assoc.
Qed.

Lemma replace_matches_miss b c s :
  exec b (c :: s) = None -> RM 0 b (c :: s) = c :: RM 0 (c :: b) s.
Proof using Type. intros He. cbn [replace_matches]. by rewrite He. Qed.

(** Where the pattern matches nowhere, nothing changes. *)
Lemma replace_matches_none b s :
  (forall u v, s = u ++ v -> exec (rev u ++ b) v = None) ->
  RM 0 b s = s.
Proof using Type.
  revert b. induction s as [|c s IH]; intros b H; [done|].
  rewrite replace_matches_miss by (apply (H [] (c :: s)); done).
  f_equal. apply IH. intros u v ->.
  specialize (H (c :: u) v). simpl in H. rewrite <- app_assoc in H.
  by apply H.
Qed.

(** Before the leftmost match the text is copied. *)
Lemma replace_matches_prefix_miss u : forall b x,
  (forall u1 u2, u = u1 ++ u2 -> u2 <> [] ->
     exec (rev u1 ++ b) (u2 ++ x) = None) ->
  RM 0 b (u ++ x) = u ++ RM 0 (rev u ++ b) x.
Proof using Type.
  induction u as [|c u IH]; intros b x H; [done|].
  simpl app. rewrite replace_matches_miss by (by apply (H [] (c :: u))).
  f_equal. rewrite IH.
  - cbn [rev]. by rewrite <- app_assoc.
  - intros u1 u2 -> Hne. specialize (H (c :: u1) u2 eq_refl Hne).
    cbn [rev] in H. by rewrite <- app_assoc in H.
Qed.

(** The leftmost match splits the text. *)
Lemma match_first_from_spec b s pre m rest :
  (forall b' x caps r, exec b' x = Some (caps, r) ->
     exists y, x = y ++ r) ->
  match_first_from exec b s = Some (pre, m, rest) ->
  exists u caps, pre = rev b ++ u /\ s = u ++ m ++ rest
    /\ exec (rev u ++ b) (m ++ rest) = Some (caps, rest)
    /\ (forall u1 u2, u = u1 ++ u2 -> u2 <> [] ->
          exec (rev u1 ++ b) (u2 ++ m ++ rest) = None).
Proof using Type.
  intros Hsound. revert b. induction s as [|c s IH]; intros b H.
  - cbn [match_first_from] in H.
    destruct (exec b []) as [[caps r]|] eqn:E; [|done].
    destruct (Hsound _ _ _ _ E) as [y Hy].
    symmetry in Hy. apply app_eq_nil in Hy as [-> ->].
    injection H as <- <- <-.
    exists [], caps. rewrite app_nil_r. simpl. repeat split; try done.
    intros u1 u2 Hu Hne. symmetry in Hu. by apply app_eq_nil in Hu as [_ ->].
  - cbn [match_first_from] in H.
    destruct (exec b (c :: s)) as [[caps r]|] eqn:E.
    + destruct (Hsound _ _ _ _ E) as [y Hy].
      rewrite Hy in H, E. rewrite length_app in H.
      replace (length y + length r - length r) with (length y) in H by lia.
      rewrite take_app_length in H.
      injection H as <- <- <-.
      exists [], caps. rewrite app_nil_r. simpl. rewrite Hy.
      repeat split; try done.
      intros u1 u2 Hu Hne. symmetry in Hu. by apply app_eq_nil in Hu as [_ ->].
    + apply IH in H as (u & caps & -> & -> & He & Hmiss).
      exists (c :: u), caps. simpl. rewrite <- !app_assoc. simpl.
      repeat split; try done.
      intros u1 u2 Hu Hne. destruct u1 as [|x u1].
      * simpl in Hu. subst u2. simpl. done.
      * injection Hu as <- ->. simpl. rewrite <- app_assoc. simpl.
        by apply Hmiss.
Qed.
End ReplaceFacts.

(** ** The pattern of a compose block, read without backtracking *)

Section PatternFacts.
Context {R : Type}.
Implicit Types k : list ascii -> option R.

Lemma lit_bind p s k : lit p s k = strip_prefix p s ≫= k.
Proof. unfold lit. by destruct (strip_prefix p s). Qed.

(** An optional literal is taken whenever it is there, as long as the
    rest of the pattern cannot start where the literal starts. *)
Lemma opt_lit_det p s k :
  (forall r, strip_prefix p s = Some r -> k s = None) ->
  opt (lit p) s k = k (opt_prefix p s).
Proof.
  intros H. unfold opt, lit, opt_prefix.
  destruct (strip_prefix p s) as [r|] eqn:E; simpl; [|done].
  destruct (k r); [done|]. by rewrite (H r).
Qed.

(** A greedy run gives nothing back when the rest of the pattern
    cannot start with a character of the class. *)
Lemma star_greedy_det cls s k :
  (forall c r, cls c = true -> k (c :: r) = None) ->
  star_greedy cls s k = k (drop_while cls s).
Proof.
  intros H. induction s as [|c s IH]; simpl; [done|].
  destruct (cls c) eqn:E; [|done].
  rewrite IH. destruct (k (drop_while cls s)) eqn:Ek; [done|].
  by apply H.
Qed.
End PatternFacts.

Lemma star_lazy_find_close {R} (f : list ascii -> R) s :
  star_lazy (fun _ => true) s
    (fun x => lit closing_fence x (fun r => Some (f r)))
  = f <$> find_close s.
Proof.
  induction s as [|c s IH].
  - done.
  - cbn [star_lazy find_close]. rewrite lit_bind.
    destruct (strip_prefix closing_fence (c :: s)) as [r|]; [done|].
    simpl. apply IH.
Qed.

Lemma is_space_not_t c : is_space c = true -> ("t" =? c) = false.
Proof. destruct (Ascii.eqb_spec "t" c) as [<-|]; [done|done]. Qed.

Lemma yamlCodeBlockRegex_det {R} s (k : list ascii -> option R) :
  yamlCodeBlockRegex s k
  = header_end s ≫= fun r =>
      star_lazy (fun _ => true) r (fun x => lit closing_fence x k).
Proof.
  unfold yamlCodeBlockRegex, header_end, seq.
  rewrite lit_bind. destruct (strip_prefix (str "```y") s) as [s1|]; [|done].
  cbn [mbind option_bind].
  rewrite opt_lit_det; cycle 1.
  { intros r ->%strip_prefix_Some. done. }
  rewrite lit_bind.
  destruct (strip_prefix (str "ml") (opt_prefix (str "a") s1)) as [s3|]; [|done].
  cbn [mbind option_bind]. unfold plus_greedy.
  destruct s3 as [|c s3]; [done|].
  destruct (is_space c); [|done].
  rewrite star_greedy_det; cycle 1.
  { intros x r Hx. rewrite lit_bind. unfold str.
    cbn [list_ascii_of_string strip_prefix]. by rewrite is_space_not_t. }
  rewrite lit_bind.
  destruct (strip_prefix (str "title=") (drop_while is_space s3)) as [s5|];
    [|done].
  cbn [mbind option_bind].
  rewrite opt_lit_det; cycle 1.
  { intros r ->%strip_prefix_Some. done. }
  rewrite lit_bind.
  destruct (strip_prefix (str "compose.y") (opt_prefix (str "docker-") s5))
    as [s7|]; [|done].
  cbn [mbind option_bind].
  rewrite opt_lit_det; cycle 1.
  { intros r ->%strip_prefix_Some. done. }
  rewrite lit_bind.
  destruct (strip_prefix (str "ml") (opt_prefix (str "a") s7)) as [s9|];
    [|done].
  cbn [mbind option_bind].
  rewrite opt_lit_det; cycle 1.
  { intros r ->%strip_prefix_Some. done. }
  rewrite lit_bind.
  by destruct (strip_prefix ["010"] (opt_prefix ["013"] s9)).
Qed.

(** The pattern at a position: at a line start, an opening line, then
    the text up to the first closing fence. *)
Lemma yamlCodeBlock_exec_spec b s :
  yamlCodeBlock_exec b s
  = if at_line_start b then pair tt <$> (header_end s ≫= find_close)
    else None.
Proof.
  unfold yamlCodeBlock_exec. destruct (at_line_start b); [|done].
  rewrite yamlCodeBlockRegex_det.
  destruct (header_end s) as [r|]; [|done]. simpl.
  apply star_lazy_find_close.
Qed.

Lemma opt_prefix_split p s :
  exists a, (a = [] \/ a = p) /\ s = a ++ opt_prefix p s.
Proof.
  unfold opt_prefix. destruct (strip_prefix p s) as [r|] eqn:E; simpl.
  - apply strip_prefix_Some in E. exists p. auto.
  - exists []. auto.
Qed.

Lemma drop_while_split cls s :
  exists ws, Forall (fun c => cls c = true) ws /\ s = ws ++ drop_while cls s.
Proof.
  induction s as [|c s (ws & Hws & IH)]; simpl.
  - by exists [].
  - destruct (cls c) eqn:E.
    + exists (c :: ws). split; [by constructor|]. simpl. by f_equal.
    + by exists [].
Qed.

Lemma drop_while_app cls ws s :
  Forall (fun c => cls c = true) ws -> drop_while cls s = s ->
  drop_while cls (ws ++ s) = s.
Proof.
  intros Hws Hs. induction Hws as [|w ws Hw _ IH]; simpl; [done|].
  by rewrite Hw.
Qed.

Lemma header_end_sound s r :
  header_end s = Some r -> exists H, is_header H /\ s = H ++ r.
Proof.
  unfold header_end. intros H.
  destruct (strip_prefix (str "```y") s) as [s1|] eqn:E1; [|done].
  apply strip_prefix_Some in E1 as ->. cbn [mbind option_bind] in H.
  destruct (opt_prefix_split (str "a") s1) as (a & Ha & Hs1).
  destruct (strip_prefix (str "ml") (opt_prefix (str "a") s1))
    as [s3|] eqn:E3; [|done].
  apply strip_prefix_Some in E3. rewrite E3 in Hs1. subst s1.
  cbn [mbind option_bind] in H. destruct s3 as [|c s3]; [done|].
  destruct (is_space c) eqn:Ec; [|done].
  destruct (drop_while_split is_space s3) as (ws & Hws & Hs3).
  destruct (strip_prefix (str "title=") (drop_while is_space s3))
    as [s5|] eqn:E5; [|done].
  apply strip_prefix_Some in E5. rewrite E5 in Hs3. subst s3.
  cbn [mbind option_bind] in H.
  destruct (opt_prefix_split (str "docker-") s5) as (d & Hd & Hs5).
  destruct (strip_prefix (str "compose.y") (opt_prefix (str "docker-") s5))
    as [s7|] eqn:E7; [|done].
  apply strip_prefix_Some in E7. rewrite E7 in Hs5. subst s5.
  cbn [mbind option_bind] in H.
  destruct (opt_prefix_split (str "a") s7) as (a' & Ha' & Hs7).
  destruct (strip_prefix (str "ml") (opt_prefix (str "a") s7))
    as [s9|] eqn:E9; [|done].
  apply strip_prefix_Some in E9. rewrite E9 in Hs7. subst s7.
  cbn [mbind option_bind] in H.
  destruct (opt_prefix_split ["013"] s9) as (cr & Hcr & Hs9).
  apply strip_prefix_Some in H. rewrite H in Hs9. subst s9.
  exists (str "```y" ++ a ++ str "ml" ++ (c :: ws) ++ str "title=" ++ d
          ++ str "compose.y" ++ a' ++ str "ml" ++ cr ++ ["010"]).
  split.
  - exists a, (c :: ws), d, a', cr. repeat split; try done.
    by constructor.
  - by repeat (rewrite <- ?app_assoc; simpl; f_equal).
Qed.

Lemma header_end_complete H r : is_header H -> header_end (H ++ r) = Some r.
Proof.
  intros (a & ws & d & a' & cr & -> & Ha & Hne & Hws & Hd & Ha' & Hcr).
  destruct ws as [|w ws]; [done|].
  apply Forall_cons in Hws as [Hw Hws].
  unfold header_end. rewrite <- !app_assoc. rewrite strip_prefix_app.
  cbn [mbind option_bind].
  assert (forall x, strip_prefix (str "ml")
                      (opt_prefix (str "a") (a ++ str "ml" ++ x)) = Some x)
    as ->.
  { intros x. by destruct Ha as [-> | ->]. }
  cbn [mbind option_bind app]. rewrite Hw.
  rewrite drop_while_app by done.
  rewrite strip_prefix_app. cbn [mbind option_bind].
  assert (forall x, strip_prefix (str "compose.y")
                      (opt_prefix (str "docker-") (d ++ str "compose.y" ++ x))
                    = Some x) as ->.
  { intros x. by destruct Hd as [-> | ->]. }
  cbn [mbind option_bind].
  assert (forall x, strip_prefix (str "ml")
                      (opt_prefix (str "a") (a' ++ str "ml" ++ x)) = Some x)
    as ->.
  { intros x. by destruct Ha' as [-> | ->]. }
  cbn [mbind option_bind]. by destruct Hcr as [-> | ->].
Qed.

Lemma header_end_spec s r :
  header_end s = Some r <-> exists H, is_header H /\ s = H ++ r.
Proof.
  split; [apply header_end_sound|].
  intros (H & HH & ->). by apply header_end_complete.
Qed.

(** A character that differs from every character of a text made of
    literals and of pieces known to lack it. *)
Ltac not_in_text :=
  repeat first [ apply not_elem_of_nil
               | apply not_elem_of_cons; split; [done|]
               | apply not_elem_of_app; split; [done|] ].

(** An opening line is three backquotes and then no backquote. *)
Lemma header_shape H :
  is_header H -> exists h, H = str "```" ++ h /\ "`" ∉ h.
Proof.
  intros (a & ws & d & a' & cr & -> & Ha & Hne & Hws & Hd & Ha' & Hcr).
  eexists. split; [reflexivity|].
  assert ("`" ∉ ws) as Hbq.
  { intros Hin. rewrite Forall_forall in Hws. by apply Hws in Hin. }
  destruct Ha as [-> | ->], Hd as [-> | ->], Ha' as [-> | ->],
    Hcr as [-> | ->]; simpl; not_in_text.
Qed.

Lemma find_close_Some s r :
  find_close s = Some r -> exists body, s = body ++ closing_fence ++ r.
Proof.
  induction s as [|c s IH]; cbn [find_close].
  - destruct (strip_prefix closing_fence []) eqn:E; [done|done].
  - destruct (strip_prefix closing_fence (c :: s)) as [x|] eqn:E.
    + intros [= ->]. apply strip_prefix_Some in E. by exists [].
    + intros (body & ->)%IH. by exists (c :: body).
Qed.

Lemma find_close_prepend p s r :
  find_close s = Some r -> is_Some (find_close (p ++ s)).
Proof.
  intros H. induction p as [|c p IH]; [simpl; by rewrite H|].
  simpl app. cbn [find_close].
  by destruct (strip_prefix closing_fence (c :: p ++ s)).
Qed.

Lemma find_close_unfold s :
  find_close s
  = match strip_prefix closing_fence s with
    | Some r => Some r
    | None => match s with
              | [] => None
              | _ :: s' => find_close s'
              end
    end.
Proof. by destruct s. Qed.

(** A body without a closing fence ends at the fence put after it. *)
Lemma find_close_fresh body rest :
  includes body closing_fence = false ->
  find_close (body ++ closing_fence ++ rest) = Some rest.
Proof.
  induction body as [|c body IH]; intros Hinc.
  - rewrite app_nil_l, find_close_unfold. by rewrite strip_prefix_app.
  - rewrite find_close_unfold.
    destruct (strip_prefix closing_fence ((c :: body) ++ closing_fence ++ rest))
      as [x|] eqn:E.
    + exfalso. apply strip_prefix_Some in E.
      rewrite includes_false in Hinc.
      destruct body as [|c1 [|c2 [|c3 body]]]; simpl in E; try done.
      injection E as -> -> -> -> _.
      by apply (Hinc [] body).
    + simpl app. apply IH. by apply (includes_false_suffix [c]).
Qed.

(** ** One pass over the compose blocks of a document *)

Section BlockScan.
Variable stackContent : list ascii.

Local Abbreviation block := (newCodeBlock stackContent).
Local Abbreviation scan :=
  (replace_matches yamlCodeBlock_exec
     (fun _ (_ : unit) _ _ => newCodeBlock stackContent) 0).

Lemma yamlCodeBlock_exec_sound b s u rest :
  yamlCodeBlock_exec b s = Some (u, rest) ->
  at_line_start b = true
  /\ exists H body, is_header H /\ s = H ++ body ++ closing_fence ++ rest.
Proof using Type.
  rewrite yamlCodeBlock_exec_spec.
  destruct (at_line_start b); [|done]. intros H. split; [done|].
  destruct (header_end s) as [r|] eqn:E1; [|done].
  cbn [mbind option_bind] in H.
  destruct (find_close r) as [x|] eqn:E2; [|done].
  injection H as _ <-.
  apply header_end_sound in E1 as (H & HH & ->).
  apply find_close_Some in E2 as (body & ->). eauto.
Qed.

Lemma yamlCodeBlock_exec_split b s u rest :
  yamlCodeBlock_exec b s = Some (u, rest) ->
  exists m, s = (m ++ ["`"]) ++ rest.
Proof using Type.
  intros (_ & H & body & HH & ->)%yamlCodeBlock_exec_sound.
  exists (H ++ body ++ "010" :: str "``").
  by repeat (rewrite <- ?app_assoc; simpl; f_equal).
Qed.

Lemma yamlCodeBlock_exec_context b b' s :
  at_line_start b = at_line_start b' ->
  yamlCodeBlock_exec b s = yamlCodeBlock_exec b' s.
Proof using Type. unfold yamlCodeBlock_exec. by intros ->. Qed.

Lemma yamlCodeBlock_exec_head c s :
  c <> "`" -> yamlCodeBlock_exec [] (c :: s) = None.
Proof using Type.
  intros Hc. rewrite yamlCodeBlock_exec_spec. simpl at_line_start.
  destruct (header_end (c :: s)) as [r|] eqn:E; [|done].
  apply header_end_sound in E as (H & (h & -> & _)%header_shape & Heq).
  simpl in Heq. congruence.
Qed.

(** The pass looks at the text before a position only to know
    whether the position starts a line. *)
Lemma scan_context s : forall b b',
  at_line_start b = at_line_start b' -> scan b s = scan b' s.
Proof using Type.
  induction s as [s IH] using (induction_ltof1 _ (@length _)).
  unfold ltof in IH. intros b b' Hb.
  destruct s as [|c s]; [done|].
  destruct (yamlCodeBlock_exec b (c :: s)) as [[u rest]|] eqn:He.
  - destruct (yamlCodeBlock_exec_split _ _ _ _ He) as (m & Hs).
    rewrite Hs in He |- *.
    rewrite (replace_matches_hit _ _ b _ u rest); [|by destruct m|done].
    rewrite (yamlCodeBlock_exec_context b b') in He by done.
    rewrite (replace_matches_hit _ _ b' _ u rest); [|by destruct m|done].
    f_equal. apply IH.
    + rewrite Hs, !length_app. simpl. lia.
    + by rewrite !rev_app_distr.
  - rewrite replace_matches_miss by done.
    rewrite (yamlCodeBlock_exec_context b b') in He by done.
    rewrite replace_matches_miss by done.
    f_equal. apply IH; [simpl; lia|done].
Qed.

(** After a match the pass goes on from a position that follows a
    backquote. *)
Lemma scan_hit b s u rest :
  yamlCodeBlock_exec b s = Some (u, rest) ->
  scan b s = block ++ scan ["`"] rest /\ length rest < length s.
Proof using Type.
  intros He. destruct (yamlCodeBlock_exec_split _ _ _ _ He) as (m & ->).
  split; [|rewrite !length_app; simpl; lia].
  rewrite (replace_matches_hit _ _ b _ u rest); [|by destruct m|done].
  f_equal. apply scan_context. by rewrite rev_app_distr.
Qed.

(** The normalized block is a match, closed by its own fence when the
    content holds none. *)
Lemma block_exec b rest :
  at_line_start b = true ->
  includes (trim stackContent) closing_fence = false ->
  yamlCodeBlock_exec b (block ++ rest) = Some (tt, rest).
Proof using Type.
  intros Hb Hinc. rewrite yamlCodeBlock_exec_spec, Hb.
  unfold newCodeBlock.
  assert (header_end
            ((str "```yaml title=compose.yaml"
              ++ "010" :: trim stackContent ++ "010" :: str "```") ++ rest)
          = Some (trim stackContent ++ closing_fence ++ rest)) as ->.
  { rewrite <- app_assoc. simpl. by rewrite <- app_assoc. }
  cbn [mbind option_bind]. by rewrite find_close_fresh.
Qed.

(** What a pass does to a text: nothing, or the first match is
    replaced and the pass goes on. *)
Lemma scan_decomp s : forall b,
  scan b s = s
  \/ exists u m rest x,
       s = u ++ m ++ rest
       /\ scan b s = u ++ block ++ scan ["`"] rest
       /\ yamlCodeBlock_exec (rev u ++ b) (m ++ rest) = Some (x, rest).
Proof using Type.
  induction s as [|c s IH]; intros b; [by left|].
  destruct (yamlCodeBlock_exec b (c :: s)) as [[x rest]|] eqn:He.
  - right. destruct (scan_hit _ _ _ _ He) as [Hs _].
    destruct (yamlCodeBlock_exec_split _ _ _ _ He) as (m & Hm).
    exists [], (m ++ ["`"]), rest, x. rewrite <- Hm. by rewrite !app_nil_l.
  - rewrite replace_matches_miss by done.
    destruct (IH (c :: b)) as [-> | (u & m & rest & x & -> & -> & Hx)];
      [by left|].
    right. exists (c :: u), m, rest, x. split; [done|]. split; [done|].
    cbn [rev]. by rewrite <- app_assoc.
Qed.

(** Replacing the blocks further on creates no block here. *)
Lemma exec_stable b c s :
  yamlCodeBlock_exec b (c :: s) = None ->
  yamlCodeBlock_exec b (c :: scan (c :: b) s) = None.
Proof using Type.
  rewrite !yamlCodeBlock_exec_spec.
  destruct (at_line_start b); [|done]. intros Hnone.
  destruct (header_end (c :: scan (c :: b) s)) as [r1|] eqn:E1; [|done].
  cbn [mbind option_bind].
  destruct (find_close r1) as [r2|] eqn:E2; [|done]. exfalso.
  apply header_end_sound in E1 as (H1 & HH & Heq).
  destruct (header_shape H1 HH) as (h & HH1 & Hbq).
  assert (forall l t, c :: s = H1 ++ l ++ t ->
            is_Some (find_close t) -> False) as Hcontra.
  { intros l t Hs [x Hx]. rewrite Hs, header_end_complete in Hnone by done.
    cbn [mbind option_bind] in Hnone.
    destruct (find_close_prepend l _ _ Hx) as [y Hy].
    by rewrite Hy in Hnone. }
  destruct (scan_decomp s (c :: b))
    as [Hid | (u & m & rest & x & -> & HY & Hx)].
  - rewrite Hid in Heq. apply (Hcontra [] r1); [done|by rewrite E2].
  - rewrite HY in Heq. clear HY.
    apply yamlCodeBlock_exec_sound in Hx as (Hls & Hm & body & HHm & Hmr).
    subst H1. simpl in Heq. injection Heq as -> Heq.
    destruct u as [|x1 [|x2 u]]; simpl in Heq, Hls.
    + done.
    + injection Heq as -> _. done.
    + injection Heq as -> -> Heq.
      assert (is_Some (find_close (m ++ rest))) as Hfc.
      { rewrite Hmr. rewrite app_assoc.
        apply (find_close_prepend _ (closing_fence ++ rest) rest).
        by apply (find_close_fresh []). }
      apply app_eq_app in Heq as [l [[-> ->] | [-> Heq]]].
      * apply (Hcontra l (m ++ rest)); [|done].
        by repeat (rewrite <- ?app_assoc; simpl; f_equal).
      * destruct l as [|y l].
        -- apply (Hcontra [] (m ++ rest)); [|done].
           rewrite app_nil_r. by repeat (rewrite <- ?app_assoc; simpl; f_equal).
        -- unfold newCodeBlock in Heq. simpl in Heq. injection Heq as <- _.
           apply Hbq. set_solver.
Qed.

(** A second pass with the same content changes nothing, when the
    trimmed content holds no closing fence. *)
Lemma scan_idempotent :
  includes (trim stackContent) closing_fence = false ->
  forall s b, scan b (scan b s) = scan b s.
Proof using Type.
  intros Hinc s.
  induction s as [s IH] using (induction_ltof1 _ (@length _)).
  unfold ltof in IH. intros b.
  destruct s as [|c s]; [done|].
  destruct (yamlCodeBlock_exec b (c :: s)) as [[u rest]|] eqn:He.
  - destruct (scan_hit _ _ _ _ He) as [-> Hlen].
    apply yamlCodeBlock_exec_sound in He as [Hb _].
    destruct (scan_hit b (block ++ scan ["`"] rest) tt (scan ["`"] rest))
      as [-> _]; [by apply block_exec|].
    f_equal. by apply IH.
  - rewrite replace_matches_miss by done.
    rewrite replace_matches_miss by (by apply exec_stable).
    f_equal. apply IH. simpl. lia.
Qed.
End BlockScan.

Lemma scan_restart stackContent rest :
  startsWith rest ["`"] = false ->
  replace_matches yamlCodeBlock_exec
    (fun _ (_ : unit) _ _ => newCodeBlock stackContent) 0 ["`"] rest
  = processYamlCodeBlocks rest stackContent.
Proof.
  unfold processYamlCodeBlocks, replace_global.
  destruct rest as [|c r]; [done|]. intros Hc.
  assert (c <> "`") as Hne.
  { intros ->. done. }
  rewrite !replace_matches_miss;
    [|by apply yamlCodeBlock_exec_head|done].
  f_equal. by apply scan_context.
Qed.

Lemma token_exec_Some tok b s u r :
  token_exec tok b s = Some (u, r) <-> s = tok ++ r.
Proof.
  unfold token_exec. rewrite lit_bind, <- strip_prefix_Some.
  destruct (strip_prefix tok s) as [x|]; simpl; [|done].
  destruct u. split; congruence.
Qed.

Lemma token_exec_None tok b s :
  token_exec tok b s = None <-> strip_prefix tok s = None.
Proof.
  unfold token_exec. rewrite lit_bind.
  by destruct (strip_prefix tok s).
Qed.

Lemma newCodeBlock_plain stackContent :
  includes (trim stackContent) ["$"] = false ->
  "$" ∉ newCodeBlock stackContent.
Proof.
  intros H%includes_char_false. unfold newCodeBlock. simpl. not_in_text.
Qed.

Lemma match_first_from_hit {C} (exec : list ascii -> list ascii
                                       -> option (C * list ascii))
    u s caps rest : forall b,
  exec (rev u ++ b) s = Some (caps, rest) ->
  is_Some (match_first_from exec b (u ++ s)).
Proof.
  induction u as [|c u IH]; intros b H.
  - simpl in H. rewrite app_nil_l.
    destruct s; cbn [match_first_from]; rewrite H; by eexists.
  - simpl app. cbn [match_first_from].
    destruct (exec b (c :: u ++ s)) as [[x r]|]; [by eexists|].
    apply IH. cbn [rev] in H. by rewrite <- app_assoc in H.
Qed.

Lemma match_first_from_None {C} (exec : list ascii -> list ascii
                                        -> option (C * list ascii))
    s : forall b,
  match_first_from exec b s = None ->
  forall u v, s = u ++ v -> exec (rev u ++ b) v = None.
Proof.
  induction s as [|c s IH]; intros b H u v Hs.
  - symmetry in Hs. apply app_eq_nil in Hs as [-> ->].
    cbn [match_first_from] in H. simpl.
    by destruct (exec b []) as [[x r]|].
  - cbn [match_first_from] in H.
    destruct (exec b (c :: s)) as [[x r]|] eqn:E; [done|].
    destruct u as [|c' u].
    + simpl in Hs. subst v. by simpl.
    + simpl in Hs. injection Hs as <- ->. cbn [rev].
      rewrite <- app_assoc. by apply IH.
Qed.

Lemma match_first_from_intro {C} (exec : list ascii -> list ascii
                                         -> option (C * list ascii))
    u m rest caps : forall b,
  (forall u1 u2, u = u1 ++ u2 -> u2 <> [] ->
     exec (rev u1 ++ b) (u2 ++ m ++ rest) = None) ->
  exec (rev u ++ b) (m ++ rest) = Some (caps, rest) ->
  match_first_from exec b (u ++ m ++ rest) = Some (rev b ++ u, m, rest).
Proof.
  induction u as [|c u IH]; intros b Hmiss Hhit.
  - simpl in Hhit. rewrite app_nil_l, app_nil_r.
    assert (take (length (m ++ rest) - length rest) (m ++ rest) = m) as Htake.
    { rewrite length_app, Nat.add_sub. by rewrite take_app_length. }
    destruct (m ++ rest) eqn:E; cbn [match_first_from]; rewrite Hhit;
      by rewrite Htake.
  - simpl app. cbn [match_first_from].
    pose proof (Hmiss [] (c :: u) eq_refl ltac:(done)) as Hhere.
    cbn [rev app] in Hhere. rewrite Hhere.
    rewrite IH.
    + cbn [rev]. by rewrite <- app_assoc.
    + intros u1 u2 -> Hne. specialize (Hmiss (c :: u1) u2 eq_refl Hne).
      cbn [rev] in Hmiss. by rewrite <- app_assoc in Hmiss.
    + cbn [rev] in Hhit. by rewrite <- app_assoc in Hhit.
Qed.

(** The leftmost occurrence of a token, when there is one. *)
Lemma match_first_token_exists tok u r : forall b,
  exists pre' rest',
    match_first_from (token_exec tok) b (u ++ tok ++ r)
    = Some (rev b ++ pre', tok, rest')
    /\ u ++ tok ++ r = pre' ++ tok ++ rest'
    /\ length pre' <= length u.
Proof.
  induction u as [|c u IH]; intros b.
  - exists [], r. rewrite app_nil_r, app_nil_l. split; [|done].
    rewrite <- (app_nil_r (rev b)).
    apply (match_first_from_intro _ [] tok r tt b).
    + intros u1 u2 Hu Hne. symmetry in Hu. by apply app_eq_nil in Hu as [_ ->].
    + by apply token_exec_Some.
  - simpl app. cbn [match_first_from].
    destruct (token_exec tok b (c :: u ++ tok ++ r)) as [[x rest']|] eqn:E.
    + apply token_exec_Some in E. exists [], rest'. rewrite app_nil_r.
      split; [|split; [by rewrite E|simpl; lia]].
      do 2 f_equal. rewrite E, length_app, Nat.add_sub.
      by rewrite take_app_length.
    + destruct (IH (c :: b)) as (pre' & rest' & -> & Heq & Hlen).
      exists (c :: pre'), rest'. cbn [rev]. rewrite <- app_assoc.
      split; [done|]. split; [simpl; by rewrite Heq|simpl; lia].
Qed.

Section CreationPass.
Variable stackContent : list ascii.

(** The pass leaves a text without a compose block as it is. *)
Lemma creation_pass_none b text :
  match_first_from yamlCodeBlock_exec b text = None ->
  creation_pass b text stackContent = text.
Proof using Type.
  intros H. unfold creation_pass. apply replace_matches_none.
  intros u v Hs. by apply (match_first_from_None _ text b).
Qed.

(** The pass replaces the leftmost block and goes on after it. *)
Lemma creation_pass_hit b text p o r :
  match_first_from yamlCodeBlock_exec b text = Some (rev b ++ p, o, r) ->
  creation_pass b text stackContent
  = p ++ newCodeBlock stackContent
      ++ creation_pass (rev (p ++ o) ++ b) r stackContent.
Proof using Type.
  intros H.
  apply match_first_from_spec in H as (u & caps & Hp & -> & He & Hmiss);
    [|intros b' x caps r' (m & ->)%yamlCodeBlock_exec_split; eauto].
  apply app_inv_head in Hp as ->. unfold creation_pass.
  rewrite replace_matches_prefix_miss by done. f_equal.
  pose proof He as (m & Hm)%yamlCodeBlock_exec_split.
  apply app_inv_tail in Hm as ->.
  rewrite (replace_matches_hit _ _ _ _ caps r); [|by destruct m|done].
  by rewrite (rev_app_distr u), <- app_assoc.
Qed.
End CreationPass.

(** After the leftmost block, creation goes on as on a text of its own,
    unless a backquote follows the block. *)
Lemma creation_pass_restart content stackContent pre oldCodeBlock rest :
  match_first yamlCodeBlock_exec content = Some (pre, oldCodeBlock, rest) ->
  startsWith rest ["`"] = false ->
  creation_pass (rev (pre ++ oldCodeBlock)) rest stackContent
  = processYamlCodeBlocks rest stackContent.
Proof.
  intros Hm Hrest.
  apply match_first_from_spec in Hm as (u & caps & _ & _ & He & _);
    [|intros b' x caps r (m & ->)%yamlCodeBlock_exec_split; eauto].
  apply yamlCodeBlock_exec_split in He as (m & ->%app_inv_tail).
  rewrite <- (scan_restart stackContent rest Hrest). unfold creation_pass.
  apply scan_context. by rewrite !rev_app_distr.
Qed.

(** The update replaces the first occurrence of the text of the
    leftmost block. *)
Lemma updatedContent_first_occurrence content stackContent pre oldCodeBlock rest :
  match_first yamlCodeBlock_exec content = Some (pre, oldCodeBlock, rest) ->
  exists pre' rest',
    content = pre' ++ oldCodeBlock ++ rest'
    /\ match_first (token_exec oldCodeBlock) content
       = Some (pre', oldCodeBlock, rest')
    /\ length pre' <= length pre
    /\ updatedContent content stackContent
       = Some (pre' ++ get_substitution oldCodeBlock pre' rest'
                         (newCodeBlock stackContent) ++ rest').
Proof.
  intros Hm. pose proof Hm as Hcontent.
  apply match_first_from_spec in Hcontent as (u & caps & Hu & Hcontent & _);
    [|intros b' x c r (m & ->)%yamlCodeBlock_exec_split; eauto].
  cbn [rev app] in Hu. subst u.
  destruct (match_first_token_exists oldCodeBlock pre rest [])
    as (pre' & rest' & Hfirst & Heq & Hlen).
  rewrite app_nil_l in Hfirst. rewrite <- Hcontent in Hfirst, Heq.
  exists pre', rest'. split; [exact Heq|]. split; [exact Hfirst|].
  split; [exact Hlen|].
  unfold updatedContent. rewrite Hm. f_equal. unfold replace_first.
  apply match_first_from_spec in Hfirst as (u & c & Hu & _ & _ & Hmiss);
    [|intros b' x c r ->%token_exec_Some; eauto].
  rewrite app_nil_l in Hu. subst u. rewrite Heq.
  rewrite replace_first_from_spec; [by rewrite !app_nil_l|].
  intros u1 u2 Hu Hu2. apply (token_exec_None _ (rev u1 ++ [])).
  by apply Hmiss.
Qed.




(** C4, as amended. The fenced-block rule is idempotent for every
    template and every stack content whose trimmed text holds no
    closing fence (a line feed and three backquotes): applying the rule
    to its own output, with the same content, gives the same text. *)
Theorem fenced_rule_idempotent (template stackContent : list ascii) :
  includes (trim stackContent) closing_fence = false ->
  processYamlCodeBlocks (processYamlCodeBlocks template stackContent)
    stackContent
  = processYamlCodeBlocks template stackContent.
Proof. intros H. by apply scan_idempotent. Qed.

Lemma fenced_rule_idempotent_witness :
  processYamlCodeBlocks
    (processYamlCodeBlocks Sample.two_blocks (str "services: {}"))
    (str "services: {}")
  = processYamlCodeBlocks Sample.two_blocks (str "services: {}").
Proof. apply fenced_rule_idempotent. vm_compute. reflexivity. Defined.

(** C4 as stated fails: a content with a fence line of its own is cut
    at that line by the second application. *)
Lemma fenced_rule_not_idempotent :
  processYamlCodeBlocks
    (processYamlCodeBlocks Sample.one_block Sample.fenced_content)
    Sample.fenced_content
  <> processYamlCodeBlocks Sample.one_block Sample.fenced_content.
Proof. vm_compute. discriminate. Qed.

(** ** The name of a stack *)

(** C8. The name of a stack is the last segment of the path once
    [/compose.yaml] is taken out, and the sentinel when that segment is
    empty. The code takes out the first [/compose.yaml] of the path, a
    slash included: a compose file at the top level keeps its file name
    as stack name, and so does a file whose name is not exactly
    [compose.yaml]; the sentinel is reached only by a path that ends in
    a slash once stripped. *)
Theorem stack_name_at_top_level :
  stack_name (str "compose.yaml") = str "compose.yaml"
  /\ stack_name (str "web/docker-compose.yaml") = str "docker-compose.yaml"
  /\ stack_name (str "web/compose.yaml") = str "web"
  /\ stack_name (str "/compose.yaml") = str "__unknown__".
Proof. repeat split; vm_compute; reflexivity. Qed.

(** ** File names *)

Section SplitFacts.
Variable cls : ascii -> bool.

Lemma split_runs_word w : forall in_run cur x,
  Forall (fun c => cls c = false) w ->
  split_runs_from cls in_run cur (w ++ x)
  = split_runs_from cls (match w with [] => in_run | _ => false end)
      (rev w ++ cur) x.
Proof using Type.
  induction w as [|c w IH]; intros in_run cur x Hw; [done|].
  apply Forall_cons in Hw as [Hc Hw].
  simpl app. cbn [split_runs_from]. rewrite Hc, IH by done.
  cbn [rev]. rewrite <- app_assoc. by destruct w.
Qed.

Lemma split_runs_run sp : forall x,
  Forall (fun c => cls c = true) sp ->
  split_runs_from cls true [] (sp ++ x) = split_runs_from cls true [] x.
Proof using Type.
  induction sp as [|c sp IH]; intros x Hsp; [done|].
  apply Forall_cons in Hsp as [Hc Hsp].
  simpl app. cbn [split_runs_from]. by rewrite Hc, IH.
Qed.

Lemma split_runs_first_run sp cur x :
  sp <> [] -> Forall (fun c => cls c = true) sp ->
  split_runs_from cls false cur (sp ++ x)
  = rev cur :: split_runs_from cls true [] x.
Proof using Type.
  intros Hne Hsp. destruct sp as [|c sp]; [done|].
  apply Forall_cons in Hsp as [Hc Hsp].
  simpl app. cbn [split_runs_from]. by rewrite Hc, split_runs_run.
Qed.
End SplitFacts.

(** Splitting on the runs of separators gives back the words. *)
Lemma split_runs_spell rest : forall in_run cur w0,
  is_word w0 -> well_split rest ->
  (in_run = true -> cur = []) ->
  (rest <> [] -> in_run = true -> w0 <> []) ->
  split_runs_from is_name_separator in_run cur (spell w0 rest)
  = (rev cur ++ w0) :: map snd rest.
Proof.
  unfold spell.
  induction rest as [|[sp w] rest IH]; intros in_run cur w0 Hw0 Hrest Hcur Hne.
  - cbn [map concat]. rewrite split_runs_word by done.
    cbn [split_runs_from]. by rewrite rev_app_distr, rev_involutive.
  - destruct Hrest as ((Hsp & Hrun) & Hw & Hw' & Hrest).
    cbn [map concat fst snd]. rewrite split_runs_word by done.
    assert (match w0 with [] => in_run | _ :: _ => false end = false) as ->.
    { destruct w0; [|done]. destruct in_run; [|done]. by destruct Hne. }
    rewrite <- !app_assoc, split_runs_first_run by done.
    rewrite rev_app_distr, rev_involutive. f_equal.
    by rewrite (IH true [] w) by auto.
Qed.

Section ReplaceExt.
Context {C : Type}.
Variable exec : list ascii -> list ascii -> option (C * list ascii).

(** The replacement depends on the replacer only through its
    answers. *)
Lemma replace_matches_ext r1 r2 s : forall skip b,
  (forall m c x y, r1 m c x y = r2 m c x y) ->
  replace_matches exec r1 skip b s = replace_matches exec r2 skip b s.
Proof using Type.
  induction s as [|c s IH]; intros skip b H; [done|].
  cbn [replace_matches]. destruct skip as [|n]; [|by apply IH].
  destruct (exec b (c :: s)) as [[caps rest]|].
  - by rewrite H, IH.
  - by rewrite IH.
Qed.
End ReplaceExt.

Lemma processDateVariables_ext rt rt' template :
  same_answers rt rt' ->
  processDateVariables rt template = processDateVariables rt' template.
Proof.
  intros (_ & _ & Hf & Hd). unfold processDateVariables, replace_global.
  rewrite Hd. f_equal. apply replace_matches_ext.
  intros m c x y. by rewrite Hf.
Qed.

Lemma capitalizeStackName_ext rt rt' stackName :
  same_answers rt rt' ->
  capitalizeStackName rt stackName = capitalizeStackName rt' stackName.
Proof.
  intros (Hu & Hl & _ & _). unfold capitalizeStackName. f_equal.
  apply map_ext. intros w. by rewrite Hu, Hl.
Qed.

(** Every name is a first word and runs of separators, each with the
    word after it. *)
Lemma spell_exists (stackName : list ascii) :
  exists w0 rest,
    is_word w0 /\ well_split rest /\ stackName = spell w0 rest.
Proof.
  induction stackName as [|c s (w0 & rest & Hw0 & Hrest & ->)].
  - exists [], []. split; [constructor|]. by split.
  - destruct (is_name_separator c) eqn:Hc.
    + destruct w0 as [|x w0].
      * destruct rest as [|[sp w] rest].
        -- exists [], [([c], [])]. split; [constructor|]. split; [|done].
           split; [|split; [constructor|done]].
           split; [done|by constructor].
        -- destruct Hrest as ([Hne Hsp] & Hw & Hlast & Hrest).
           exists [], ((c :: sp, w) :: rest). split; [constructor|].
           split; [|done]. split; [|done]. split; [done|by constructor].
      * exists [], (([c], x :: w0) :: rest). split; [constructor|].
        split; [|done]. split; [split; [done|by constructor]|].
        split; [done|]. by split.
    + exists (c :: w0), rest. split; [by constructor|]. by split.
Qed.

Lemma processDateVariables_nil rt : processDateVariables rt [] = [].
Proof. done. Qed.

(** The file name, piece by piece. *)
Lemma generateFileName_pieces rt settings stackName :
  generateFileName rt settings stackName
  = processDateVariables rt (fileNamePrefix settings)
    ++ capitalizeStackName rt stackName
    ++ processDateVariables rt (fileNameSuffix settings) ++ str ".md".
Proof.
  unfold generateFileName.
  assert (forall l, (if truthy l then processDateVariables rt l else [])
                    = processDateVariables rt l) as Hdate
    by (by intros [|c l]).
  rewrite !Hdate.
  destruct (processDateVariables rt (fileNamePrefix settings)) as [|p prefix];
    destruct (processDateVariables rt (fileNameSuffix settings))
      as [|x suffix]; cbn [truthy app];
    by rewrite <- ?app_assoc, ?app_nil_r.
Qed.



(** ** The generation adapter *)

(** C7. Without a credential the description is the placeholder and
    the tags are empty, and the world is left as it was: no request is
    sent. When the call fails the same values are returned. Neither
    operation ever ends with an exception. *)
Theorem generation_falls_back
    (rt : Runtime) (settings : DockerToObsiSettings)
    (stack : DockerStackFile) (w : World) :
  (trim (openaiApiKey settings) = [] ->
     generateStackDescription rt settings stack w
     = (Returned (str "Write description here"), w)
     /\ generateStackTags rt settings stack w = (Returned [], w))
  /\ (forall e,
        generateText rt (trim (openaiApiKey settings)) (name stack) = Raised e ->
        fst (generateStackDescription rt settings stack w)
        = Returned (str "Write description here"))
  /\ (forall e,
        generateObject rt (trim (openaiApiKey settings)) (name stack)
        = Raised e ->
        fst (generateStackTags rt settings stack w) = Returned [])
  /\ (forall e, fst (generateStackDescription rt settings stack w) <> Raised e)
  /\ (forall e, fst (generateStackTags rt settings stack w) <> Raised e).
Proof.
  unfold generateStackDescription, generateStackTags, try_catch, bind, send,
    await, ret.
  split; [|split; [|split; [|split]]].
  - by intros ->.
  - intros e He. destruct (trim (openaiApiKey settings)); [done|].
    simpl. by rewrite He.
  - intros e He. destruct (trim (openaiApiKey settings)); [done|].
    simpl. by rewrite He.
  - intros e. destruct (trim (openaiApiKey settings)); [done|].
    simpl. by destruct (generateText rt _ _).
  - intros e. destruct (trim (openaiApiKey settings)); [done|].
    simpl. by destruct (generateObject rt _ _).
Qed.

Lemma generation_falls_back_witness :
  generateStackDescription Sample.runtime DEFAULT_SETTINGS
    (Sample.stack "web" "services: {}") (Sample.world [])
  = (Returned (str "Write description here"), Sample.world [])
  /\ generateStackTags Sample.runtime DEFAULT_SETTINGS
       (Sample.stack "web" "services: {}") (Sample.world [])
     = (Returned [], Sample.world []).
Proof.
  apply (generation_falls_back Sample.runtime DEFAULT_SETTINGS
           (Sample.stack "web" "services: {}") (Sample.world [])).
  reflexivity.
Defined.

(** ** Rendering a template *)

Lemma replace_token_none tok repl s :
  includes s tok = false -> replace_token tok repl s = s.
Proof.
  intros H. unfold replace_token, replace_global.
  apply replace_matches_none. intros u v ->.
  apply token_exec_None, strip_prefix_None. intros r ->.
  rewrite includes_false in H. by apply (H u r).
Qed.

Lemma dateFormatRegex_None s :
  strip_prefix (str "{{date:") s = None -> dateFormatRegex s = None.
Proof. unfold dateFormatRegex. rewrite lit_bind. by intros ->. Qed.

(** A text without a date placeholder goes through the date step
    unchanged. *)
Lemma processDateVariables_none rt s :
  includes s (str "{{date") = false -> processDateVariables rt s = s.
Proof.
  intros H. unfold processDateVariables.
  assert (replace_global (fun _ x => dateFormatRegex x)
            (fun _ fmt _ _ =>
               match format rt fmt with
               | Some d => d
               | None => default_date rt
               end) s = s) as ->.
  { apply replace_matches_none. intros u v ->.
    apply dateFormatRegex_None, strip_prefix_None. intros r ->.
    apply (includes_false_longer _ _ [":"]) in H.
    rewrite includes_false in H. by apply (H u r). }
  apply replace_token_none.
  by apply (includes_false_longer _ _ (str "}}")) in H.
Qed.


(** ** The content of a stack in a rendered template *)

Lemma includes_tail c s p : includes (c :: s) p = false -> includes s p = false.
Proof. cbn [includes]. by destruct (strip_prefix p (c :: s)). Qed.

Lemma has_dollar_pattern_tail c s :
  has_dollar_pattern (c :: s) = false -> has_dollar_pattern s = false.
Proof.
  unfold has_dollar_pattern. rewrite !orb_false_iff.
  intros [[[H1 H2] H3] H4]. by rewrite !(includes_tail c s).
Qed.

(** A replacement string without a dollar pattern stands for itself. *)
Lemma get_substitution_no_pattern matched before after repl :
  has_dollar_pattern repl = false ->
  get_substitution matched before after repl = repl.
Proof.
  induction repl as [|c r IH]; intros H; [done|].
  cbn [get_substitution]. rewrite IH by (by apply (has_dollar_pattern_tail c)).
  destruct (Ascii.eqb_spec c "$") as [->|_]; [|done].
  destruct r as [|d r]; [done|].
  unfold has_dollar_pattern in H. rewrite !orb_false_iff in H.
  destruct H as [[[H1 H2] H3] H4].
  destruct (Ascii.eqb_spec d "$") as [->|_]; [done|].
  destruct (Ascii.eqb_spec d "&") as [->|_]; [done|].
  destruct (Ascii.eqb_spec d "`") as [->|_]; [done|].
  by destruct (Ascii.eqb_spec d "'") as [->|_].
Qed.

Lemma ends_with_start_of_intro tok c1 c2 l :
  c2 <> [] -> l <> [] -> tok = c2 ++ l ->
  ends_with_start_of tok (c1 ++ c2) = true.
Proof.
  intros Hc Hl ->. induction c1 as [|x c1 IH].
  - destruct c2 as [|x c2]; [done|]. rewrite app_nil_l.
    cbn [ends_with_start_of]. rewrite strip_prefix_app. by destruct l.
  - cbn [app ends_with_start_of]. rewrite IH.
    by destruct (strip_prefix _ _) as [[|? ?]|].
Qed.

Lemma startsWith_app_l s r : startsWith (s ++ r) s = true.
Proof. unfold startsWith. by rewrite strip_prefix_app. Qed.

Lemma starts_with_end_of_cons x tok c :
  tok <> [] ->
  starts_with_end_of (x :: tok) c
  = startsWith c tok || starts_with_end_of tok c.
Proof. by destruct tok. Qed.

Lemma starts_with_end_of_intro tok x2 l k :
  x2 <> [] -> l <> [] -> tok = x2 ++ l ->
  starts_with_end_of tok (l ++ k) = true.
Proof.
  intros Hx Hl ->. induction x2 as [|x x2 IH]; [done|].
  cbn [app]. rewrite starts_with_end_of_cons
    by (by intros [_ ?]%app_eq_nil).
  destruct x2 as [|x' x2].
  - by rewrite app_nil_l, startsWith_app_l.
  - rewrite IH by done. by rewrite orb_true_r.
Qed.

Lemma ends_in_date_placeholder_intro x1 x2 :
  x2 <> [] -> in_date_placeholder x2 = true ->
  ends_in_date_placeholder (x1 ++ x2) = true.
Proof.
  intros Hx H. induction x1 as [|c x1 IH].
  - destruct x2 as [|c x2]; [done|]. rewrite app_nil_l.
    cbn [ends_in_date_placeholder]. by rewrite H.
  - cbn [app ends_in_date_placeholder]. by rewrite IH, orb_true_r.
Qed.

Lemma not_elem_of_removelast (c : ascii) (l : list ascii) :
  c ∉ l -> c ∉ removelast l.
Proof.
  induction l as [|x l IH]; [done|].
  intros [Hx Hl]%not_elem_of_cons. cbn [removelast].
  destruct l as [|y l]; [apply not_elem_of_nil|].
  apply not_elem_of_cons. split; [done|]. by apply IH.
Qed.

(** A beginning of a date with a format, cut before its end. *)
Lemma in_date_placeholder_intro w x2 l :
  "}" ∉ w -> l <> [] ->
  str "{{date:" ++ w ++ str "}}" = x2 ++ l ->
  in_date_placeholder x2 = true.
Proof.
  intros Hw Hl H. unfold in_date_placeholder.
  apply app_eq_app in H as [k [[Hhead _]|[-> Hk]]].
  - destruct (strip_prefix (str "{{date:") x2) as [r|] eqn:E.
    + apply strip_prefix_Some in E. rewrite E, <- app_assoc in Hhead.
      rewrite <- (app_nil_r (str "{{date:")) in Hhead at 1.
      apply app_inv_head in Hhead. symmetry in Hhead.
      apply app_eq_nil in Hhead as [-> _]. cbn [removelast].
      apply negb_true_iff, includes_char_false, not_elem_of_nil.
    + apply strip_prefix_Some in Hhead. by rewrite Hhead.
  - rewrite strip_prefix_app. apply negb_true_iff, includes_char_false.
    apply app_eq_app in Hk as [k' [[-> _]|[-> Hk]]].
    + apply not_elem_of_removelast. apply not_elem_of_app in Hw. tauto.
    + destruct k' as [|k1 [|k2 k']].
      * rewrite app_nil_r. by apply not_elem_of_removelast.
      * injection Hk as <- _.
        by rewrite removelast_app, app_nil_r.
      * injection Hk as _ _ Hk. symmetry in Hk.
        by apply app_eq_nil in Hk as [_ ->].
Qed.

Lemma placeholder_safe_spec piece :
  placeholder_safe piece = true ->
  includes piece (str "{{date:") = false
  /\ ends_with_start_of (str "{{date:") piece = false
  /\ forall tok, tok ∈ placeholders ->
       includes piece tok = false
       /\ ends_with_start_of tok piece = false
       /\ starts_with_end_of tok piece = false
       /\ includes tok piece = false.
Proof.
  unfold placeholder_safe. rewrite !andb_true_iff, !negb_true_iff.
  intros [[H1 H2] H3]. split; [done|]. split; [done|].
  intros tok Htok%list_elem_of_In. rewrite forallb_forall in H3.
  specialize (H3 tok Htok).
  rewrite !andb_true_iff, !negb_true_iff in H3. tauto.
Qed.

Section Piece.
Context {Cap : Type}.
Variable exec : list ascii -> list ascii -> option (Cap * list ascii).
Variable replacer :
  list ascii -> Cap -> list ascii -> list ascii -> list ascii.
Variable piece : list ascii.

Local Abbreviation pass := (replace_matches exec replacer 0).

(** A pass keeps a piece of the text in its place when no match
    reaches into it. *)
Lemma pass_keeps_piece X : forall b Y,
  (forall b' s caps rest, exec b' s = Some (caps, rest) ->
     exists m, m <> [] /\ s = m ++ rest) ->
  (forall X1 X2 caps rest, X = X1 ++ X2 -> X2 <> [] ->
     exec (rev X1 ++ b) (X2 ++ piece ++ Y) = Some (caps, rest) ->
     exists X3, rest = X3 ++ piece ++ Y) ->
  (forall C1 C2, piece = C1 ++ C2 -> C2 <> [] ->
     exec (rev C1 ++ rev X ++ b) (C2 ++ Y) = None) ->
  exists X' Y', pass b (X ++ piece ++ Y) = X' ++ piece ++ Y'.
Proof using Type.
  induction X as [X IH] using (induction_ltof1 _ (@length _)).
  unfold ltof in IH. intros b Y Hsound Hx Hc.
  destruct X as [|c X0].
  - exists [], (pass (rev piece ++ b) Y). rewrite !app_nil_l.
    apply replace_matches_prefix_miss. intros u1 u2 Hu Hne.
    by apply (Hc u1 u2).
  - destruct (exec b ((c :: X0) ++ piece ++ Y)) as [[caps rest]|] eqn:E.
    + destruct (Hx [] (c :: X0) caps rest eq_refl ltac:(done) E)
        as [X3 ->].
      destruct (Hsound _ _ _ _ E) as (m & Hm & Heq).
      assert (c :: X0 = m ++ X3) as HX.
      { apply (app_inv_tail (piece ++ Y)). by rewrite <- app_assoc. }
      rewrite Heq in E |- *.
      rewrite (replace_matches_hit _ _ b m caps) by done.
      destruct (IH X3) with (b := rev m ++ b) (Y := Y)
        as (X' & Y' & ->).
      * rewrite HX, length_app. destruct m; [done|]. simpl. lia.
      * done.
      * intros X1 X2 caps' rest' -> HX2 He.
        apply (Hx (m ++ X1) X2 caps' rest'); [|done|].
        -- by rewrite HX, <- app_assoc.
        -- by rewrite rev_app_distr, <- app_assoc.
      * intros C1 C2 HC HC2.
        specialize (Hc C1 C2 HC HC2).
        by rewrite HX, rev_app_distr, <- app_assoc in Hc.
      * eexists (_ ++ X'), Y'. by rewrite <- app_assoc.
    + rewrite <- app_comm_cons, replace_matches_miss by done.
      destruct (IH X0) with (b := c :: b) (Y := Y) as (X' & Y' & ->).
      * simpl. lia.
      * done.
      * intros X1 X2 caps rest -> HX2 He.
        apply (Hx (c :: X1) X2 caps rest); [done|done|].
        cbn [rev]. by rewrite <- app_assoc.
      * intros C1 C2 HC HC2. specialize (Hc C1 C2 HC HC2).
        cbn [rev] in Hc. by rewrite <- !app_assoc in Hc.
      * by exists (c :: X'), Y'.
Qed.
End Piece.

Section SafeContent.
Variable piece : list ascii.

(** The step of a placeholder keeps the piece, whatever stands
    around it. *)
Lemma replace_token_keeps_piece (tok repl : list ascii) X Y :
  tok <> [] ->
  includes piece tok = false ->
  ends_with_start_of tok piece = false ->
  starts_with_end_of tok piece = false ->
  includes tok piece = false ->
  exists X' Y',
    replace_token tok repl (X ++ piece ++ Y) = X' ++ piece ++ Y'.
Proof using Type.
  intros Htok Hin Hend Hstart Hpiece. unfold replace_token, replace_global.
  apply pass_keeps_piece.
  - intros b' s caps rest ->%token_exec_Some. by exists tok.
  - intros X1 X2 caps rest _ HX2 He%token_exec_Some.
    apply app_eq_app in He as [l [[_ ->]|[Htok' Hl]]]; [by exists l|].
    destruct l as [|l1 l]; [exists []; by rewrite Hl|].
    exfalso. apply app_eq_app in Hl as [k [[Hp _]|[Hl _]]].
    + rewrite Hp in Hstart.
      by rewrite (starts_with_end_of_intro tok X2 (l1 :: l) k) in Hstart.
    + rewrite includes_false in Hpiece. apply (Hpiece X2 k).
      by rewrite Htok', Hl.
  - intros C1 C2 HC HC2.
    apply token_exec_None, strip_prefix_None. intros r Hr.
    apply app_eq_app in Hr as [l [[HC2' _]|[Htok' _]]].
    + rewrite includes_false in Hin. apply (Hin C1 l).
      by rewrite HC, HC2'.
    + destruct l as [|l1 l].
      * rewrite app_nil_r in Htok'. rewrite includes_false in Hin.
        apply (Hin C1 []). by rewrite HC, Htok', app_nil_r.
      * rewrite HC in Hend.
        by rewrite (ends_with_start_of_intro tok C1 C2 (l1 :: l)) in Hend.
Qed.

(** The matches of the pattern of a date with a format. *)
Lemma dateFormatRegex_shape s fmt rest :
  dateFormatRegex s = Some (fmt, rest) ->
  exists w, ("}" ∉ w)
            /\ s = (str "{{date:" ++ w ++ str "}}") ++ rest.
Proof using Type.
  unfold dateFormatRegex. rewrite lit_bind.
  destruct (strip_prefix (str "{{date:") s) as [s1|] eqn:E1; [|done].
  apply strip_prefix_Some in E1 as ->. cbn [mbind option_bind].
  unfold plus_greedy. destruct s1 as [|c s1]; [done|].
  destruct (negb (c =? "}")) eqn:Hc; [|done].
  assert (forall (k : list ascii -> option (list ascii * list ascii)) t r,
            star_greedy (fun c => negb (c =? "}")) t k = Some r ->
            exists u v, t = u ++ v /\ ("}" ∉ u) /\ k v = Some r) as Hstar.
  { intros k t. induction t as [|x t IH]; intros r H.
    - exists [], []. split; [done|]. split; [apply not_elem_of_nil|done].
    - cbn [star_greedy] in H. destruct (negb (x =? "}")) eqn:Hx.
      + destruct (star_greedy _ t k) as [r'|] eqn:Ht.
        * injection H as <-. destruct (IH r' eq_refl) as (u & v & -> & Hu & Hk).
          exists (x :: u), v. split; [done|]. split; [|done].
          apply not_elem_of_cons. split; [|done].
          apply negb_true_iff in Hx. by apply Ascii.eqb_neq in Hx.
        * exists [], (x :: t). split; [done|].
          split; [apply not_elem_of_nil|done].
      + exists [], (x :: t). split; [done|].
        split; [apply not_elem_of_nil|done]. }
  intros (u & v & -> & Hu & Hk)%Hstar.
  rewrite lit_bind in Hk.
  destruct (strip_prefix (str "}}") v) as [s3|] eqn:E3; [|done].
  apply strip_prefix_Some in E3 as ->. cbn [mbind option_bind] in Hk.
  injection Hk as _ <-.
  exists (c :: u). split.
  - apply not_elem_of_cons. split; [|done].
    apply negb_true_iff in Hc. intros <-. by rewrite Ascii.eqb_refl in Hc.
  - by rewrite <- !app_assoc.
Qed.

Hypothesis Hsafe : placeholder_safe piece = true.

(** The date steps keep the piece, when the text before it does not
    end inside a date with a format. *)
Lemma processDateVariables_keeps_piece rt X Y :
  ends_in_date_placeholder X = false ->
  exists X' Y', processDateVariables rt (X ++ piece ++ Y) = X' ++ piece ++ Y'.
Proof using Hsafe.
  intros Hopen.
  destruct (placeholder_safe_spec piece Hsafe) as (P1 & P2 & P3).
  unfold processDateVariables, replace_global.
  destruct (pass_keeps_piece
              (fun _ s => dateFormatRegex s)
              (fun _ fmt _ _ => match format rt fmt with
                                | Some d => d
                                | None => default_date rt
                                end) piece X [] Y)
    as (X1 & Y1 & ->).
  - intros b s caps rest (w & _ & ->)%dateFormatRegex_shape.
    by exists (str "{{date:" ++ w ++ str "}}").
  - intros X1 X2 caps rest -> HX2 (w & Hw & He)%dateFormatRegex_shape.
    apply app_eq_app in He as [l [[_ ->]|[HM Hl]]]; [by exists l|].
    destruct l as [|l1 l]; [exists []; by rewrite Hl|].
    exfalso.
    rewrite (ends_in_date_placeholder_intro X1 X2) in Hopen; [done|done|].
    by apply (in_date_placeholder_intro w X2 (l1 :: l)).
  - intros C1 C2 HC HC2.
    destruct (dateFormatRegex (C2 ++ Y)) as [[fmt rest]|] eqn:He; [|done].
    exfalso. apply dateFormatRegex_shape in He as (w & _ & He).
    rewrite <- !app_assoc in He.
    apply app_eq_app in He as [l [[HC2' _]|[Hhead _]]].
    + rewrite includes_false in P1. apply (P1 C1 l).
      by rewrite HC, HC2'.
    + destruct l as [|l1 l].
      * rewrite app_nil_r in Hhead. rewrite includes_false in P1.
        apply (P1 C1 []). by rewrite HC, Hhead, app_nil_r.
      * rewrite HC in P2.
        by rewrite (ends_with_start_of_intro (str "{{date:") C1 C2
                      (l1 :: l)) in P2.
  - destruct (P3 (str "{{date}}")) as (Q1 & Q2 & Q3 & Q4);
      [unfold placeholders; set_solver|].
    by apply replace_token_keeps_piece.
Qed.

(** The date, name and about steps keep the piece. *)
Lemma later_steps_keep_piece rt name description X Y :
  ends_in_date_placeholder X = false ->
  exists a b,
    replace_token (str "{{about}}") description
      (replace_token (str "{{stackName}}") name
         (processDateVariables rt (X ++ piece ++ Y)))
    = a ++ piece ++ b.
Proof using Hsafe.
  intros HX.
  destruct (placeholder_safe_spec piece Hsafe) as (_ & _ & P3).
  destruct (processDateVariables_keeps_piece rt X Y HX) as (X1 & Y1 & ->).
  destruct (P3 (str "{{stackName}}")) as (Q1 & Q2 & Q3 & Q4);
    [unfold placeholders; set_solver|].
  destruct (replace_token_keeps_piece (str "{{stackName}}") name X1 Y1)
    as (X2 & Y2 & ->); [done..|].
  destruct (P3 (str "{{about}}")) as (R1 & R2 & R3 & R4);
    [unfold placeholders; set_solver|].
  by apply replace_token_keeps_piece.
Qed.
End SafeContent.

(** The first token gives way to the replacement; the pass goes on
    after it. *)
Lemma replace_token_first_occurrence tok repl template pre post :
  tok <> [] ->
  match_first (token_exec tok) template = Some (pre, tok, post) ->
  replace_token tok repl template
  = pre ++ get_substitution tok pre post repl
        ++ replace_matches (token_exec tok)
             (fun matched _ before after =>
                get_substitution matched before after repl)
             0 (rev tok ++ rev pre) post.
Proof.
  intros Htok Hm.
  apply match_first_from_spec in Hm as (u & caps & Hu & -> & He & Hmiss);
    [|intros b' x c r ->%token_exec_Some; eauto].
  cbn [rev app] in Hu. subst u. unfold replace_token, replace_global.
  rewrite replace_matches_prefix_miss by done. f_equal.
  rewrite (replace_matches_hit _ _ _ tok caps post) by done.
  by rewrite !app_nil_r, rev_involutive.
Qed.

(** ** The generated description *)

Section CreateFacts.
Variable rt : Runtime.
Variable settings : DockerToObsiSettings.
Hypothesis Hresponsive : responsive rt.

Lemma generateStackDescription_returns stack w :
  exists d w', generateStackDescription rt settings stack w = (Returned d, w')
               /\ vault w' = vault w.
Proof using Hresponsive.
  destruct Hresponsive as [Htext _].
  unfold generateStackDescription, try_catch, bind, send, await, ret.
  destruct (trim (openaiApiKey settings)) as [|c k]; simpl; [by eexists _, _|].
  specialize (Htext (c :: k) (name stack)).
  destruct (generateText rt (c :: k) (name stack)); try done;
    by eexists _, _.
Qed.

Lemma generateStackTags_returns stack w :
  exists tags w', generateStackTags rt settings stack w = (Returned tags, w')
                  /\ vault w' = vault w.
Proof using Hresponsive.
  destruct Hresponsive as [_ Hobject].
  unfold generateStackTags, try_catch, bind, send, await, ret.
  destruct (trim (openaiApiKey settings)) as [|c k]; simpl; [by eexists _, _|].
  specialize (Hobject (c :: k) (name stack)).
  destruct (generateObject rt (c :: k) (name stack)); try done;
    by eexists _, _.
Qed.

Lemma processTemplate_returns template stack w :
  exists text w', processTemplate rt settings template stack w
                  = (Returned text, w')
                  /\ vault w' = vault w.
Proof using Hresponsive.
  unfold processTemplate, bind.
  destruct (includes _ (str "{{about}}") && useAI settings).
  - destruct (generateStackDescription_returns stack w) as (d & w' & -> & Hv).
    by eexists _, _.
  - by eexists _, _.
Qed.
End CreateFacts.




(** ** The vault *)

Section VaultFacts.
Implicit Types v : list AbstractFile.

Lemma find_path_Some v p a :
  List.find (fun x => bool_decide (abstract_path x = p)) v = Some a ->
  a ∈ v /\ abstract_path a = p.
Proof.
  intros H. apply find_some in H as [Hin Hp].
  split; [by apply list_elem_of_In|by apply bool_decide_eq_true in Hp].
Qed.

Lemma find_path_None v p :
  List.find (fun x => bool_decide (abstract_path x = p)) v = None ->
  forall a, a ∈ v -> abstract_path a <> p.
Proof.
  intros H a Hin Hp. apply list_elem_of_In in Hin.
  apply (find_none _ _ H) in Hin. by apply bool_decide_eq_false in Hin.
Qed.

(** With unique paths, looking an entry up by its path finds it. *)
Lemma find_path_unique v a :
  NoDup (abstract_path <$> v) -> a ∈ v ->
  List.find (fun x => bool_decide (abstract_path x = abstract_path a)) v
  = Some a.
Proof.
  induction v as [|x v IH]; intros Hnd Hin; [by apply elem_of_nil in Hin|].
  rewrite fmap_cons in Hnd. apply NoDup_cons in Hnd as [Hx Hnd]. simpl.
  apply elem_of_cons in Hin as [->|Hin].
  - by rewrite bool_decide_eq_true_2.
  - rewrite bool_decide_eq_false_2; [by apply IH|].
    intros Heq. apply Hx. rewrite Heq. by apply list_elem_of_fmap_2.
Qed.

Lemma getAbstractFileByPath_run p w :
  getAbstractFileByPath p w
  = (Returned (List.find (fun x => bool_decide (abstract_path x = p))
                 (vault w)), w).
Proof. done. Qed.

Lemma getFrontmatter_run w f :
  unique_paths (vault w) = true -> File f ∈ vault w ->
  getFrontmatter (path f) w
  = (match frontmatter f with
     | Some fm => Returned fm
     | None => Raised HostError
     end, w).
Proof.
  intros Hu%bool_decide_eq_true Hin. unfold getFrontmatter, bind.
  rewrite getAbstractFileByPath_run.
  rewrite (find_path_unique _ (File f)) by done.
  by destruct (frontmatter f).
Qed.

Lemma vault_read_run w f :
  unique_paths (vault w) = true -> File f ∈ vault w ->
  vault_read f w = (Returned (data f), w).
Proof.
  intros Hu%bool_decide_eq_true Hin. unfold vault_read, bind.
  rewrite getAbstractFileByPath_run.
  by rewrite (find_path_unique _ (File f)) by done.
Qed.

Lemma getMarkdownFiles_run settings w :
  getMarkdownFiles settings w = (Returned (candidates settings (vault w)), w).
Proof.
  unfold getMarkdownFiles, candidates, bind, vault_getMarkdownFiles,
    get_vault, ret.
  destruct (truthy (trim (folderPath settings))); simpl; [done|].
  f_equal. f_equal. induction (omap _ (vault w)) as [|x l IH]; [done|].
  simpl. by rewrite <- IH.
Qed.

Lemma candidates_in_vault settings v f :
  f ∈ candidates settings v -> File f ∈ v.
Proof.
  unfold candidates. rewrite list_elem_of_In, filter_In.
  intros [Hin _]. apply list_elem_of_In, list_elem_of_omap in Hin
    as (a & Ha & Hf).
  destruct a as [g|]; [|done].
  destruct (endsWith (path g) (str ".md")); [|done]. by injection Hf as ->.
Qed.
End VaultFacts.

(** ** Missing stacks *)

Section MissingFacts.
Variable settings : DockerToObsiSettings.

Lemma collect_name_run w f acc :
  unique_paths (vault w) = true -> File f ∈ vault w ->
  collect_name settings acc f w
  = (Returned (match key_value settings f with
               | Some s => if truthy s then {[ s ]} ∪ acc else acc
               | None => acc
               end), w).
Proof using Type.
  intros Hu Hin. unfold collect_name, try_catch, bind, key_value.
  rewrite getFrontmatter_run by done.
  destruct (frontmatter f) as [fm|]; [|done].
  destruct (fm !! frontmatterProperty settings) as [[s|l]|]; try done.
  by destruct (truthy s).
Qed.

(** The set built by [findMissingStacks]: the values at the key, the
    empty string left out. *)
Lemma collect_names_run w files : forall acc,
  unique_paths (vault w) = true ->
  (forall f, f ∈ files -> File f ∈ vault w) ->
  exists existing : gset (list ascii),
    foldM (collect_name settings) acc files w = (Returned existing, w)
    /\ forall x, x ∈ existing
         <-> x ∈ acc \/ (x <> [] /\ x ∈ frontmatter_values settings files).
Proof using Type.
  induction files as [|f files IH]; intros acc Hu Hin.
  - exists acc. split; [done|]. intros x. unfold frontmatter_values.
    simpl. set_solver.
  - cbn [foldM]. unfold bind at 1.
    rewrite collect_name_run by (try apply Hin; set_solver).
    destruct (IH (match key_value settings f with
                  | Some s => if truthy s then {[ s ]} ∪ acc else acc
                  | None => acc
                  end) Hu) as (existing & -> & Hex).
    { intros g Hg. apply Hin. set_solver. }
    exists existing. split; [done|]. intros x. rewrite Hex.
    unfold frontmatter_values. cbn [omap list_omap].
    destruct (key_value settings f) as [s|]; [|done].
    rewrite list_to_set_cons.
    destruct s as [|c s]; simpl; set_solver.
Qed.

Lemma findMissingStacks_run w stacks :
  unique_paths (vault w) = true ->
  exists existing : gset (list ascii),
    findMissingStacks settings stacks w
    = (Returned (List.filter
                   (fun stack => negb (bool_decide (name stack ∈ existing)))
                   stacks), w)
    /\ forall x, x ∈ existing
         <-> x <> []
             /\ x ∈ frontmatter_values settings
                      (candidates settings (vault w)).
Proof using Type.
  intros Hu. unfold findMissingStacks, bind.
  rewrite getMarkdownFiles_run.
  destruct (collect_names_run w (candidates settings (vault w)) ∅ Hu)
    as (existing & -> & Hex).
  { intros f. apply candidates_in_vault. }
  exists existing. split; [done|]. intros x. rewrite Hex. set_solver.
Qed.
End MissingFacts.

Lemma stack_name_nonempty p : stack_name p <> [].
Proof.
  unfold stack_name.
  destruct (pop _) as [[|c seg]|]; done.
Qed.

(** [Promise.all] is fulfilled exactly when every promise is, with the
    values in their order; it is rejected as soon as one promise is. *)
Lemma promise_all_Returned {A} (l : list (outcome A)) vs :
  promise_all l = Returned vs <-> Forall2 (fun o v => o = Returned v) l vs.
Proof.
  revert vs. induction l as [|o l IH]; intros vs; cbn [promise_all].
  - split; [by intros [= <-]; constructor|by intros ->%Forall2_nil_inv_l].
  - split.
    + intros H. destruct o as [a|e|]; [| |]; destruct (promise_all l) as [l'|e'|];
        try done.
      injection H as <-. constructor; [done|]. by apply IH.
    + intros (v & vs' & -> & Hl & ->)%Forall2_cons_inv_l.
      apply IH in Hl. by rewrite Hl.
Qed.

Lemma promise_all_Raised {A} (l : list (outcome A)) e :
  Raised e ∈ l -> exists e', promise_all l = Raised e' /\ Raised e' ∈ l.
Proof.
  induction l as [|o l IH]; [by intros []%elem_of_nil|].
  intros [<-|Hin]%elem_of_cons; cbn [promise_all].
  - exists e. split; [done|]. by left.
  - destruct (IH Hin) as (e' & -> & He').
    destruct o as [a|e0|].
    + exists e'. split; [done|]. by right.
    + exists e0. split; [done|]. by left.
    + exists e'. split; [done|]. by right.
Qed.

(** A fetch is rejected when the text of one listed file is, with the
    error of such a file. *)
Lemma fetchAllComposeStackFiles_Raised rt w paths path e :
  fetchComposeYamlFiles rt = Returned paths ->
  path ∈ paths ->
  fetchGithubFileContent rt path = Raised e ->
  exists e' path',
    fetchAllComposeStackFiles rt w = (Raised e', w)
    /\ path' ∈ paths
    /\ fetchGithubFileContent rt path' = Raised e'.
Proof.
  intros Hlist Hin Hpath. unfold fetchAllComposeStackFiles, bind, await.
  rewrite Hlist.
  destruct (promise_all_Raised (map (contentPromise rt) paths) e)
    as (e' & -> & (path' & He' & Hin')%list_elem_of_fmap).
  { apply list_elem_of_fmap. exists path. split; [|done].
    unfold contentPromise. by rewrite Hpath. }
  exists e', path'. split; [done|]. split; [done|].
  unfold contentPromise in He'.
  destruct (fetchGithubFileContent rt path'); congruence.
Qed.

(** The stacks of a fetch, one for each listed path. *)
Lemma fetchAllComposeStackFiles_Returned rt w stacks w' :
  fetchAllComposeStackFiles rt w = (Returned stacks, w')
  <-> exists paths,
        fetchComposeYamlFiles rt = Returned paths
        /\ Forall2 (fun path stack => contentPromise rt path = Returned stack)
             paths stacks
        /\ w' = w.
Proof.
  unfold fetchAllComposeStackFiles, bind, await.
  destruct (fetchComposeYamlFiles rt) as [paths| |]; cycle 1.
  { split; [done|]. by intros (p & ? & _). }
  { split; [done|]. by intros (p & ? & _). }
  split.
  - intros [= H <-]. exists paths. split; [done|]. split; [|done].
    apply promise_all_Returned in H. by apply Forall2_fmap_l in H.
  - intros (paths' & [= <-] & Hall & ->). f_equal.
    apply promise_all_Returned. by apply Forall2_fmap_l.
Qed.

Lemma contentPromise_Returned rt path stack :
  contentPromise rt path = Returned stack
  <-> name stack = stack_name path
      /\ fetchGithubFileContent rt path = Returned (content stack).
Proof.
  unfold contentPromise.
  destruct (fetchGithubFileContent rt path) as [c| |]; cycle 1.
  { split; [done|]. by intros [_ ?]. }
  { split; [done|]. by intros [_ ?]. }
  split.
  - by intros [= <-].
  - destruct stack as [n c']. simpl. by intros [-> [= ->]].
Qed.

Lemma fetched_names_nonempty rt w0 stacks w1 :
  fetchAllComposeStackFiles rt w0 = (Returned stacks, w1) ->
  Forall (fun stack => name stack <> []) stacks.
Proof.
  intros (paths & _ & Hall & _)%fetchAllComposeStackFiles_Returned.
  induction Hall as [|p stack paths stacks [Hn _]%contentPromise_Returned _ IH];
    constructor; [|done].
  rewrite Hn. apply stack_name_nonempty.
Qed.

(** C5. For the stacks of a fetch and the notes of a vault,
    [findMissingStacks] returns the stacks whose name is not among the
    values the candidate notes hold at the configured key, in the order
    of the fetch; stacks A, B, C and notes for A and C leave B. *)
Theorem findMissingStacks_absent_names
    (rt : Runtime) (settings : DockerToObsiSettings)
    (w0 w1 w : World) (stacks : list DockerStackFile) :
  fetchAllComposeStackFiles rt w0 = (Returned stacks, w1) ->
  unique_paths (vault w) = true ->
  findMissingStacks settings stacks w
  = (Returned
       (List.filter
          (fun stack =>
             negb (bool_decide
                     (name stack
                      ∈ frontmatter_values settings
                          (candidates settings (vault w)))))
          stacks), w)
  /\ findMissingStacks DEFAULT_SETTINGS
       [Sample.stack "A" "a"; Sample.stack "B" "b"; Sample.stack "C" "c"]
       (Sample.world [File (Sample.note "a.md" "A" "");
                      File (Sample.note "c.md" "C" "")])
     = (Returned [Sample.stack "B" "b"],
        Sample.world [File (Sample.note "a.md" "A" "");
                      File (Sample.note "c.md" "C" "")]).
Proof.
  intros Hfetch Hu. split; [|vm_compute; reflexivity].
  destruct (findMissingStacks_run settings w stacks Hu) as (ex & -> & Hex).
  f_equal. f_equal. apply fetched_names_nonempty in Hfetch.
  induction Hfetch as [|stack stacks Hne _ IH]; [done|].
  simpl. rewrite IH.
  assert (bool_decide (name stack ∈ ex)
          = bool_decide (name stack ∈ frontmatter_values settings
                                        (candidates settings (vault w))))
    as ->; [|done].
  apply bool_decide_ext. rewrite Hex. tauto.
Qed.

Lemma findMissingStacks_absent_names_witness :
  findMissingStacks DEFAULT_SETTINGS
    [{| name := str "web"; content := str "services: {}" |};
     {| name := str "db"; content := str "services: {}" |}]
    (Sample.world [File (Sample.note "web.md" "web" "")])
  = (Returned [{| name := str "db"; content := str "services: {}" |}],
     Sample.world [File (Sample.note "web.md" "web" "")]).
Proof.
  destruct (findMissingStacks_absent_names Sample.runtime DEFAULT_SETTINGS
              (Sample.world []) (Sample.world [])
              (Sample.world [File (Sample.note "web.md" "web" "")])
              [{| name := str "web"; content := str "services: {}" |};
               {| name := str "db"; content := str "services: {}" |}])
    as [H _].
  - vm_compute. reflexivity.
  - vm_compute. reflexivity.
  - rewrite H. vm_compute. reflexivity.
Defined.

(** ** Synchronizing the notes *)

Section SyncFacts.
Variable settings : DockerToObsiSettings.
Variable smap : gmap (list ascii) (list ascii).

Lemma vault_modify_run w f text :
  unique_paths (vault w) = true -> File f ∈ vault w ->
  vault_modify f text w
  = (Returned tt,
     {| vault := update_file (path f) (set_data text) <$> vault w;
        requests := requests w |}).
Proof using Type.
  intros Hu%bool_decide_eq_true Hin. unfold vault_modify, bind.
  rewrite getAbstractFileByPath_run.
  by rewrite (find_path_unique _ (File f)) by done.
Qed.

(** The callback for one note: what it answers and what it does to
    the vault is decided by the note alone. *)
Lemma update_note_run w f :
  unique_paths (vault w) = true -> File f ∈ vault w ->
  update_note settings smap f w
  = match note_update settings smap f with
    | Some text =>
        (Returned true,
         {| vault := update_file (path f) (set_data text) <$> vault w;
            requests := requests w |})
    | None => (Returned false, w)
    end.
Proof using Type.
  intros Hu Hin.
  unfold update_note, try_catch, bind, note_update, key_value.
  rewrite getFrontmatter_run by done.
  destruct (frontmatter f) as [fm|]; [|done].
  destruct (fm !! frontmatterProperty settings) as [[s|l]|]; try done.
  simpl. destruct (truthy s); [|done]. simpl.
  destruct (smap !! s) as [c|]; [|done].
  destruct (truthy c); [|done].
  unfold updateYamlCodeBlock, bind. rewrite vault_read_run by done.
  destruct (updatedContent (data f) c) as [text|]; [|done].
  by rewrite vault_modify_run.
Qed.

Lemma sync_entry_path paths a :
  abstract_path (sync_entry settings smap paths a) = abstract_path a.
Proof using Type.
  destruct a as [f|p]; [|done]. simpl.
  destruct (bool_decide (path f ∈ paths)); [|done].
  by destruct (note_update settings smap f).
Qed.

Lemma sync_vault_paths paths (v : list AbstractFile) :
  abstract_path <$> (sync_entry settings smap paths <$> v)
  = abstract_path <$> v.
Proof using Type.
  rewrite <- list_fmap_compose. apply list_fmap_ext.
  intros i a _. apply sync_entry_path.
Qed.

(** One more note synchronized. *)
Lemma sync_step (v0 : list AbstractFile) processed f :
  NoDup (abstract_path <$> v0) -> File f ∈ v0 ->
  path f ∉ path <$> processed ->
  match note_update settings smap f with
  | Some text =>
      update_file (path f) (set_data text)
        <$> (sync_entry settings smap (path <$> processed) <$> v0)
  | None => sync_entry settings smap (path <$> processed) <$> v0
  end
  = sync_entry settings smap (path <$> (processed ++ [f])) <$> v0.
Proof using Type.
  intros Hnd Hf Hfresh.
  assert (forall a, a ∈ v0 ->
            match note_update settings smap f with
            | Some text =>
                update_file (path f) (set_data text)
                  (sync_entry settings smap (path <$> processed) a)
            | None => sync_entry settings smap (path <$> processed) a
            end
            = sync_entry settings smap (path <$> (processed ++ [f])) a)
    as Hpoint.
  { intros [g|p] Ha; [|by destruct (note_update settings smap f)].
    rewrite fmap_app. cbn [sync_entry fmap list_fmap].
    destruct (decide (path g = path f)) as [Hp|Hp].
    - assert (g = f) as ->.
      { pose proof (find_path_unique v0 (File g) Hnd Ha) as H1.
        pose proof (find_path_unique v0 (File f) Hnd Hf) as H2.
        simpl in H1, H2. rewrite Hp, H2 in H1. by injection H1. }
      rewrite (bool_decide_eq_false_2 (path f ∈ path <$> processed))
        by done.
      rewrite bool_decide_eq_true_2 by set_solver.
      destruct (note_update settings smap f) as [text|]; [|done].
      simpl. by rewrite bool_decide_eq_true_2.
    - assert (bool_decide (path g ∈ (path <$> processed) ++ [path f])
              = bool_decide (path g ∈ path <$> processed)) as ->.
      { apply bool_decide_ext. set_solver. }
      destruct (note_update settings smap f) as [text|]; [|done].
      destruct (bool_decide (path g ∈ path <$> processed)).
      + destruct (note_update settings smap g); simpl;
          by rewrite bool_decide_eq_false_2.
      + simpl. by rewrite bool_decide_eq_false_2. }
  destruct (note_update settings smap f) as [text|].
  - rewrite <- list_fmap_compose. apply list_fmap_ext.
    intros i a Hi. apply Hpoint. by eapply list_elem_of_lookup_2.
  - apply list_fmap_ext.
    intros i a Hi. apply Hpoint. by eapply list_elem_of_lookup_2.
Qed.

(** The notes are synchronized one after the other; after a list of
    them the vault is the first one with these notes rewritten. *)
Lemma mapM_update_note_run (v0 : list AbstractFile) r files :
  forall processed,
  NoDup (abstract_path <$> v0) ->
  NoDup (path <$> (processed ++ files)) ->
  (forall f, f ∈ files -> File f ∈ v0) ->
  mapM (update_note settings smap) files
    {| vault := sync_entry settings smap (path <$> processed) <$> v0;
       requests := r |}
  = (Returned ((fun f => bool_decide (is_Some (note_update settings smap f)))
                 <$> files),
     {| vault := sync_entry settings smap (path <$> (processed ++ files))
                   <$> v0;
        requests := r |}).
Proof using Type.
  induction files as [|f files IH]; intros processed Hv Hnd Hin.
  - by rewrite app_nil_r.
  - cbn [mapM]. unfold bind at 1.
    assert (path f ∉ path <$> processed) as Hfresh.
    { rewrite fmap_app in Hnd. apply NoDup_app in Hnd as (_ & Hd & _).
      intros Hp. apply (Hd _ Hp). set_solver. }
    assert (File f ∈ v0) as Hf by (apply Hin; set_solver).
    rewrite update_note_run; cycle 1.
    { apply bool_decide_eq_true. simpl. by rewrite sync_vault_paths. }
    { simpl. apply (list_elem_of_fmap_2' _ _ (File f)); [done|].
      simpl. by rewrite bool_decide_eq_false_2. }
    pose proof (sync_step v0 processed f Hv Hf Hfresh) as Hstep.
    cbn [vault requests].
    assert (NoDup (path <$> (processed ++ [f]) ++ files)) as Hnd'
      by (by rewrite <- app_assoc).
    assert (forall g, g ∈ files -> File g ∈ v0) as Hin'
      by (intros g Hg; apply Hin; set_solver).
    rewrite (fmap_cons _ f files).
    destruct (note_update settings smap f) as [text|];
      rewrite Hstep; unfold bind; rewrite IH by done;
      unfold ret; by rewrite <- app_assoc.
Qed.
End SyncFacts.

Lemma sync_entry_nil settings smap (v : list AbstractFile) :
  sync_entry settings smap [] <$> v = v.
Proof.
  induction v as [|a v IH]; [done|]. rewrite fmap_cons, IH. f_equal.
  by destruct a.
Qed.

Lemma candidates_cons settings a v :
  candidates settings (a :: v) = candidates settings v
  \/ exists f, a = File f
       /\ candidates settings (a :: v) = f :: candidates settings v.
Proof.
  unfold candidates. destruct a as [f|p]; [|by left].
  cbn [omap list_omap]. destruct (endsWith (path f) (str ".md")); [|by left].
  cbn [List.filter].
  destruct (negb (truthy (trim (folderPath settings)))
            || startsWith (path f) (trim (folderPath settings)));
    [right; by exists f|by left].
Qed.

Lemma candidates_NoDup settings v :
  NoDup (abstract_path <$> v) -> NoDup (path <$> candidates settings v).
Proof.
  induction v as [|a v IH]; intros Hnd; [constructor|].
  rewrite fmap_cons in Hnd. apply NoDup_cons in Hnd as [Ha Hnd].
  destruct (candidates_cons settings a v) as [-> | (f & -> & ->)];
    [by apply IH|].
  rewrite fmap_cons. apply NoDup_cons. split; [|by apply IH].
  intros (g & Hp & Hg%candidates_in_vault)%list_elem_of_fmap.
  apply Ha. simpl. rewrite Hp.
  by apply (list_elem_of_fmap_2 abstract_path _ (File g)).
Qed.

Lemma count_successes {A} (P : A -> bool) (l : list A) :
  length (List.filter (fun success : bool => success) (P <$> l))
  = length (List.filter P l).
Proof.
  induction l as [|x l IH]; [done|]. rewrite fmap_cons. simpl.
  destruct (P x); simpl; by rewrite IH.
Qed.

(** The batch: every candidate note is rewritten, or left alone, the way
    its own frontmatter and text decide; the count is the number of
    notes rewritten. *)
Lemma checkNotesForMatchingStacks_run settings stacks w :
  unique_paths (vault w) = true ->
  checkNotesForMatchingStacks settings stacks w
  = (Returned
       (length (List.filter
                  (fun f => bool_decide
                              (is_Some (note_update settings
                                          (stackMap stacks) f)))
                  (candidates settings (vault w)))),
     {| vault := sync_entry settings (stackMap stacks)
                   (path <$> candidates settings (vault w)) <$> vault w;
        requests := requests w |}).
Proof.
  intros Hu%bool_decide_eq_true.
  unfold checkNotesForMatchingStacks, bind at 1.
  rewrite getMarkdownFiles_run. unfold bind.
  pose proof (mapM_update_note_run settings (stackMap stacks) (vault w)
                (requests w) (candidates settings (vault w)) [] Hu) as H.
  rewrite app_nil_l, fmap_nil, sync_entry_nil in H.
  destruct w as [v r]. cbn [vault requests] in *.
  rewrite H; [|by apply candidates_NoDup|intros f; apply candidates_in_vault].
  unfold ret. by rewrite count_successes.
Qed.

Lemma foldl_insert_lookup l3 : forall (m : gmap (list ascii) (list ascii)) k v,
  Forall (fun x => name x <> k) l3 -> m !! k = Some v ->
  foldl (fun m stack => <[name stack := content stack]> m) m l3 !! k = Some v.
Proof.
  induction l3 as [|x l3 IH]; intros m k v Hl3 Hm; [done|].
  apply Forall_cons in Hl3 as [Hx Hl3]. cbn [foldl].
  apply IH; [done|]. by rewrite lookup_insert_ne.
Qed.

(** The last stack of a name is the one the map answers. *)
Lemma stackMap_lookup_last l s l3 :
  Forall (fun x => name x <> name s) l3 ->
  stackMap (l ++ s :: l3) !! name s = Some (content s).
Proof.
  intros Hl3. unfold stackMap. rewrite foldl_app. cbn [foldl].
  apply foldl_insert_lookup; [done|]. apply lookup_insert_eq.
Qed.

Lemma fetched_names rt paths stacks :
  Forall2 (fun path stack => contentPromise rt path = Returned stack)
    paths stacks ->
  name <$> stacks = stack_name <$> paths.
Proof.
  induction 1 as [|p stack paths stacks [Hn _]%contentPromise_Returned _ IH];
    [done|].
  rewrite !fmap_cons. by f_equal.
Qed.




Lemma filter_length_le {A} (P Q : A -> bool) (l : list A) :
  (forall x, x ∈ l -> P x = true -> Q x = true) ->
  length (List.filter P l) <= length (List.filter Q l).
Proof.
  induction l as [|x l IH]; intros H; [done|]. simpl.
  assert (length (List.filter P l) <= length (List.filter Q l)) as Hle.
  { apply IH. intros y Hy. apply H. set_solver. }
  destruct (P x) eqn:EP.
  - rewrite (H x) by (done || set_solver). simpl. lia.
  - destruct (Q x); simpl; lia.
Qed.

(** C10. A note whose value at the configured key is the empty string
    counts as a note without the key: the synchronizer leaves it as it
    is and does not count it, whatever the stacks, one named by the
    empty string included; and the detection of missing stacks does not
    take the empty string for an existing name, so a stack named by the
    empty string is reported missing. *)
Theorem empty_key_value_is_no_key
    (settings : DockerToObsiSettings) (stacks : list DockerStackFile)
    (w : World) (file : TFile) (fm : Frontmatter) :
  unique_paths (vault w) = true ->
  File file ∈ vault w ->
  frontmatter file = Some fm ->
  fm !! frontmatterProperty settings = Some (FmString []) ->
  update_note settings (stackMap stacks) file w = (Returned false, w)
  /\ (exists n w',
        checkNotesForMatchingStacks settings stacks w = (Returned n, w')
        /\ File file ∈ vault w'
        /\ n <= length (List.filter
                          (fun f => negb (bool_decide (path f = path file)))
                          (candidates settings (vault w))))
  /\ (exists missing,
        findMissingStacks settings stacks w = (Returned missing, w)
        /\ forall stack, stack ∈ stacks -> name stack = [] -> stack ∈ missing).
Proof.
  intros Hu Hin Hfm Hkey.
  assert (note_update settings (stackMap stacks) file = None) as Hnone.
  { unfold note_update, key_value. by rewrite Hfm, Hkey. }
  split; [|split].
  - rewrite update_note_run by done. by rewrite Hnone.
  - eexists _, _. split; [by apply checkNotesForMatchingStacks_run|].
    cbn [vault]. split.
    + apply (list_elem_of_fmap_2' _ _ (File file)); [done|].
      simpl. rewrite Hnone. by destruct (bool_decide _).
    + apply filter_length_le. intros f Hf%candidates_in_vault HP.
      apply negb_true_iff, bool_decide_eq_false. intros Hp.
      assert (f = file) as ->.
      { apply bool_decide_eq_true in Hu.
        pose proof (find_path_unique _ (File f) Hu Hf) as H1.
        pose proof (find_path_unique _ (File file) Hu Hin) as H2.
        simpl in H1, H2. rewrite Hp, H2 in H1. by injection H1. }
      by rewrite Hnone in HP.
  - destruct (findMissingStacks_run settings w stacks Hu) as (ex & -> & Hex).
    eexists. split; [done|]. intros stack Hs Hn.
    apply list_elem_of_In, filter_In. split; [by apply list_elem_of_In|].
    apply negb_true_iff, bool_decide_eq_false. rewrite Hex, Hn. tauto.
Qed.

Lemma empty_key_value_is_no_key_witness :
  update_note DEFAULT_SETTINGS (stackMap [Sample.stack "" "services: {}"])
    (Sample.note "a.md" "" "text")
    (Sample.world [File (Sample.note "a.md" "" "text")])
  = (Returned false, Sample.world [File (Sample.note "a.md" "" "text")]).
Proof.
  apply (empty_key_value_is_no_key DEFAULT_SETTINGS
           [Sample.stack "" "services: {}"]
           (Sample.world [File (Sample.note "a.md" "" "text")])
           (Sample.note "a.md" "" "text")
           {[ str "stackName" := FmString [] ]}).
  - vm_compute. reflexivity.
  - apply list_elem_of_here.
  - reflexivity.
  - vm_compute. reflexivity.
Defined.

(** ** Creating notes *)

Lemma update_file_fresh p h (v : list AbstractFile) :
  entry_at p v = None -> update_file p h <$> v = v.
Proof.
  intros H. induction v as [|a v IH]; [done|].
  unfold entry_at in H. simpl in H.
  destruct (bool_decide (abstract_path a = p)) eqn:E; [done|].
  rewrite fmap_cons, IH by done. f_equal.
  destruct a as [f|q]; [|done]. simpl in *. by rewrite E.
Qed.

Lemma entry_at_app_fresh p (v : list AbstractFile) a :
  entry_at p v = None -> abstract_path a = p -> entry_at p (v ++ [a]) = Some a.
Proof.
  intros H Ha. unfold entry_at in *. induction v as [|x v IH]; simpl in *.
  - by rewrite bool_decide_eq_true_2.
  - destruct (bool_decide (abstract_path x = p)); [done|]. by apply IH.
Qed.

(** Writing a property of the note just created, the last entry of the
    vault. *)
Lemma setFrontmatterProperty_last (v : list AbstractFile) r f g prop value :
  entry_at (path f) v = None -> path g = path f ->
  setFrontmatterProperty g prop value {| vault := v ++ [File f]; requests := r |}
  = match frontmatter f with
    | Some fm =>
        (Returned tt,
         {| vault := v ++ [File {| path := path f;
                                   frontmatter := Some (<[prop := value]> fm);
                                   data := data f |}];
            requests := r |})
    | None => (Raised HostError, {| vault := v ++ [File f]; requests := r |})
    end.
Proof.
  intros Hfresh Hg. unfold setFrontmatterProperty, bind at 1.
  rewrite getAbstractFileByPath_run. cbn [vault]. rewrite Hg.
  fold (entry_at (path f) (v ++ [File f])).
  rewrite entry_at_app_fresh by done.
  destruct (frontmatter f) as [fm|]; [|done].
  unfold bind, get_vault, put_vault. cbn [vault requests].
  rewrite fmap_app, update_file_fresh by done.
  simpl. by rewrite bool_decide_eq_true_2.
Qed.

Section CreateNote.
Variable rt : Runtime.
Variable settings : DockerToObsiSettings.
Hypothesis Hresponsive : responsive rt.
Variable templateContent : list ascii.
Variable templateHasTags : bool.
Variable folder : list ascii.

Local Abbreviation step :=
  (create_note rt settings templateContent templateHasTags folder).

(** One turn of the loop: it always ends; it adds at most one note,
    at the end of the vault; it counts the note it has added when the
    frontmatter of that note could be written; and it adds nothing
    when the destination holds an entry already. *)
Lemma create_note_run n stack w :
  exists n' w' created,
    step n stack w = (Returned n', w')
    /\ vault w' = vault w ++ created
    /\ n' = n + length (List.filter written created)
    /\ (is_Some (entry_at (destination rt settings folder stack) (vault w)) ->
        created = []).
Proof using Hresponsive.
  unfold create_note, try_catch, bind at 1.
  destruct (processTemplate_returns rt settings Hresponsive templateContent
              stack w) as (text & w1 & -> & Hv1).
  unfold bind at 1. rewrite getAbstractFileByPath_run.
  fold (destination rt settings folder stack).
  fold (entry_at (destination rt settings folder stack) (vault w1)).
  rewrite Hv1.
  destruct (entry_at (destination rt settings folder stack) (vault w))
    as [a|] eqn:Hentry.
  { exists n, w1, []. unfold ret. rewrite app_nil_r. simpl.
    split; [done|]. split; [done|]. split; [lia|done]. }
  assert (forall P : Prop, is_Some (@None AbstractFile) -> P) as Hnone.
  { intros P [x Hx]. done. }
  unfold bind at 1, vault_create, bind at 1, get_vault.
  unfold bind at 1. rewrite getAbstractFileByPath_run.
  fold (entry_at (destination rt settings folder stack) (vault w1)).
  rewrite Hv1, Hentry.
  destruct (create_ok rt (destination rt settings folder stack)).
  2:{ exists n, w1, []. unfold raise, ret. rewrite app_nil_r. simpl.
      split; [done|]. split; [done|]. split; [lia|apply Hnone]. }
  unfold bind at 1, put_vault, ret at 1.
  set (f := {| path := destination rt settings folder stack;
               frontmatter := parseFrontMatter rt text;
               data := text |}).
  unfold bind at 1.
  rewrite (setFrontmatterProperty_last (vault w) (requests w1) f f)
    by done.
  destruct (frontmatter f) as [fm|] eqn:Hfm.
  2:{ eexists n, _, [File f]. unfold ret. split; [done|].
      cbn [vault List.filter written]. rewrite Hfm.
      rewrite bool_decide_eq_false_2 by (by intros [x Hx]).
      split; [done|]. split; [simpl; lia|apply Hnone]. }
  destruct (templateHasTags && useAI settings).
  - unfold bind at 1, bind at 1.
    destruct (generateStackTags_returns rt settings Hresponsive stack
                {| vault := vault w ++
                     [File {| path := path f;
                              frontmatter :=
                                Some (<[frontmatterProperty settings :=
                                          FmString (name stack)]> fm);
                              data := data f |}];
                   requests := requests w1 |})
      as (tags & w2 & -> & Hv2).
    destruct w2 as [v2 r2]. cbn [vault] in Hv2. subst v2.
    rewrite (setFrontmatterProperty_last (vault w) r2 _ f) by done.
    cbn [frontmatter]. eexists (S n), _, [_]. unfold bind, ret.
    split; [done|]. split; [reflexivity|].
    cbn [List.filter written frontmatter].
    rewrite bool_decide_eq_true_2 by done.
    split; [simpl; lia|apply Hnone].
  - eexists (S n), _, [_]. unfold bind, ret.
    split; [done|]. split; [reflexivity|].
    cbn [List.filter written frontmatter].
    rewrite bool_decide_eq_true_2 by done.
    split; [simpl; lia|apply Hnone].
Qed.

Lemma foldM_app {A S} (f : S -> A -> M S) l1 l2 : forall acc w,
  foldM f acc (l1 ++ l2) w
  = bind (foldM f acc l1) (fun acc' => foldM f acc' l2) w.
Proof using Type.
  induction l1 as [|x l1 IH]; intros acc w; [done|].
  cbn [app foldM]. unfold bind.
  destruct (f acc x w) as [[a| |] w']; [apply IH|done|done].
Qed.

(** The loop: it ends for every list of stacks, whatever fails on the
    way; the notes it creates are added at the end of the vault; and
    it counts the created notes whose frontmatter could be written. *)
Lemma create_loop_run stacks : forall n w,
  exists n' w' created,
    foldM step n stacks w = (Returned n', w')
    /\ vault w' = vault w ++ created
    /\ n' = n + length (List.filter written created).
Proof using Hresponsive.
  induction stacks as [|stack stacks IH]; intros n w.
  - exists n, w, []. unfold ret. rewrite app_nil_r. simpl.
    split; [done|]. split; [done|lia].
  - cbn [foldM]. unfold bind.
    destruct (create_note_run n stack w)
      as (n1 & w1 & c1 & -> & Hv1 & Hn1 & _).
    destruct (IH n1 w1) as (n' & w' & c2 & -> & Hv2 & Hn2).
    exists n', w', (c1 ++ c2). split; [done|].
    rewrite Hv2, Hv1, <- app_assoc. split; [done|].
    rewrite List.filter_app, length_app. lia.
Qed.
End CreateNote.



(** With a note for [web] in the vault, the stack [web] is skipped and
    a note is created for [db]: one note is counted. *)
Example createNotesFromTemplate_sample :
  createNotesFromTemplate Sample.runtime Sample.template_settings
    [Sample.stack "web" "services: {}"; Sample.stack "db" "services: {}"]
    (Sample.world Sample.template_vault)
  = (Returned 1,
     Sample.world
       (Sample.template_vault
        ++ [File {| path := str "Db.md";
                    frontmatter :=
                      Some {[ str "stackName" := FmString (str "db") ]};
                    data := str "# db services: {}" |}])).
Proof. vm_compute. reflexivity. Qed.

(** ** Concrete cases *)

(** The four titles of a compose block are matched, at a line start
    only, and the language tag is matched in lower case only. *)
Example compose_titles_match :
  let body := "010" :: str "x" ++ "010" :: str "```" in
  yamlCodeBlock_exec [] (str "```yaml title=compose.yaml" ++ body)
  = Some (tt, [])
  /\ yamlCodeBlock_exec [] (str "```yml title=compose.yml" ++ body)
     = Some (tt, [])
  /\ yamlCodeBlock_exec [] (str "```yaml title=docker-compose.yaml" ++ body)
     = Some (tt, [])
  /\ yamlCodeBlock_exec [] (str "```yml  title=docker-compose.yml" ++ body)
     = Some (tt, [])
  /\ yamlCodeBlock_exec ["x"] (str "```yaml title=compose.yaml" ++ body) = None
  /\ yamlCodeBlock_exec [] (str "```YAML title=compose.yaml" ++ body) = None
  /\ yamlCodeBlock_exec [] (str "```yaml title=stack.yaml" ++ body) = None.
Proof. repeat split; vm_compute; reflexivity. Qed.

(** The dollar patterns of a replacement string are expanded when the
    content is put in place of its token, and when a block is
    rewritten in a note. *)
Example dollar_patterns_are_expanded :
  processTemplate Sample.runtime DEFAULT_SETTINGS (str "{{stackContent}}")
    (Sample.stack "web" "PASS=a$$b") (Sample.world [])
  = (Returned (str "PASS=a$b"), Sample.world [])
  /\ updatedContent Sample.one_block (str "PASS=a$$b")
     = Some (newCodeBlock (str "PASS=a$b"))
  /\ processYamlCodeBlocks Sample.one_block (str "PASS=a$$b")
     = newCodeBlock (str "PASS=a$$b").
Proof. repeat split; vm_compute; reflexivity. Qed.

(** Dates: a known format, the default format, and a format the clock
    rejects, which falls back to the default one. *)
Example date_placeholders :
  processDateVariables Sample.runtime
    (str "{{date:YYYY}} {{date}} {{date:??}} {{date:}}")
  = str "2025 2025/06/01 2025/06/01 {{date:}}".
Proof. vm_compute. reflexivity. Qed.

(** File names: a run of separators at an end of the name leaves an
    empty word there, hence a space. *)
Example file_names :
  generateFileName Sample.runtime DEFAULT_SETTINGS (str "my-app_stack")
  = str "My App Stack.md"
  /\ generateFileName Sample.runtime DEFAULT_SETTINGS (str "--WEB  server_")
     = str " Web Server .md"
  /\ generateFileName Sample.runtime DEFAULT_SETTINGS [] = str ".md".
Proof. repeat split; vm_compute; reflexivity. Qed.

(** A note without a compose block is left alone and not counted. *)
Example sync_counts_rewritten_notes :
  checkNotesForMatchingStacks DEFAULT_SETTINGS
    [Sample.stack "web" "services: {}"]
    (Sample.world [File (Sample.note "a.md" "web" "no block here");
                   File (Sample.note "b.md" "db" "")])
  = (Returned 0,
     Sample.world [File (Sample.note "a.md" "web" "no block here");
                   File (Sample.note "b.md" "db" "")]).
Proof. vm_compute. reflexivity. Qed.

(** With a credential the request is sent; the API of the sample
    environment is down, and the placeholder is what comes back. *)
Example generation_sends_a_request :
  generateStackDescription Sample.runtime
    {| ghUsername := []; ghRepository := []; ghToken := [];
       folderPath := []; frontmatterProperty := str "stackName";
       templateFilePath := []; useAI := true;
       openaiApiKey := str " sk-1 ";
       fileNamePrefix := []; fileNameSuffix := [] |}
    (Sample.stack "web" "services: {}") (Sample.world [])
  = (Returned (str "Write description here"),
     {| vault := [];
        requests := [GenerateText (str "sk-1") (str "web")] |}).
Proof. vm_compute. reflexivity. Qed.

(** * Further properties *)

(** ** Names and paths of the fetcher *)

Lemma elem_of_rev_iff {A} (x : A) (l : list A) : x ∈ rev l <-> x ∈ l.
Proof. by rewrite !list_elem_of_In, <- in_rev. Qed.

Lemma split_char_from_no_sep sep s : forall cur seg,
  sep ∉ cur -> seg ∈ split_char_from sep cur s -> sep ∉ seg.
Proof.
  induction s as [|c s IH]; intros cur seg Hcur Hin.
  - cbn [split_char_from] in Hin. apply list_elem_of_singleton in Hin as ->.
    by rewrite elem_of_rev_iff.
  - cbn [split_char_from] in Hin.
    destruct (Ascii.eqb_spec c sep) as [->|Hne].
    + apply elem_of_cons in Hin as [->|Hin].
      * by rewrite elem_of_rev_iff.
      * apply (IH [] seg); [apply not_elem_of_nil|done].
    + apply (IH (c :: cur) seg); [|done].
      apply not_elem_of_cons. split; [congruence|done].
Qed.

(** X1. The name the fetcher gives a stack is never empty and never
    holds a slash, whatever the path. *)
Theorem stack_name_is_a_segment (path : list ascii) :
  stack_name path <> [] /\ "/" ∉ stack_name path.
Proof.
  split; [apply stack_name_nonempty|].
  unfold stack_name, pop.
  destruct (last _) as [segment|] eqn:Hlast.
  - destruct (truthy segment).
    + apply last_Some_elem_of in Hlast.
      apply (split_char_from_no_sep "/" _ [] segment) in Hlast; [done|].
      apply not_elem_of_nil.
    + simpl. not_in_text.
  - simpl. not_in_text.
Qed.

Lemma split_char_from_plain sep seg : forall cur,
  sep ∉ seg -> split_char_from sep cur seg = [rev cur ++ seg].
Proof.
  induction seg as [|c seg IH]; intros cur Hseg.
  - by rewrite app_nil_r.
  - apply not_elem_of_cons in Hseg as [Hc Hseg]. cbn [split_char_from].
    destruct (Ascii.eqb_spec c sep) as [->|_]; [done|].
    rewrite IH by done. cbn [rev]. by rewrite <- app_assoc.
Qed.

Lemma split_char_from_last_is_Some sep s : forall cur,
  is_Some (last (split_char_from sep cur s)).
Proof.
  induction s as [|c s IH]; intros cur; [by eexists|].
  cbn [split_char_from]. destruct (c =? sep); [|apply IH].
  rewrite last_cons. destruct (IH []) as [x ->]. by eexists.
Qed.

Lemma split_char_from_last sep pre x : forall cur,
  last (split_char_from sep cur (pre ++ sep :: x))
  = last (split_char_from sep [] x).
Proof.
  induction pre as [|c pre IH]; intros cur.
  - rewrite app_nil_l. cbn [split_char_from]. rewrite Ascii.eqb_refl.
    rewrite last_cons.
    by destruct (split_char_from_last_is_Some sep x []) as [y ->].
  - simpl app. cbn [split_char_from]. destruct (c =? sep); [|apply IH].
    rewrite last_cons, IH.
    by destruct (split_char_from_last_is_Some sep x []) as [y ->].
Qed.

(** X2. For a compose file in a directory the name of the stack is the
    name of the directory: the last segment before [/compose.yaml],
    provided the path holds no earlier [/compose.yaml]. *)
Theorem stack_name_of_directory (parent segment : list ascii) :
  segment <> [] -> "/" ∉ segment ->
  parent = [] \/ last parent = Some "/" ->
  match_first (token_exec (str "/compose.yaml"))
    (parent ++ segment ++ str "/compose.yaml")
  = Some (parent ++ segment, str "/compose.yaml", []) ->
  stack_name (parent ++ segment ++ str "/compose.yaml") = segment.
Proof.
  intros Hne Hseg Hparent Hfirst. unfold stack_name, replace_first.
  apply match_first_from_spec in Hfirst
    as (u & caps & Hu & Hpath & _ & Hmiss);
    [|intros b' x c r ->%token_exec_Some; eauto].
  cbn [rev app] in Hu. subst u.
  assert (replace_first_from (str "/compose.yaml") [] []
            (parent ++ segment ++ str "/compose.yaml") = parent ++ segment)
    as ->.
  { rewrite app_assoc.
    rewrite <- (app_nil_r (str "/compose.yaml")) at 2.
    rewrite replace_first_from_spec.
    - cbn [rev get_substitution]. by rewrite !app_nil_r.
    - intros u1 u2 Hu Hu2. apply (token_exec_None _ (rev u1 ++ [])).
      by apply Hmiss. }
  assert (last (split_char "/" (parent ++ segment)) = Some segment) as Hlast.
  { unfold split_char. destruct Hparent as [->|Hparent].
    - rewrite app_nil_l. by rewrite split_char_from_plain.
    - apply last_Some in Hparent as [d ->]. rewrite <- app_assoc.
      cbn [app]. rewrite split_char_from_last.
      by rewrite split_char_from_plain. }
  unfold pop. rewrite Hlast. by destruct segment.
Qed.

Lemma stack_name_of_directory_witness :
  stack_name (str "stacks/" ++ str "web" ++ str "/compose.yaml") = str "web".
Proof.
  apply stack_name_of_directory.
  - discriminate.
  - simpl. not_in_text.
  - right. reflexivity.
  - vm_compute. reflexivity.
Defined.

(** ** Fetching the stacks *)

(** X3. A fetch that ends well returns one stack for every listed path,
    in the order of the listing, each with the name of its path and the
    text fetched for it; it leaves vault and requests as they were. *)
Theorem fetchAllComposeStackFiles_returned
    (rt : Runtime) (w w' : World) (stacks : list DockerStackFile) :
  fetchAllComposeStackFiles rt w = (Returned stacks, w')
  <-> exists paths,
        Host.fetchComposeYamlFiles rt = Returned paths
        /\ Forall2 (fun path stack =>
                      name stack = stack_name path
                      /\ fetchGithubFileContent rt path
                         = Returned (content stack))
             paths stacks
        /\ w' = w.
Proof.
  rewrite fetchAllComposeStackFiles_Returned.
  split; intros (paths & Hlist & Hall & ->); exists paths;
    (split; [done|]); (split; [|done]);
    (eapply Forall2_impl; [exact Hall|]); intros path stack;
    apply contentPromise_Returned.
Qed.

Lemma fetchAllComposeStackFiles_returned_witness :
  fetchAllComposeStackFiles Sample.runtime (Sample.world [])
  = (Returned [Sample.stack "web" "services: {}";
               Sample.stack "db" "services: {}"], Sample.world []).
Proof.
  apply fetchAllComposeStackFiles_returned.
  exists [str "web/compose.yaml"; str "db/compose.yaml"].
  split; [reflexivity|]. split; [|reflexivity].
  repeat constructor.
Defined.

(** X4. A fetch gives no partial result: when the text of one listed
    file cannot be fetched, the whole fetch is rejected, whatever
    becomes of the other files, with the error of a listed file that
    could not be fetched, and the world is left as it was. *)
Theorem fetchAllComposeStackFiles_all_or_nothing
    (rt : Runtime) (w : World) (e : Error)
    (paths : list (list ascii)) (path : list ascii) :
  Host.fetchComposeYamlFiles rt = Returned paths ->
  path ∈ paths ->
  fetchGithubFileContent rt path = Raised e ->
  exists e' path',
    fetchAllComposeStackFiles rt w = (Raised e', w)
    /\ path' ∈ paths
    /\ fetchGithubFileContent rt path' = Raised e'.
Proof. apply fetchAllComposeStackFiles_Raised. Qed.

Lemma fetchAllComposeStackFiles_all_or_nothing_witness :
  fetchGithubFileContent Cases.stalled_runtime (str "web/compose.yaml")
  = Pending
  /\ exists e' path',
       fetchAllComposeStackFiles Cases.stalled_runtime (Sample.world [])
       = (Raised e', Sample.world [])
       /\ path' ∈ [str "web/compose.yaml"; str "db/compose.yaml"]
       /\ fetchGithubFileContent Cases.stalled_runtime path' = Raised e'.
Proof.
  split; [reflexivity|].
  apply (fetchAllComposeStackFiles_all_or_nothing Cases.stalled_runtime
           (Sample.world []) HttpError _ (str "db/compose.yaml")).
  - reflexivity.
  - right. left.
  - reflexivity.
Defined.

(** ** The two rules for compose blocks, side by side *)

(** The normalized block is a compose block wherever it starts a line,
    whatever its content and whatever follows it. *)
Lemma newCodeBlock_is_a_block stackContent b rest :
  at_line_start b = true ->
  is_Some (yamlCodeBlock_exec b (newCodeBlock stackContent ++ rest)).
Proof.
  intros Hb. rewrite yamlCodeBlock_exec_spec, Hb. unfold newCodeBlock.
  assert (header_end
            ((str "```yaml title=compose.yaml"
              ++ "010" :: trim stackContent ++ "010" :: str "```") ++ rest)
          = Some (trim stackContent ++ closing_fence ++ rest)) as ->.
  { rewrite <- app_assoc. simpl. by rewrite <- app_assoc. }
  cbn [mbind option_bind].
  destruct (find_close_prepend (trim stackContent) (closing_fence ++ rest) rest)
    as [r ->]; [|by eexists].
  by apply (find_close_fresh []).
Qed.

(** In the text the creation rule writes for a template that holds a
    compose block, the update rule finds a block to replace. *)
Lemma written_block_is_found template stackContent newContent :
  is_Some (match_first yamlCodeBlock_exec template) ->
  is_Some (updatedContent (processYamlCodeBlocks template stackContent)
             newContent).
Proof.
  intros Htemplate.
  assert (is_Some (match_first yamlCodeBlock_exec
                     (processYamlCodeBlocks template stackContent))) as Hm.
  { unfold processYamlCodeBlocks, replace_global.
    destruct (scan_decomp stackContent template [])
      as [->|(u & m & rest & x & _ & -> & He)]; [done|].
    apply yamlCodeBlock_exec_sound in He as [Hline _].
    destruct (newCodeBlock_is_a_block stackContent (rev u ++ [])
                (replace_matches yamlCodeBlock_exec
                   (fun _ (_ : unit) _ _ => newCodeBlock stackContent)
                   0 ["`"] rest) Hline) as [[caps r] Hexec].
    by apply (match_first_from_hit _ u _ caps r []). }
  unfold updatedContent.
  destruct Hm as [[[pre old] rest] ->]. by eexists.
Qed.

(** X5. For a template without the token [{{stackContent}}] that holds
    a compose block: in the text the block rule of the creation writes,
    the update rule finds a block to replace, whatever the contents;
    and when that text holds no date, name or about placeholder it is
    the text of the rendered note, which can then be synchronized. *)
Theorem created_block_is_found_by_update
    (rt : Runtime) (settings : DockerToObsiSettings)
    (template : list ascii) (stack : DockerStackFile)
    (newContent : list ascii) (w : World) :
  includes template (str "{{stackContent}}") = false ->
  is_Some (match_first yamlCodeBlock_exec template) ->
  let written := processYamlCodeBlocks template (content stack) in
  is_Some (updatedContent written newContent)
  /\ (includes written (str "{{date") = false ->
      includes written (str "{{stackName}}") = false ->
      includes written (str "{{about}}") = false ->
      processTemplate rt settings template stack w = (Returned written, w)).
Proof.
  intros Htok Htemplate written. split; [by apply written_block_is_found|].
  intros Hdate Hname Habout. unfold processTemplate.
  rewrite Htok. fold written. rewrite Habout.
  unfold bind, ret. cbn [andb].
  rewrite processDateVariables_none by done.
  rewrite (replace_token_none _ _ written) by done.
  by rewrite replace_token_none.
Qed.

Lemma created_block_is_found_by_update_witness :
  is_Some (updatedContent
             (processYamlCodeBlocks Sample.two_blocks Sample.fenced_content)
             (str "services: {}"))
  /\ processTemplate Sample.runtime DEFAULT_SETTINGS Sample.two_blocks
       {| name := str "web"; content := Sample.fenced_content |}
       (Sample.world [])
     = (Returned
          (processYamlCodeBlocks Sample.two_blocks Sample.fenced_content),
        Sample.world []).
Proof.
  destruct (created_block_is_found_by_update Sample.runtime DEFAULT_SETTINGS
              Sample.two_blocks
              {| name := str "web"; content := Sample.fenced_content |}
              (str "services: {}") (Sample.world []))
    as [Hfound Hnote]; [reflexivity|vm_compute; by eexists|].
  split; [exact Hfound|]. apply Hnote; vm_compute; reflexivity.
Defined.

(** X6. The two rules agree on what is no compose block: a text in
    which the update rule finds nothing to replace is left as it is by
    the creation rule, whatever the content. *)
Theorem no_block_for_update_no_block_for_creation
    (content newContent stackContent : list ascii) :
  updatedContent content newContent = None ->
  processYamlCodeBlocks content stackContent = content.
Proof.
  unfold updatedContent. intros H.
  destruct (match_first yamlCodeBlock_exec content) as [[[pre old] rest]|] eqn:E;
    [done|].
  unfold processYamlCodeBlocks, replace_global.
  apply replace_matches_none. intros u v Hs.
  by apply (match_first_from_None _ content []).
Qed.

Lemma no_block_for_update_no_block_for_creation_witness :
  processYamlCodeBlocks (str "```yaml" ++ "010" :: str "a: 1" ++ "010" :: str "```")
    (str "services: {}")
  = str "```yaml" ++ "010" :: str "a: 1" ++ "010" :: str "```".
Proof.
  apply (no_block_for_update_no_block_for_creation _ []).
  vm_compute. reflexivity.
Defined.

(** ** White space around a stack content *)

Lemma trimStart_spaces ws s :
  Forall (fun c => is_space c = true) ws -> trimStart (ws ++ s) = trimStart s.
Proof.
  induction 1 as [|c ws Hc _ IH]; [done|]. simpl. by rewrite Hc.
Qed.

Lemma trimEnd_spaces s ws :
  Forall (fun c => is_space c = true) ws -> trimEnd (s ++ ws) = trimEnd s.
Proof.
  intros H. unfold trimEnd. rewrite rev_app_distr, trimStart_spaces; [done|].
  apply Forall_forall. intros c Hc%(proj1 (elem_of_rev_iff _ _)).
  rewrite Forall_forall in H. by apply H.
Qed.

Lemma trim_spaces ws1 s ws2 :
  Forall (fun c => is_space c = true) ws1 ->
  Forall (fun c => is_space c = true) ws2 ->
  trim (ws1 ++ s ++ ws2) = trim s.
Proof.
  intros H1 H2. unfold trim. rewrite trimStart_spaces by done.
  induction s as [|c s IH].
  - rewrite app_nil_l. rewrite <- (app_nil_r ws2) at 1.
    by rewrite trimStart_spaces.
  - cbn [app trimStart]. destruct (is_space c); [done|].
    by apply (trimEnd_spaces (c :: s)).
Qed.

(** X7. White space around a stack content makes no difference:
    blanks and line ends before and after the content change neither the
    block written, nor what creation makes of a template, nor what the
    update makes of a note. *)
Theorem surrounding_white_space_is_dropped
    (ws1 stackContent ws2 text : list ascii) :
  Forall (fun c => is_space c = true) ws1 ->
  Forall (fun c => is_space c = true) ws2 ->
  newCodeBlock (ws1 ++ stackContent ++ ws2) = newCodeBlock stackContent
  /\ processYamlCodeBlocks text (ws1 ++ stackContent ++ ws2)
     = processYamlCodeBlocks text stackContent
  /\ updatedContent text (ws1 ++ stackContent ++ ws2)
     = updatedContent text stackContent.
Proof.
  intros H1 H2.
  assert (newCodeBlock (ws1 ++ stackContent ++ ws2)
          = newCodeBlock stackContent) as Hblock.
  { unfold newCodeBlock. by rewrite trim_spaces. }
  split; [done|]. split.
  - unfold processYamlCodeBlocks. by rewrite Hblock.
  - unfold updatedContent. by rewrite Hblock.
Qed.

Lemma surrounding_white_space_is_dropped_witness :
  newCodeBlock ("010" :: " " :: str "a: 1" ++ [" "; "010"])
  = newCodeBlock (str "a: 1").
Proof.
  apply (surrounding_white_space_is_dropped ["010"; " "] (str "a: 1")
           [" "; "010"] []).
  - by repeat constructor.
  - by repeat constructor.
Defined.

(** ** Updating a note twice *)

(** Replacing a text by itself changes nothing. *)
Lemma replace_first_from_self pat s : forall b,
  "$" ∉ pat -> replace_first_from pat pat b s = rev b ++ s.
Proof.
  induction s as [|c s IH]; intros b Hpat; rewrite replace_first_from_unfold.
  - destruct (strip_prefix pat []) as [r|] eqn:E; [|by rewrite app_nil_r].
    apply strip_prefix_Some in E. rewrite get_substitution_plain by done.
    by rewrite <- E.
  - destruct (strip_prefix pat (c :: s)) as [r|] eqn:E.
    + apply strip_prefix_Some in E. rewrite get_substitution_plain by done.
      by rewrite <- E.
    + rewrite IH by done. cbn [rev]. by rewrite <- app_assoc.
Qed.

(** No compose block starts before a block that is replaced: a miss
    before the old block is a miss before the new one. *)
Lemma exec_miss_before_block stackContent b u2 m rest rest' :
  u2 <> [] ->
  is_Some (find_close (m ++ rest)) ->
  yamlCodeBlock_exec b (u2 ++ m ++ rest) = None ->
  yamlCodeBlock_exec b (u2 ++ newCodeBlock stackContent ++ rest') = None.
Proof.
  intros Hne Hclose. rewrite !yamlCodeBlock_exec_spec.
  destruct (at_line_start b); [|done]. intros Hnone.
  destruct (header_end (u2 ++ newCodeBlock stackContent ++ rest'))
    as [r1|] eqn:E1; [|done].
  exfalso.
  apply header_end_sound in E1 as (H1 & HH & Heq).
  destruct (header_shape H1 HH) as (h & HH1 & Hbq).
  assert (forall l, u2 = H1 ++ l -> False) as Hcontra.
  { intros l ->. rewrite <- app_assoc, header_end_complete in Hnone by done.
    cbn [mbind option_bind] in Hnone. destruct Hclose as [x Hx].
    destruct (find_close_prepend l _ _ Hx) as [y Hy].
    by rewrite Hy in Hnone. }
  symmetry in Heq.
  apply app_eq_app in Heq as [l [[Hu Heq] | [Hu Heq]]].
  - destruct l as [|y l].
    + apply (Hcontra []). by rewrite Hu, !app_nil_r.
    + unfold newCodeBlock in Heq. simpl in Heq. injection Heq as <- Heq.
      destruct HH as (a & ws & d & a' & cr & HH & _).
      rewrite Hu in HH, HH1.
      destruct u2 as [|x1 [|x2 [|x3 u2]]]; [done| | |].
      * simpl in HH. injection HH as -> HH. subst l. simpl in Heq.
        by destruct a.
      * simpl in HH. injection HH as -> -> HH. subst l. simpl in Heq.
        by destruct a.
      * simpl in HH1. injection HH1 as -> -> -> HH1.
        apply Hbq. rewrite <- HH1. set_solver.
  - by apply (Hcontra l).
Qed.

(** X8. Updating a note a second time with the same content changes
    nothing more, when the trimmed content holds neither a dollar nor a
    closing fence and the text of the old block occurs nowhere before
    the block. *)
Theorem update_twice_is_update_once
    (content stackContent pre oldCodeBlock rest updated : list ascii) :
  match_first yamlCodeBlock_exec content = Some (pre, oldCodeBlock, rest) ->
  match_first (token_exec oldCodeBlock) content
  = Some (pre, oldCodeBlock, rest) ->
  includes (trim stackContent) ["$"] = false ->
  includes (trim stackContent) closing_fence = false ->
  updatedContent content stackContent = Some updated ->
  updatedContent updated stackContent = Some updated.
Proof.
  intros Hm Ht Hplain Hfence Hupdated.
  assert ("$" ∉ newCodeBlock stackContent) as Hdollar
    by (by apply newCodeBlock_plain).
  assert (updated = pre ++ newCodeBlock stackContent ++ rest) as ->.
  { unfold updatedContent in Hupdated. rewrite Hm in Hupdated.
    injection Hupdated as <-.
    apply match_first_from_spec in Ht as (u & caps & -> & -> & _ & Hmiss);
      [|intros b' x c r ->%token_exec_Some; eauto].
    unfold replace_first. rewrite replace_first_from_spec.
    - by rewrite get_substitution_plain.
    - intros u1 u2 Hu Hu2. apply (token_exec_None _ (rev u1 ++ [])).
      by apply Hmiss. }
  apply match_first_from_spec in Hm as (u & caps & -> & Hcontent & He & Hmiss);
    [|intros b' x c r (m & ->)%yamlCodeBlock_exec_split; eauto].
  cbn [rev app]. unfold updatedContent, match_first.
  pose proof He as Hsound.
  apply yamlCodeBlock_exec_sound in Hsound
    as (Hline & H & body & HH & Hold).
  rewrite (match_first_from_intro _ u (newCodeBlock stackContent) rest tt).
  - f_equal. unfold replace_first. by rewrite replace_first_from_self.
  - intros u1 u2 Hu Hne.
    apply (exec_miss_before_block _ _ _ oldCodeBlock rest);
      [done| |by apply Hmiss].
    rewrite Hold, app_assoc.
    apply (find_close_prepend _ (closing_fence ++ rest) rest).
    by apply (find_close_fresh []).
  - by apply block_exec.
Qed.

Lemma update_twice_is_update_once_witness :
  updatedContent
    (str "# Web" ++ "010" :: newCodeBlock (str "services: {}"))
    (str "services: {}")
  = Some (str "# Web" ++ "010" :: newCodeBlock (str "services: {}")).
Proof.
  apply (update_twice_is_update_once
           (str "# Web" ++ "010" :: Sample.one_block) (str "services: {}")
           (str "# Web" ++ ["010"]) Sample.one_block []).
  - vm_compute. reflexivity.
  - vm_compute. reflexivity.
  - vm_compute. reflexivity.
  - vm_compute. reflexivity.
  - vm_compute. reflexivity.
Defined.

(** ** What a synchronization leaves as it is *)

Lemma foldl_insert_lookup_None l : forall (m : gmap (list ascii) (list ascii)) k,
  Forall (fun x => name x <> k) l -> m !! k = None ->
  foldl (fun m stack => <[name stack := content stack]> m) m l !! k = None.
Proof.
  induction l as [|x l IH]; intros m k Hl Hm; [done|].
  apply Forall_cons in Hl as [Hx Hl]. cbn [foldl].
  apply IH; [done|]. by rewrite lookup_insert_ne.
Qed.

Lemma same_path_same_entry (v : list AbstractFile) a a' :
  NoDup (abstract_path <$> v) -> a ∈ v -> a' ∈ v ->
  abstract_path a = abstract_path a' -> a = a'.
Proof.
  intros Hnd Ha Ha' Hp.
  pose proof (find_path_unique v a Hnd Ha) as H1.
  pose proof (find_path_unique v a' Hnd Ha') as H2.
  rewrite Hp in H1. congruence.
Qed.

(** X9. A synchronization changes the text of candidate notes and
    nothing else: it always returns, sends no request, keeps every entry
    of the vault at its place with its kind, its path and its
    frontmatter, leaves every entry that is no candidate note as it is,
    keeps the paths distinct, and counts no more notes than there are
    candidates. *)
Theorem synchronization_changes_texts_only
    (settings : DockerToObsiSettings) (stacks : list DockerStackFile)
    (w : World) :
  unique_paths (vault w) = true ->
  exists n w',
    checkNotesForMatchingStacks settings stacks w = (Returned n, w')
    /\ requests w' = requests w
    /\ n <= length (candidates settings (vault w))
    /\ unique_paths (vault w') = true
    /\ Forall2
         (fun a a' =>
            abstract_path a' = abstract_path a
            /\ match a, a' with
               | File f, File f' => frontmatter f' = frontmatter f
               | Folder _, Folder _ => True
               | _, _ => False
               end
            /\ (a' <> a ->
                exists f, a = File f /\ f ∈ candidates settings (vault w)))
         (vault w) (vault w').
Proof.
  intros Hunique. eexists _, _.
  split; [by apply checkNotesForMatchingStacks_run|].
  cbn [vault requests]. split; [done|].
  split; [apply List.filter_length_le|].
  pose proof Hunique as Hnd. unfold unique_paths in Hnd.
  apply bool_decide_eq_true in Hnd.
  split.
  { unfold unique_paths. apply bool_decide_eq_true.
    by rewrite sync_vault_paths. }
  apply Forall2_fmap_r, Forall_Forall2_diag, Forall_forall.
  intros a Ha. split; [apply sync_entry_path|].
  destruct a as [f|p]; [|by split].
  unfold sync_entry.
  destruct (bool_decide (path f ∈ path <$> candidates settings (vault w)))
    eqn:Hin; [|by split].
  apply bool_decide_eq_true in Hin.
  assert (f ∈ candidates settings (vault w)) as Hf.
  { apply list_elem_of_fmap in Hin as (g & Hp & Hg).
    pose proof (candidates_in_vault _ _ _ Hg) as Hgv.
    assert (File f = File g) as [= ->]; [|done].
    by apply (same_path_same_entry (vault w)). }
  destruct (note_update settings (stackMap stacks) f) as [text|];
    (split; [done|]); intros _; by exists f.
Qed.

Lemma synchronization_changes_texts_only_witness :
  exists n w',
    checkNotesForMatchingStacks Sample.template_settings
      [Sample.stack "web" "services: {}"]
      (Sample.world [File (Sample.note "Web.md" "web" "# Web")])
    = (Returned n, w')
    /\ requests w' = [].
Proof.
  destruct (synchronization_changes_texts_only Sample.template_settings
              [Sample.stack "web" "services: {}"]
              (Sample.world [File (Sample.note "Web.md" "web" "# Web")]))
    as (n & w' & H1 & H2 & _); [by vm_compute|].
  by exists n, w'.
Defined.

(** X10. A synchronization leaves a note of the vault exactly as it is
    when the note has no string under the configured key, when no
    fetched stack has the name under that key, or when its text holds no
    compose block. *)
Theorem synchronization_leaves_note_alone
    (settings : DockerToObsiSettings) (stacks : list DockerStackFile)
    (w : World) (f : TFile) :
  unique_paths (vault w) = true ->
  File f ∈ vault w ->
  key_value settings f = None
  \/ (exists s, key_value settings f = Some s
                /\ Forall (fun stack => name stack <> s) stacks)
  \/ match_first yamlCodeBlock_exec (data f) = None ->
  exists n w',
    checkNotesForMatchingStacks settings stacks w = (Returned n, w')
    /\ File f ∈ vault w'.
Proof.
  intros Hunique Hf Hcase. eexists _, _.
  split; [by apply checkNotesForMatchingStacks_run|].
  cbn [vault]. apply list_elem_of_fmap. exists (File f). split; [|done].
  assert (note_update settings (stackMap stacks) f = None) as Hnone.
  { unfold note_update.
    destruct Hcase as [-> | [(s & -> & Hs) | Hblock]]; [done| |].
    - destruct (truthy s); [|done].
      unfold stackMap. by rewrite foldl_insert_lookup_None.
    - destruct (key_value settings f) as [s|]; [|done].
      destruct (truthy s); [|done].
      destruct (stackMap stacks !! s) as [c|]; [|done].
      destruct (truthy c); [|done].
      unfold updatedContent. by rewrite Hblock. }
  unfold sync_entry. rewrite Hnone. by destruct (bool_decide _).
Qed.

Lemma synchronization_leaves_note_alone_witness :
  exists n w',
    checkNotesForMatchingStacks Sample.template_settings
      [Sample.stack "db" "services: {}"]
      (Sample.world [File (Sample.note "Web.md" "web" "# Web")])
    = (Returned n, w')
    /\ File (Sample.note "Web.md" "web" "# Web") ∈ vault w'.
Proof.
  apply synchronization_leaves_note_alone.
  - by vm_compute.
  - apply list_elem_of_here.
  - right. left. exists (str "web"). split; [reflexivity|].
    constructor; [discriminate|constructor].
Defined.

(** ** Requests to the generation API *)

Section Quiet.
Variable rt : Runtime.
Variable settings : DockerToObsiSettings.

(** A computation that sends nothing. *)
Local Abbreviation quiet m := (forall w : World, requests (m w).2 = requests w).

Lemma quiet_ret {A} (a : A) : quiet (ret a).
Proof using Type. done. Qed.

Lemma quiet_raise {A} e : quiet (@raise A e).
Proof using Type. done. Qed.

Lemma quiet_never {A} : quiet (@never A).
Proof using Type. done. Qed.

Lemma quiet_await {A} (o : outcome A) : quiet (await o).
Proof using Type. done. Qed.

Lemma quiet_get_vault : quiet get_vault.
Proof using Type. done. Qed.

Lemma quiet_put_vault v : quiet (put_vault v).
Proof using Type. done. Qed.

Lemma quiet_bind {A B} (m : M A) (k : A -> M B) :
  quiet m -> (forall a, quiet (k a)) -> quiet (bind m k).
Proof using Type.
  intros Hm Hk w. unfold bind. specialize (Hm w).
  destruct (m w) as [[a|e|] w1]; simpl in *; [|done|done].
  by rewrite Hk.
Qed.

Lemma quiet_try_catch {A} (m : M A) (h : Error -> M A) :
  quiet m -> (forall e, quiet (h e)) -> quiet (try_catch m h).
Proof using Type.
  intros Hm Hh w. unfold try_catch. specialize (Hm w).
  destruct (m w) as [[a|e|] w1]; simpl in *; [done| |done].
  by rewrite Hh.
Qed.

Lemma quiet_mapM {A B} (f : A -> M B) l :
  (forall x, quiet (f x)) -> quiet (mapM f l).
Proof using Type.
  intros Hf. induction l as [|x l IH]; [done|].
  cbn [mapM]. apply quiet_bind; [done|]. intros y.
  apply quiet_bind; [done|]. intros ys. apply quiet_ret.
Qed.

Lemma quiet_foldM {A S} (f : S -> A -> M S) l :
  (forall acc x, quiet (f acc x)) -> forall acc, quiet (foldM f acc l).
Proof using Type.
  intros Hf. induction l as [|x l IH]; intros acc; [done|].
  cbn [foldM]. by apply quiet_bind.
Qed.

Ltac quiet_step :=
  first [ apply quiet_ret | apply quiet_raise | apply quiet_never
        | apply quiet_await | apply quiet_get_vault | apply quiet_put_vault
        | apply quiet_bind; [|intros ?]
        | apply quiet_try_catch; [|intros ?]
        | apply quiet_mapM; intros ?
        | apply quiet_foldM; intros ? ?
        | match goal with
          | |- context [match ?x with _ => _ end] => destruct x
          end ].

Ltac quiet_all := repeat quiet_step.

Lemma quiet_getAbstractFileByPath p : quiet (getAbstractFileByPath p).
Proof using Type. unfold getAbstractFileByPath. quiet_all. Qed.

Lemma quiet_vault_read f : quiet (vault_read f).
Proof using Type.
  unfold vault_read. apply quiet_bind; [apply quiet_getAbstractFileByPath|].
  intros a. quiet_all.
Qed.

Lemma quiet_vault_modify f text : quiet (vault_modify f text).
Proof using Type.
  unfold vault_modify.
  apply quiet_bind; [apply quiet_getAbstractFileByPath|].
  intros a. quiet_all.
Qed.

Lemma quiet_getFrontmatter p : quiet (getFrontmatter p).
Proof using Type.
  unfold getFrontmatter.
  apply quiet_bind; [apply quiet_getAbstractFileByPath|].
  intros a. quiet_all.
Qed.

Lemma quiet_setFrontmatterProperty f prop value :
  quiet (setFrontmatterProperty f prop value).
Proof using Type.
  unfold setFrontmatterProperty.
  apply quiet_bind; [apply quiet_getAbstractFileByPath|].
  intros a. quiet_all.
Qed.

Lemma quiet_vault_create p text : quiet (vault_create rt p text).
Proof using Type.
  unfold vault_create. apply quiet_bind; [apply quiet_get_vault|].
  intros v. apply quiet_bind; [apply quiet_getAbstractFileByPath|].
  intros a. quiet_all.
Qed.

Lemma quiet_getMarkdownFiles : quiet (getMarkdownFiles settings).
Proof using Type.
  unfold getMarkdownFiles, vault_getMarkdownFiles. quiet_all.
Qed.

Lemma quiet_updateYamlCodeBlock f c : quiet (updateYamlCodeBlock f c).
Proof using Type.
  unfold updateYamlCodeBlock. apply quiet_bind; [apply quiet_vault_read|].
  intros text. destruct (updatedContent text c); [|apply quiet_ret].
  apply quiet_bind; [apply quiet_vault_modify|]. intros _. apply quiet_ret.
Qed.

Lemma quiet_checkNotesForMatchingStacks stacks :
  quiet (checkNotesForMatchingStacks settings stacks).
Proof using Type.
  unfold checkNotesForMatchingStacks.
  apply quiet_bind; [apply quiet_getMarkdownFiles|]. intros files.
  apply quiet_bind; [|intros; apply quiet_ret].
  apply quiet_mapM. intros f. unfold update_note.
  apply quiet_try_catch; [|intros; apply quiet_ret].
  apply quiet_bind; [apply quiet_getFrontmatter|]. intros fm.
  destruct (negb _); [apply quiet_ret|].
  destruct (fm !! _) as [[s|l]|]; try apply quiet_ret.
  destruct (stackMap stacks !! s) as [c|]; [|apply quiet_ret].
  destruct (truthy c); [|apply quiet_ret].
  apply quiet_updateYamlCodeBlock.
Qed.

Lemma quiet_findMissingStacks stacks :
  quiet (findMissingStacks settings stacks).
Proof using Type.
  unfold findMissingStacks.
  apply quiet_bind; [apply quiet_getMarkdownFiles|]. intros files.
  apply quiet_bind; [|intros; apply quiet_ret].
  apply quiet_foldM. intros acc f. unfold collect_name.
  apply quiet_try_catch; [|intros; apply quiet_ret].
  apply quiet_bind; [apply quiet_getFrontmatter|]. intros fm.
  destruct (fm !! _) as [[s|l]|]; try apply quiet_ret.
  destruct (truthy s); apply quiet_ret.
Qed.

(** The generation is switched off, or there is no API key. *)
Hypothesis Hoff :
  useAI settings = false \/ truthy (trim (openaiApiKey settings)) = false.

Lemma quiet_generateStackDescription stack :
  useAI settings = true ->
  quiet (generateStackDescription rt settings stack).
Proof using Hoff.
  intros Hon. pose proof Hoff as [Hoff'|Hkey]; [congruence|].
  unfold generateStackDescription. rewrite Hkey.
  apply quiet_try_catch; intros; apply quiet_ret.
Qed.

Lemma quiet_generateStackTags stack :
  useAI settings = true ->
  quiet (generateStackTags rt settings stack).
Proof using Hoff.
  intros Hon. pose proof Hoff as [Hoff'|Hkey]; [congruence|].
  unfold generateStackTags. rewrite Hkey.
  apply quiet_try_catch; intros; apply quiet_ret.
Qed.

Lemma quiet_processTemplate template stack :
  quiet (processTemplate rt settings template stack).
Proof using Hoff.
  unfold processTemplate. apply quiet_bind; [|intros; apply quiet_ret].
  pose proof (quiet_generateStackDescription stack) as Hdescription.
  destruct (useAI settings).
  - rewrite andb_true_r. destruct (includes _ (str "{{about}}"));
      [by apply Hdescription|apply quiet_ret].
  - rewrite andb_false_r. apply quiet_ret.
Qed.

Lemma quiet_create_note template tags folder n stack :
  quiet (create_note rt settings template tags folder n stack).
Proof using Hoff.
  unfold create_note.
  apply quiet_try_catch; [|intros; apply quiet_ret].
  apply quiet_bind; [apply quiet_processTemplate|]. intros text.
  apply quiet_bind; [apply quiet_getAbstractFileByPath|]. intros a.
  destruct a as [a|]; [apply quiet_ret|].
  apply quiet_bind; [apply quiet_vault_create|]. intros f.
  apply quiet_bind; [apply quiet_setFrontmatterProperty|]. intros _.
  apply quiet_bind; [|intros; apply quiet_ret].
  pose proof (quiet_generateStackTags stack) as Htags.
  destruct (useAI settings).
  - rewrite andb_true_r. destruct tags; [|apply quiet_ret].
    apply quiet_bind; [by apply Htags|]. intros l.
    apply quiet_setFrontmatterProperty.
  - rewrite andb_false_r. apply quiet_ret.
Qed.

Lemma quiet_createNotesFromTemplate stacks :
  quiet (createNotesFromTemplate rt settings stacks).
Proof using Hoff.
  unfold createNotesFromTemplate.
  destruct (negb _); [apply quiet_ret|].
  apply quiet_bind; [apply quiet_getAbstractFileByPath|]. intros a.
  destruct a as [[tf|p]|]; try apply quiet_ret.
  apply quiet_bind; [apply quiet_vault_read|]. intros text.
  apply quiet_bind; [apply quiet_getFrontmatter|]. intros fm.
  apply quiet_foldM. intros n stack. apply quiet_create_note.
Qed.
End Quiet.

(** X11. Only the creation of notes talks to the generation API, and
    only with the generation switched on and an API key set: a
    synchronization and a search for missing stacks never send a
    request, and neither does a creation with [useAI] off or with a
    blank key, however each of them ends. *)
Theorem requests_only_from_creation_with_generation
    (rt : Runtime) (settings : DockerToObsiSettings)
    (stacks : list DockerStackFile) (w : World) :
  requests (checkNotesForMatchingStacks settings stacks w).2 = requests w
  /\ requests (findMissingStacks settings stacks w).2 = requests w
  /\ (useAI settings = false \/ truthy (trim (openaiApiKey settings)) = false ->
      requests (createNotesFromTemplate rt settings stacks w).2 = requests w).
Proof.
  split; [apply quiet_checkNotesForMatchingStacks|].
  split; [apply quiet_findMissingStacks|].
  intros Hoff. by apply quiet_createNotesFromTemplate.
Qed.

Lemma requests_only_from_creation_with_generation_witness :
  requests (createNotesFromTemplate Sample.runtime Sample.template_settings
              [Sample.stack "db" "services: {}"]
              (Sample.world Sample.template_vault)).2 = [].
Proof.
  destruct (requests_only_from_creation_with_generation Sample.runtime
              Sample.template_settings [Sample.stack "db" "services: {}"]
              (Sample.world Sample.template_vault)) as (_ & _ & H).
  apply H. by left.
Defined.

(** ** The notes a creation adds *)

Lemma entry_at_None_fresh p (v : list AbstractFile) :
  entry_at p v = None -> p ∉ abstract_path <$> v.
Proof.
  intros H (a & Hp & Ha)%list_elem_of_fmap.
  by apply (find_path_None v p H a).
Qed.

Lemma entry_at_fresh_None p (v : list AbstractFile) :
  p ∉ abstract_path <$> v -> entry_at p v = None.
Proof.
  intros H. unfold entry_at. destruct (List.find _ v) as [a|] eqn:E; [|done].
  apply find_path_Some in E as [Ha Hp]. exfalso. apply H.
  rewrite <- Hp. by apply list_elem_of_fmap_2.
Qed.

Section CreateDetail.
Variable rt : Runtime.
Variable settings : DockerToObsiSettings.
Hypothesis Hresponsive : responsive rt.
Variable templateContent : list ascii.
Variable templateHasTags : bool.
Variable folder : list ascii.

Local Abbreviation step :=
  (create_note rt settings templateContent templateHasTags folder).
Local Abbreviation dest := (destination rt settings folder).

(** The note of a stack: at the destination of the stack, and with
    the name of the stack under the configured key once its
    frontmatter is written. *)
Local Abbreviation note_of stack f :=
  (path f = dest stack
   /\ forall fm, frontmatter f = Some fm ->
        frontmatterProperty settings <> str "tags" ->
        fm !! frontmatterProperty settings = Some (FmString (name stack))).

(** One turn of the loop, with the note it adds. *)
Lemma create_note_detail n stack w :
  exists n' w' created,
    step n stack w = (Returned n', w')
    /\ vault w' = vault w ++ created
    /\ n' = n + length (List.filter written created)
    /\ (created = []
        \/ exists f, created = [File f] /\ note_of stack f
                     /\ entry_at (dest stack) (vault w) = None)
    /\ (entry_at (dest stack) (vault w) = None ->
        create_ok rt (dest stack) = true ->
        (forall text, is_Some (parseFrontMatter rt text)) ->
        exists f, created = [File f] /\ written (File f) = true).
Proof using Hresponsive.
  unfold create_note, try_catch, bind at 1.
  destruct (processTemplate_returns rt settings Hresponsive templateContent
              stack w) as (text & w1 & -> & Hv1).
  unfold bind at 1. rewrite getAbstractFileByPath_run.
  fold (dest stack). fold (entry_at (dest stack) (vault w1)).
  rewrite Hv1.
  destruct (entry_at (dest stack) (vault w)) as [a|] eqn:Hentry.
  { exists n, w1, []. unfold ret. rewrite app_nil_r. simpl.
    split; [done|]. split; [done|]. split; [lia|]. split; [by left|done]. }
  unfold bind at 1, vault_create, bind at 1, get_vault.
  unfold bind at 1. rewrite getAbstractFileByPath_run.
  fold (entry_at (dest stack) (vault w1)).
  rewrite Hv1, Hentry.
  destruct (create_ok rt (dest stack)).
  2:{ exists n, w1, []. unfold raise, ret. rewrite app_nil_r. simpl.
      split; [done|]. split; [done|]. split; [lia|].
      split; [by left|done]. }
  unfold bind at 1, put_vault, ret at 1.
  set (f := {| path := dest stack;
               frontmatter := parseFrontMatter rt text;
               data := text |}).
  unfold bind at 1.
  rewrite (setFrontmatterProperty_last (vault w) (requests w1) f f)
    by done.
  destruct (frontmatter f) as [fm|] eqn:Hfm.
  2:{ eexists n, _, [File f]. unfold ret. split; [done|].
      cbn [vault List.filter written]. rewrite Hfm.
      rewrite bool_decide_eq_false_2 by (by intros [x Hx]).
      split; [done|]. split; [simpl; lia|]. split.
      - right. exists f. split; [done|]. split; [|done].
        split; [done|]. intros fm'. by rewrite Hfm.
      - intros _ _ Hparse. destruct (Hparse text) as [fm' Hfm'].
        subst f. cbn [frontmatter] in Hfm. congruence. }
  destruct (templateHasTags && useAI settings).
  - unfold bind at 1, bind at 1.
    destruct (generateStackTags_returns rt settings Hresponsive stack
                {| vault := vault w ++
                     [File {| path := path f;
                              frontmatter :=
                                Some (<[frontmatterProperty settings :=
                                          FmString (name stack)]> fm);
                              data := data f |}];
                   requests := requests w1 |})
      as (tags & w2 & -> & Hv2).
    destruct w2 as [v2 r2]. cbn [vault] in Hv2. subst v2.
    rewrite (setFrontmatterProperty_last (vault w) r2 _ f) by done.
    cbn [frontmatter]. eexists (S n), _, [_]. unfold bind, ret.
    split; [done|]. split; [reflexivity|].
    cbn [List.filter written frontmatter].
    rewrite bool_decide_eq_true_2 by done.
    split; [simpl; lia|]. split.
    + right. eexists. split; [done|]. split; [|done].
      split; [done|]. cbn [frontmatter]. intros fm' [= <-] Hprop.
      rewrite lookup_insert_ne by done. by rewrite lookup_insert_eq.
    + intros _ _ _. eexists. split; [done|].
      cbn [written frontmatter]. by rewrite bool_decide_eq_true_2.
  - eexists (S n), _, [_]. unfold bind, ret.
    split; [done|]. split; [reflexivity|].
    cbn [List.filter written frontmatter].
    rewrite bool_decide_eq_true_2 by done.
    split; [simpl; lia|]. split.
    + right. eexists. split; [done|]. split; [|done].
      split; [done|]. cbn [frontmatter]. intros fm' [= <-] Hprop.
      by rewrite lookup_insert_eq.
    + intros _ _ _. eexists. split; [done|].
      cbn [written frontmatter]. by rewrite bool_decide_eq_true_2.
Qed.

(** The loop, with what it does for each stack: nothing, or the note
    of the stack added to the vault. *)
Lemma create_loop_detail stacks : forall n w,
  NoDup (abstract_path <$> vault w) ->
  exists n' w' (results : list (option TFile)),
    foldM step n stacks w = (Returned n', w')
    /\ vault w' = vault w ++ (File <$> omap id results)
    /\ n' = n + length (List.filter written (File <$> omap id results))
    /\ NoDup (abstract_path <$> vault w')
    /\ Forall2 (fun stack r => match r with
                               | Some f => note_of stack f
                               | None => True
                               end) stacks results.
Proof using Hresponsive.
  induction stacks as [|stack stacks IH]; intros n w Hnd.
  - exists n, w, []. unfold ret. simpl. rewrite app_nil_r.
    split; [done|]. split; [done|]. split; [lia|]. split; [done|constructor].
  - cbn [foldM]. unfold bind.
    destruct (create_note_detail n stack w)
      as (n1 & w1 & c1 & -> & Hv1 & Hn1 & Hc1 & _).
    assert (NoDup (abstract_path <$> vault w1)) as Hnd1.
    { rewrite Hv1. destruct Hc1 as [->|(f & -> & [Hp _] & Hfresh)];
        [by rewrite app_nil_r|].
      rewrite fmap_app. apply NoDup_app. split; [done|]. split.
      - intros p Hp' [->|[]%elem_of_nil]%elem_of_cons.
        apply entry_at_None_fresh in Hfresh. simpl in Hfresh.
        cbn [abstract_path] in Hp'. by rewrite Hp in Hp'.
      - apply NoDup_singleton. }
    destruct (IH n1 w1 Hnd1) as (n' & w' & rs & -> & Hv2 & Hn2 & Hnd2 & Hall).
    destruct Hc1 as [->|(f & -> & Hnote & _)].
    + exists n', w', (None :: rs). split; [done|].
      rewrite app_nil_r in Hv1.
      change (omap id (None :: rs)) with (omap id rs).
      split; [by rewrite Hv2, Hv1|]. simpl in Hn1. split; [lia|].
      split; [done|]. by constructor.
    + exists n', w', (Some f :: rs). split; [done|].
      change (omap id (Some f :: rs)) with (f :: omap id rs).
      rewrite fmap_cons.
      split; [by rewrite Hv2, Hv1, <- app_assoc|]. split.
      { change (File f :: (File <$> omap id rs))
          with ([File f] ++ (File <$> omap id rs)).
        rewrite List.filter_app, length_app. lia. }
      split; [done|]. by constructor.
Qed.

(** With free and distinct destinations, a host that accepts them and
    a metadata block in every new note, each stack gets its note. *)
Lemma create_loop_success stacks : forall n w,
  (forall text, is_Some (parseFrontMatter rt text)) ->
  Forall (fun stack => create_ok rt (dest stack) = true) stacks ->
  NoDup (dest <$> stacks) ->
  Forall (fun stack => entry_at (dest stack) (vault w) = None) stacks ->
  exists w', foldM step n stacks w = (Returned (n + length stacks), w').
Proof using Hresponsive.
  induction stacks as [|stack stacks IH]; intros n w Hparse Hok Hnd Hfree.
  - exists w. unfold ret. simpl. by rewrite Nat.add_0_r.
  - cbn [foldM]. unfold bind.
    apply Forall_cons in Hok as [Hok1 Hok].
    apply Forall_cons in Hfree as [Hfree1 Hfree].
    rewrite fmap_cons in Hnd. apply NoDup_cons in Hnd as [Hnew Hnd].
    destruct (create_note_detail n stack w)
      as (n1 & w1 & c1 & -> & Hv1 & Hn1 & Hc1 & Hgood).
    destruct (Hgood Hfree1 Hok1 Hparse) as (f & -> & Hwritten).
    destruct Hc1 as [?|(f' & [= <-] & [Hp _] & _)]; [done|].
    destruct (IH n1 w1 Hparse Hok Hnd) as (w' & ->).
    + rewrite Hv1. apply Forall_forall. intros s Hs.
      rewrite Forall_forall in Hfree. specialize (Hfree s Hs).
      apply entry_at_fresh_None. rewrite fmap_app.
      apply not_elem_of_app. split; [by apply entry_at_None_fresh|].
      simpl. rewrite Hp. intros [Heq|[]%elem_of_nil]%elem_of_cons.
      apply Hnew. rewrite <- Heq. by apply list_elem_of_fmap_2.
    + exists w'. f_equal. f_equal. cbn [List.filter] in Hn1.
      rewrite Hwritten in Hn1. simpl in *. lia.
Qed.
End CreateDetail.

Lemma template_lookup_run rt settings stacks w tf fm :
  truthy (trim (templateFilePath settings)) = true ->
  entry_at (trim (templateFilePath settings)) (vault w) = Some (File tf) ->
  frontmatter tf = Some fm ->
  createNotesFromTemplate rt settings stacks w
  = foldM (create_note rt settings (data tf)
             (bool_decide (is_Some (fm !! str "tags")))
             (trim (folderPath settings))) 0 stacks w.
Proof.
  intros Htemplate Hentry Hfm. unfold createNotesFromTemplate.
  rewrite Htemplate. cbn [negb]. unfold bind at 1.
  rewrite getAbstractFileByPath_run.
  fold (entry_at (trim (templateFilePath settings)) (vault w)).
  rewrite Hentry.
  assert (path tf = trim (templateFilePath settings)) as Hpath.
  { by apply find_path_Some in Hentry as [_ Hp]. }
  unfold bind at 1, vault_read, bind at 1.
  rewrite getAbstractFileByPath_run, Hpath.
  fold (entry_at (trim (templateFilePath settings)) (vault w)).
  rewrite Hentry. unfold ret at 1.
  unfold bind at 1, getFrontmatter, bind at 1.
  rewrite getAbstractFileByPath_run.
  fold (entry_at (trim (templateFilePath settings)) (vault w)).
  by rewrite Hentry, Hfm.
Qed.

(** Whatever the template, the loop is all that writes. *)
Lemma createNotesFromTemplate_cases rt settings stacks w :
  createNotesFromTemplate rt settings stacks w = (Returned 0, w)
  \/ createNotesFromTemplate rt settings stacks w = (Raised HostError, w)
  \/ exists tf (fm : Frontmatter),
       createNotesFromTemplate rt settings stacks w
       = foldM (create_note rt settings (data tf)
                  (bool_decide (is_Some (fm !! str "tags")))
                  (trim (folderPath settings))) 0 stacks w.
Proof.
  destruct (truthy (trim (templateFilePath settings))) eqn:Htemplate.
  2:{ left. unfold createNotesFromTemplate. by rewrite Htemplate. }
  destruct (entry_at (trim (templateFilePath settings)) (vault w))
    as [[tf|p]|] eqn:Hentry.
  - destruct (frontmatter tf) as [fm|] eqn:Hfm.
    + right. right. exists tf, fm. by apply template_lookup_run.
    + right. left. unfold createNotesFromTemplate.
      rewrite Htemplate. cbn [negb]. unfold bind at 1.
      rewrite getAbstractFileByPath_run.
      fold (entry_at (trim (templateFilePath settings)) (vault w)).
      rewrite Hentry.
      assert (path tf = trim (templateFilePath settings)) as Hpath.
      { by apply find_path_Some in Hentry as [_ Hp]. }
      unfold bind at 1, vault_read, bind at 1.
      rewrite getAbstractFileByPath_run, Hpath.
      fold (entry_at (trim (templateFilePath settings)) (vault w)).
      rewrite Hentry. unfold ret at 1.
      unfold bind at 1, getFrontmatter, bind at 1.
      rewrite getAbstractFileByPath_run.
      fold (entry_at (trim (templateFilePath settings)) (vault w)).
      by rewrite Hentry, Hfm.
  - left. unfold createNotesFromTemplate. rewrite Htemplate. cbn [negb].
    unfold bind. rewrite getAbstractFileByPath_run.
    fold (entry_at (trim (templateFilePath settings)) (vault w)).
    by rewrite Hentry.
  - left. unfold createNotesFromTemplate. rewrite Htemplate. cbn [negb].
    unfold bind. rewrite getAbstractFileByPath_run.
    fold (entry_at (trim (templateFilePath settings)) (vault w)).
    by rewrite Hentry.
Qed.



(** ** Creating the notes of missing stacks *)

Lemma destination_md rt settings folder stack :
  endsWith (destination rt settings folder stack) (str ".md") = true.
Proof.
  unfold destination, generateFileName.
  destruct (truthy folder); [|apply endsWith_app].
  rewrite app_comm_cons, app_assoc. apply endsWith_app.
Qed.

Lemma destination_in_folder rt settings folder stack :
  negb (truthy folder)
  || startsWith (destination rt settings folder stack) folder = true.
Proof.
  unfold destination. destruct (truthy folder); [|done].
  unfold startsWith. by rewrite strip_prefix_app.
Qed.

Lemma candidates_intro settings (v : list AbstractFile) f :
  File f ∈ v ->
  endsWith (path f) (str ".md") = true ->
  negb (truthy (trim (folderPath settings)))
  || startsWith (path f) (trim (folderPath settings)) = true ->
  f ∈ candidates settings v.
Proof.
  intros Hf Hmd Hfolder. unfold candidates.
  rewrite list_elem_of_In, filter_In. split; [|done].
  apply list_elem_of_In, list_elem_of_omap. exists (File f).
  split; [done|]. by rewrite Hmd.
Qed.

Lemma all_written (rs : list (option TFile)) :
  length rs <= length (List.filter written (File <$> omap id rs)) ->
  Forall (fun r => exists f, r = Some f /\ written (File f) = true) rs.
Proof.
  assert (forall l : list (option TFile),
            length (List.filter written (File <$> omap id l)) <= length l)
    as Hbound.
  { induction l as [|[f|] l IH]; [done| |].
    - change (omap id (Some f :: l)) with (f :: omap id l).
      rewrite fmap_cons. cbn [List.filter].
      destruct (written (File f)); simpl; lia.
    - change (omap id (None :: l)) with (omap id l). simpl. lia. }
  induction rs as [|[f|] rs IH]; intros H; [constructor| |].
  - change (omap id (Some f :: rs)) with (f :: omap id rs) in H.
    rewrite fmap_cons in H. cbn [List.filter] in H.
    pose proof (Hbound rs) as Hrs.
    destruct (written (File f)) eqn:Hw; simpl in H; [|lia].
    constructor; [by exists f|]. apply IH. lia.
  - change (omap id (None :: rs)) with (omap id rs) in H.
    pose proof (Hbound rs) as Hrs. simpl in H. lia.
Qed.

(** The names of the stacks of a creation that counts every stack are
    values of the configured key in the new vault. *)
Lemma created_names_are_values rt settings stacks w w' :
  responsive rt ->
  unique_paths (vault w) = true ->
  frontmatterProperty settings <> str "tags" ->
  createNotesFromTemplate rt settings stacks w
  = (Returned (length stacks), w') ->
  unique_paths (vault w') = true
  /\ (exists created, vault w' = vault w ++ created)
  /\ forall stack, stack ∈ stacks ->
       name stack ∈ frontmatter_values settings
                      (candidates settings (vault w')).
Proof.
  intros Hresponsive Hunique Hkey Hrun.
  destruct (createNotesFromTemplate_cases rt settings stacks w)
    as [Ho|[Ho|(tf & fm & Hloop)]]; [|congruence|].
  { rewrite Ho in Hrun. injection Hrun as Hn <-.
    split; [done|]. split; [exists []; by rewrite app_nil_r|].
    destruct stacks; [|done]. by intros stack []%elem_of_nil. }
  rewrite Hloop in Hrun. clear Hloop.
  pose proof Hunique as Hnd. apply bool_decide_eq_true in Hnd.
  destruct (create_loop_detail rt settings Hresponsive (data tf)
              (bool_decide (is_Some (fm !! str "tags")))
              (trim (folderPath settings)) stacks 0 w Hnd)
    as (n & w1 & rs & Hrun' & Hv & Hn & Hnd' & Hall).
  rewrite Hrun' in Hrun. injection Hrun as -> ->.
  split; [by apply bool_decide_eq_true|]. split; [by eexists|].
  intros stack Hstack.
  apply list_elem_of_lookup in Hstack as [i Hi].
  destruct (Forall2_lookup_l _ _ _ _ _ Hall Hi) as (r & Hr & Hnote).
  assert (Forall (fun r => exists f, r = Some f /\ written (File f) = true) rs)
    as Hwritten.
  { apply all_written. apply Forall2_length in Hall. lia. }
  rewrite Forall_forall in Hwritten.
  destruct (Hwritten r) as (f & -> & Hw);
    [by apply list_elem_of_lookup_2 in Hr|].
  destruct Hnote as [Hpath Hvalue].
  cbn [written] in Hw. apply bool_decide_eq_true in Hw as [fm' Hfm'].
  specialize (Hvalue fm' Hfm' Hkey).
  unfold frontmatter_values. apply elem_of_list_to_set, list_elem_of_omap.
  exists f. split.
  - apply candidates_intro.
    + rewrite Hv. apply elem_of_app. right. apply list_elem_of_fmap_2.
      apply list_elem_of_omap. exists (Some f).
      split; [by apply list_elem_of_lookup_2 in Hr|done].
    + rewrite Hpath. apply destination_md.
    + rewrite Hpath. apply destination_in_folder.
  - unfold key_value. by rewrite Hfm', Hvalue.
Qed.



(** X14. A creation makes a note for every stack it is given, and
    reports their number, when the template is a file of the vault, the
    destinations of the stacks are free and differ from each other, the
    host accepts them and hands out the metadata of each new note, and
    the generation API answers. *)
Theorem creation_succeeds_on_fresh_destinations
    (rt : Runtime) (settings : DockerToObsiSettings)
    (stacks : list DockerStackFile) (w : World)
    (tf : TFile) (fm : Frontmatter) :
  responsive rt ->
  truthy (trim (templateFilePath settings)) = true ->
  entry_at (trim (templateFilePath settings)) (vault w) = Some (File tf) ->
  frontmatter tf = Some fm ->
  (forall text, is_Some (parseFrontMatter rt text)) ->
  Forall (fun stack =>
            create_ok rt (destination rt settings (trim (folderPath settings))
                            stack) = true) stacks ->
  Forall (fun stack =>
            entry_at (destination rt settings (trim (folderPath settings))
                        stack) (vault w) = None) stacks ->
  NoDup (destination rt settings (trim (folderPath settings)) <$> stacks) ->
  exists w',
    createNotesFromTemplate rt settings stacks w
    = (Returned (length stacks), w').
Proof.
  intros Hresponsive Htemplate Hentry Hfm Hparse Hok Hfree Hnd.
  rewrite (template_lookup_run rt settings stacks w tf fm) by done.
  by apply (create_loop_success rt settings Hresponsive (data tf) _ _ stacks 0).
Qed.

Lemma creation_succeeds_on_fresh_destinations_witness :
  exists w',
    createNotesFromTemplate Sample.runtime Sample.template_settings
      [Sample.stack "db" "services: {}"; Sample.stack "cache" "services: {}"]
      (Sample.world Sample.template_vault)
    = (Returned 2, w').
Proof.
  apply (creation_succeeds_on_fresh_destinations Sample.runtime
           Sample.template_settings
           [Sample.stack "db" "services: {}";
            Sample.stack "cache" "services: {}"]
           (Sample.world Sample.template_vault) Sample.template_file ∅).
  - split; intros; discriminate.
  - reflexivity.
  - reflexivity.
  - reflexivity.
  - intros text. by eexists.
  - by repeat constructor.
  - by repeat constructor.
  - vm_compute. repeat constructor; set_solver.
Defined.

(** ** The listing of the repository *)

Section ListingFacts.
Import RepositoryListing.
Variable contents : list ascii -> outcome (list Item).

Local Abbreviation fetch := (RepositoryListing.fetchComposeYamlFiles contents).

Lemma classify_files items : forall acc p,
  p ∈ (foldl classify acc items).1
  <-> p ∈ acc.1
      \/ exists item, item ∈ items /\ is_compose_file item
                      /\ item_path item = p.
Proof using Type.
  induction items as [|x items IH]; intros acc p; cbn [foldl].
  - split; [by left|]. intros [H|(item & []%elem_of_nil & _)]. done.
  - rewrite IH. unfold classify at 1, is_compose_file.
    destruct (bool_decide (item_type x = str "file")) eqn:Hfile;
      [destruct (includes (item_name x) (str "compose.yaml")) eqn:Hname|];
      cbn [andb fst snd].
    + apply bool_decide_eq_true in Hfile. rewrite elem_of_app.
      rewrite list_elem_of_singleton. split.
      * intros [[H| ->]|(item & Hin & Hitem)]; [by left| |].
        -- right. exists x. split; [apply list_elem_of_here|done].
        -- right. exists item. split; [by apply elem_of_cons; right|done].
      * intros [H|(item & [->|Hin]%elem_of_cons & Hitem & <-)];
          [by left; left|by left; right|].
        right. by exists item.
    + assert (forall item, item ∈ x :: items
                /\ (item_type item = str "file"
                    /\ includes (item_name item) (str "compose.yaml") = true)
                /\ item_path item = p
                -> item ∈ items) as Hskip.
      { intros item ([->|Hin]%elem_of_cons & [_ Hinc] & _); [|done].
        congruence. }
      assert (p ∈ (if bool_decide (item_type x = str "dir")
                   then (acc.1, acc.2 ++ [item_path x]) else acc).1
              <-> p ∈ acc.1) as ->
        by (by destruct (bool_decide (item_type x = str "dir"))).
      split.
      * intros [H|(item & Hin & Hitem)]; [by left|].
        right. exists item. split; [by apply elem_of_cons; right|done].
      * intros [H|(item & Hitem)]; [by left|].
        right. exists item. split; [by apply Hskip|].
        by destruct Hitem as (_ & ? & ?).
    + apply bool_decide_eq_false in Hfile.
      assert (p ∈ (if bool_decide (item_type x = str "dir")
                   then (acc.1, acc.2 ++ [item_path x]) else acc).1
              <-> p ∈ acc.1) as ->
        by (by destruct (bool_decide (item_type x = str "dir"))).
      split.
      * intros [H|(item & Hin & Hitem)]; [by left|].
        right. exists item. split; [by apply elem_of_cons; right|done].
      * intros [H|(item & [->|Hin]%elem_of_cons & [Ht Hinc] & Hp)];
          [by left|done|].
        right. by exists item.
Qed.

Lemma classify_directories items : forall acc d,
  d ∈ (foldl classify acc items).2
  <-> d ∈ acc.2
      \/ exists item, item ∈ items /\ is_directory item
                      /\ item_path item = d.
Proof using Type.
  induction items as [|x items IH]; intros acc d; cbn [foldl].
  - split; [by left|]. intros [H|(item & []%elem_of_nil & _)]. done.
  - rewrite IH. unfold classify at 1, is_directory.
    destruct (bool_decide (item_type x = str "file")
              && includes (item_name x) (str "compose.yaml")) eqn:Hfile.
    + apply andb_true_iff in Hfile as [Hfile%bool_decide_eq_true _].
      cbn [snd]. split.
      * intros [H|(item & Hin & Hitem)]; [by left|].
        right. exists item. split; [by apply elem_of_cons; right|done].
      * intros [H|(item & [->|Hin]%elem_of_cons & Ht & Hp)]; [by left| |].
        -- rewrite Hfile in Ht. discriminate.
        -- right. by exists item.
    + destruct (bool_decide (item_type x = str "dir")) eqn:Hdir; cbn [snd].
      * apply bool_decide_eq_true in Hdir. rewrite elem_of_app.
        rewrite list_elem_of_singleton. split.
        -- intros [[H| ->]|(item & Hin & Hitem)]; [by left| |].
           ++ right. exists x. split; [apply list_elem_of_here|done].
           ++ right. exists item.
              split; [by apply elem_of_cons; right|done].
        -- intros [H|(item & [->|Hin]%elem_of_cons & Hitem & <-)];
             [by left; left|by left; right|].
           right. by exists item.
      * apply bool_decide_eq_false in Hdir. split.
        -- intros [H|(item & Hin & Hitem)]; [by left|].
           right. exists item. split; [by apply elem_of_cons; right|done].
        -- intros [H|(item & [->|Hin]%elem_of_cons & Ht & Hp)];
             [by left|done|].
           right. by exists item.
Qed.

Lemma foldl_concat {A} (subs : list (list A)) : forall files,
  foldl (fun files subFiles => files ++ subFiles) files subs
  = files ++ concat subs.
Proof using Type.
  induction subs as [|s subs IH]; intros files; cbn [foldl concat].
  - by rewrite app_nil_r.
  - by rewrite IH, app_assoc.
Qed.

Lemma elem_of_concat {A} (x : A) (ls : list (list A)) :
  x ∈ concat ls <-> exists l, x ∈ l /\ l ∈ ls.
Proof using Type.
  induction ls as [|l ls IH]; cbn [concat].
  - split; [by intros []%elem_of_nil|by intros (l & _ & []%elem_of_nil)].
  - rewrite elem_of_app, IH. split.
    + intros [H|(l' & H & Hl')].
      * exists l. split; [done|apply list_elem_of_here].
      * exists l'. split; [done|by apply elem_of_cons; right].
    + intros (l' & H & [->|Hl']%elem_of_cons); [by left|].
      right. by exists l'.
Qed.

Lemma directories_found items d :
  d ∈ (foldl classify ([], []) items).2
  <-> exists item, item ∈ items /\ is_directory item /\ item_path item = d.
Proof using Type.
  rewrite classify_directories. cbn [snd]. split; [|by right].
  by intros [[]%elem_of_nil|H].
Qed.

Lemma files_found items p :
  p ∈ (foldl classify ([], []) items).1
  <-> exists item, item ∈ items /\ is_compose_file item
                   /\ item_path item = p.
Proof using Type.
  rewrite classify_files. cbn [fst]. split; [|by right].
  by intros [[]%elem_of_nil|H].
Qed.

(** One level of the listing, when it returns. *)
Lemma fetch_Returned levels root files :
  fetch (S levels) root = Returned files ->
  exists items subs,
    contents root = Returned items
    /\ Forall2 (fun d sub => fetch levels d = Returned sub)
         (foldl classify ([], []) items).2 subs
    /\ files = (foldl classify ([], []) items).1 ++ concat subs.
Proof using Type.
  cbn [RepositoryListing.fetchComposeYamlFiles].
  destruct (contents root) as [items| |]; [|done|done].
  destruct (0 <? length (foldl classify ([], []) items).2)%nat eqn:Hlen.
  - destruct (promise_all _) as [subs| |] eqn:Hall; [|done|done].
    intros [= <-]. exists items, subs. split; [done|].
    apply promise_all_Returned in Hall. apply Forall2_fmap_l in Hall.
    split; [done|apply foldl_concat].
  - apply Nat.ltb_ge in Hlen. intros [= <-].
    destruct (foldl classify ([], []) items).2 as [|d ds] eqn:Hd;
      [|simpl in Hlen; lia].
    exists items, []. rewrite Hd. split; [done|]. split; [constructor|].
    simpl. by rewrite app_nil_r.
Qed.
End ListingFacts.

(** X15. When the listing returns, it returns the compose files of the
    repository and nothing else: a path is in the result exactly when
    it is the path of a file whose name holds [compose.yaml], listed in
    the starting directory or in a directory reached from it. *)
Theorem listing_finds_exactly_the_compose_files
    (contents : list ascii -> outcome (list RepositoryListing.Item))
    (levels : nat) (root : list ascii) (files : list (list ascii)) :
  RepositoryListing.fetchComposeYamlFiles contents levels root
  = Returned files ->
  forall p,
    p ∈ files
    <-> exists n dir items item,
          RepositoryListing.reached contents n root dir
          /\ contents dir = Returned items
          /\ item ∈ items
          /\ RepositoryListing.is_compose_file item
          /\ RepositoryListing.item_path item = p.
Proof.
  revert root files. induction levels as [|levels IH]; intros root files H p;
    [done|].
  apply fetch_Returned in H as (items & subs & Hitems & Hsubs & ->).
  rewrite elem_of_app, files_found. split.
  - intros [(item & Hin & Hitem & Hp)|Hp].
    + exists 0, root, items, item. split; [constructor|done].
    + apply elem_of_concat in Hp as (sub & Hp & Hsub).
      apply list_elem_of_lookup in Hsub as [i Hi].
      destruct (Forall2_lookup_r _ _ _ _ _ Hsubs Hi) as (d & Hd & Hfetch).
      apply list_elem_of_lookup_2, directories_found in Hd
        as (item & Hin & Hdir & <-).
      apply (IH _ _ Hfetch) in Hp as (n & dir & items' & item' & Hreach & Hrest).
      exists (S n), dir, items', item'. split; [|done].
      by apply (RepositoryListing.reached_below contents n root items item).
  - intros (n & dir & items' & item & Hreach & Hdir & Hin & Hitem & Hp).
    inversion Hreach as [|n' root' items0 item0 dir' Hitems0 Hin0 Hdir0 Hbelow];
      subst.
    + left. rewrite Hitems in Hdir. injection Hdir as <-. by exists item.
    + right. rewrite Hitems in Hitems0. injection Hitems0 as <-.
      assert (RepositoryListing.item_path item0
              ∈ (foldl RepositoryListing.classify ([], []) items).2) as Hd.
      { apply directories_found. by exists item0. }
      apply list_elem_of_lookup in Hd as [i Hi].
      destruct (Forall2_lookup_l _ _ _ _ _ Hsubs Hi) as (sub & Hsub & Hfetch).
      apply elem_of_concat. exists sub.
      split; [|by apply list_elem_of_lookup_2 in Hsub].
      apply (IH _ _ Hfetch). by exists n', dir, items', item.
Qed.

Lemma listing_finds_exactly_the_compose_files_witness :
  str "web/docker-compose.yaml"
  ∈ [str "compose.yaml"; str "web/docker-compose.yaml"]
  <-> exists n dir items item,
        RepositoryListing.reached Cases.repository n [] dir
        /\ Cases.repository dir = Returned items
        /\ item ∈ items
        /\ RepositoryListing.is_compose_file item
        /\ RepositoryListing.item_path item = str "web/docker-compose.yaml".
Proof.
  apply (listing_finds_exactly_the_compose_files Cases.repository 2).
  vm_compute. reflexivity.
Defined.

(** X16. The listing returns for a repository of finite depth: when
    every directory reached from the start lies less than [depth] levels
    below it and has a listing, the recursion ends with a list of files,
    the same for every bound of at least [depth] levels. *)
Theorem listing_returns_for_a_finite_tree
    (contents : list ascii -> outcome (list RepositoryListing.Item))
    (depth : nat) (root : list ascii) :
  (forall n dir,
     RepositoryListing.reached contents n root dir ->
     n < depth /\ exists items, contents dir = Returned items) ->
  exists files,
    forall levels, depth <= levels ->
      RepositoryListing.fetchComposeYamlFiles contents levels root
      = Returned files.
Proof.
  revert root. induction depth as [|depth IH]; intros root Htree.
  { destruct (Htree 0 root) as [Hlt _]; [constructor|lia]. }
  destruct (Htree 0 root) as [_ [items Hitems]]; [constructor|].
  assert (forall d, d ∈ (foldl RepositoryListing.classify ([], []) items).2 ->
            exists sub, forall levels, depth <= levels ->
              RepositoryListing.fetchComposeYamlFiles contents levels d
              = Returned sub) as Hsub.
  { intros d (item & Hin & Hdir & <-)%directories_found.
    apply IH. intros n dir Hreach.
    destruct (Htree (S n) dir) as [Hlt Hlist].
    - by apply (RepositoryListing.reached_below contents n root items item).
    - split; [lia|done]. }
  assert (exists subs,
            Forall2 (fun d sub => forall levels, depth <= levels ->
                       RepositoryListing.fetchComposeYamlFiles contents levels d
                       = Returned sub)
              (foldl RepositoryListing.classify ([], []) items).2 subs)
    as [subs Hsubs].
  { induction (foldl RepositoryListing.classify ([], []) items).2
      as [|d ds IHds].
    - exists []. constructor.
    - destruct (Hsub d) as [sub Hd]; [apply list_elem_of_here|].
      destruct IHds as [subs Hds].
      + intros d' Hd'. apply Hsub. by apply elem_of_cons; right.
      + exists (sub :: subs). by constructor. }
  exists ((foldl RepositoryListing.classify ([], []) items).1
          ++ (if (0 <? length (foldl RepositoryListing.classify ([], [])
                                 items).2)%nat
              then concat subs else [])).
  intros [|levels] Hle; [lia|].
  cbn [RepositoryListing.fetchComposeYamlFiles]. rewrite Hitems.
  destruct (0 <? length _)%nat; [|by rewrite app_nil_r].
  assert (promise_all
            (map (RepositoryListing.fetchComposeYamlFiles contents levels)
               (foldl RepositoryListing.classify ([], []) items).2)
          = Returned subs) as ->.
  { apply promise_all_Returned. apply Forall2_fmap_l.
    eapply Forall2_impl; [exact Hsubs|]. intros d sub Hd. apply Hd. lia. }
  by rewrite foldl_concat.
Qed.

Lemma listing_returns_for_a_finite_tree_witness :
  exists files,
    forall levels, 2 <= levels ->
      RepositoryListing.fetchComposeYamlFiles Cases.repository levels []
      = Returned files.
Proof.
  apply listing_returns_for_a_finite_tree.
  intros n dir Hreach.
  inversion Hreach as [|n1 r1 items1 item1 d1 Hitems1 Hin1 Hdir1 Hbelow1];
    subst.
  { split; [lia|]. by eexists. }
  vm_compute in Hitems1. injection Hitems1 as <-.
  assert (item1 = Cases.item "dir" "web" "web"
          \/ item1 = Cases.item "dir" "docs" "docs") as Hitem.
  { unfold RepositoryListing.is_directory in Hdir1.
    repeat (apply elem_of_cons in Hin1 as [->|Hin1];
            [first [discriminate Hdir1 | by left | by right]|]).
    by apply elem_of_nil in Hin1. }
  inversion Hbelow1 as [|n2 r2 items2 item2 d2 Hitems2 Hin2 Hdir2 Hbelow2];
    subst.
  { split; [lia|]. destruct Hitem as [->| ->]; by eexists. }
  exfalso. unfold RepositoryListing.is_directory in Hdir2.
  destruct Hitem as [->| ->]; vm_compute in Hitems2; injection Hitems2 as <-.
  - apply elem_of_cons in Hin2 as [->|Hin2]; [discriminate Hdir2|].
    by apply elem_of_nil in Hin2.
  - by apply elem_of_nil in Hin2.
Defined.

(** X17. The listing gives no partial result: when the listing of one
    directory reached from the start fails, the whole listing fails,
    however many levels it is given beyond that directory. *)
Theorem listing_fails_with_a_directory
    (contents : list ascii -> outcome (list RepositoryListing.Item))
    (n levels : nat) (root dir : list ascii) (e : Error) :
  RepositoryListing.reached contents n root dir ->
  contents dir = Raised e ->
  n < levels ->
  exists e',
    RepositoryListing.fetchComposeYamlFiles contents levels root = Raised e'.
Proof.
  intros Hreach Hfail. revert levels.
  induction Hreach as [root|n root items item dir Hitems Hin Hdir _ IH];
    intros [|levels] Hlt; try lia;
    cbn [RepositoryListing.fetchComposeYamlFiles].
  - rewrite Hfail. by eexists.
  - rewrite Hitems.
    assert (RepositoryListing.item_path item
            ∈ (foldl RepositoryListing.classify ([], []) items).2) as Hd.
    { apply directories_found. by exists item. }
    destruct (IH Hfail levels) as [e' He']; [lia|].
    destruct (promise_all_Raised
                (map (RepositoryListing.fetchComposeYamlFiles contents levels)
                   (foldl RepositoryListing.classify ([], []) items).2) e')
      as (e'' & Hall & _).
    { apply list_elem_of_fmap. eexists. split; [|exact Hd]. by rewrite He'. }
    rewrite Hall.
    destruct (foldl RepositoryListing.classify ([], []) items).2 as [|d ds];
      [by apply elem_of_nil in Hd|].
    by eexists.
Qed.

Lemma listing_fails_with_a_directory_witness :
  exists e',
    RepositoryListing.fetchComposeYamlFiles Cases.broken_repository 5 []
    = Raised e'.
Proof.
  apply (listing_fails_with_a_directory Cases.broken_repository 1 5 []
           (str "docs") HttpError).
  - apply (RepositoryListing.reached_below _ 0 []
             [Cases.item "file" "compose.yaml" "compose.yaml";
              Cases.item "file" "README.md" "README.md";
              Cases.item "dir" "web" "web";
              Cases.item "dir" "docs" "docs"]
             (Cases.item "dir" "docs" "docs")).
    + reflexivity.
    + set_solver.
    + reflexivity.
    + constructor.
  - reflexivity.
  - lia.
Defined.

(** ** The selection dialog *)

Section DialogFacts.
Import StackSelectionModal.
Variable sort : list DockerStackFile -> list DockerStackFile.
Hypothesis Hsort : forall l, sort l ≡ₚ l.
Variable listed : list DockerStackFile.

Lemma refresh_from_run m boxes : forall index,
  index + length boxes <= length (stacks m) ->
  refresh_from m index boxes
  = Some (has (selectedStacks m)
            <$> take (length boxes) (drop index (stacks m))).
Proof using Type.
  induction boxes as [|b boxes IH]; intros index Hlen; [done|].
  cbn [refresh_from length]. simpl in Hlen.
  destruct (lookup_lt_is_Some_2 (stacks m) index) as [stack Hstack]; [lia|].
  rewrite Hstack. cbn [mbind option_bind]. rewrite IH by lia.
  cbn [mbind option_bind]. f_equal.
  rewrite (drop_S _ stack index) by done. by rewrite firstn_cons, fmap_cons.
Qed.

Lemma refreshCheckboxes_run m :
  length (checkboxes m) = length (stacks m) ->
  refreshCheckboxes m
  = Some {| stacks := stacks m;
            selectedStacks := selectedStacks m;
            checkboxes := has (selectedStacks m) <$> stacks m |}.
Proof using Type.
  intros Hlen. unfold refreshCheckboxes. rewrite refresh_from_run by lia.
  cbn [mbind option_bind]. rewrite drop_0, Hlen. by rewrite firstn_all.
Qed.

(** What holds of the dialog whatever the user does: it lists the
    stacks it was opened with, it has one check mark for each, it
    selects names of listed stacks only, and with distinct names the
    check marks show the selection. *)
Local Abbreviation well_formed m :=
  (stacks m = sort listed
   /\ length (checkboxes m) = length (stacks m)
   /\ selectedStacks m ⊆ list_to_set (name <$> listed)
   /\ (NoDup (name <$> listed) ->
       checkboxes m = has (selectedStacks m) <$> stacks m)).

Lemma names_sorted : name <$> sort listed ≡ₚ name <$> listed.
Proof using Hsort. by rewrite Hsort. Qed.

Lemma opened_well_formed : well_formed (opened sort listed).
Proof using Hsort.
  unfold opened, onOpen, constructor. cbn [stacks selectedStacks checkboxes].
  split; [done|]. split; [by rewrite length_fmap|]. split; [done|done].
Qed.

Lemma toggleSelection_well_formed index m :
  well_formed m -> well_formed (toggleSelection index m).
Proof using Hsort.
  intros (Hstacks & Hlen & Hsub & Hboxes). unfold toggleSelection.
  destruct (stacks m !! index) as [stack|] eqn:Hstack; [|done].
  cbn [stacks selectedStacks checkboxes].
  split; [done|]. split; [by rewrite length_insert|].
  assert (name stack ∈ (list_to_set (name <$> listed) : gset (list ascii)))
    as Hname.
  { apply elem_of_list_to_set. rewrite <- names_sorted, <- Hstacks.
    apply list_elem_of_fmap_2. by apply list_elem_of_lookup_2 in Hstack. }
  split.
  { destruct (has (selectedStacks m) stack); set_solver. }
  intros Hnd. rewrite (Hboxes Hnd). apply list_eq. intros j.
  rewrite list_lookup_fmap.
  destruct (decide (j = index)) as [->|Hne].
  - rewrite list_lookup_insert_eq
      by (rewrite length_fmap; by apply lookup_lt_Some in Hstack).
    by rewrite Hstack.
  - rewrite list_lookup_insert_ne by done. rewrite list_lookup_fmap.
    destruct (stacks m !! j) as [other|] eqn:Hother; [|done].
    cbn [fmap option_fmap option_map]. f_equal.
    assert (name other <> name stack) as Hnames.
    { intros Heq. apply Hne.
      rewrite <- names_sorted, <- Hstacks in Hnd.
      apply (NoDup_lookup _ j index (name other) Hnd).
      - by rewrite list_lookup_fmap, Hother.
      - by rewrite list_lookup_fmap, Hstack, Heq. }
    unfold has. apply bool_decide_ext.
    destruct (bool_decide (name stack ∈ selectedStacks m)); set_solver.
Qed.

Lemma handle_well_formed m e :
  well_formed m -> exists m', handle m e = Some m' /\ well_formed m'.
Proof using Hsort.
  intros Hm. destruct e as [| |index]; cbn [handle].
  - destruct Hm as (Hstacks & Hlen & Hsub & Hboxes).
    unfold selectAll. rewrite refreshCheckboxes_run by done.
    eexists. split; [done|]. cbn [stacks selectedStacks checkboxes].
    split; [done|]. split; [by rewrite length_fmap|]. split; [|done].
    rewrite Hstacks. intros x Hx. apply elem_of_list_to_set in Hx.
    apply elem_of_list_to_set. by rewrite <- names_sorted.
  - destruct Hm as (Hstacks & Hlen & Hsub & Hboxes).
    unfold selectNone. rewrite refreshCheckboxes_run by done.
    eexists. split; [done|]. cbn [stacks selectedStacks checkboxes].
    split; [done|]. split; [by rewrite length_fmap|]. split; [|done].
    set_solver.
  - eexists. split; [done|]. by apply toggleSelection_well_formed.
Qed.

Lemma handle_all_well_formed events : forall m,
  well_formed m ->
  exists m', handle_all m events = Some m' /\ well_formed m'.
Proof using Hsort.
  induction events as [|e events IH]; intros m Hm; [by exists m|].
  cbn [handle_all].
  destruct (handle_well_formed m e Hm) as (m1 & -> & Hm1).
  cbn [mbind option_bind]. by apply IH.
Qed.

Lemma filter_all {A} (P : A -> bool) (l : list A) :
  Forall (fun x => P x = true) l -> List.filter P l = l.
Proof using Type.
  induction 1 as [|x l Hx _ IH]; [done|]. simpl. by rewrite Hx, IH.
Qed.

Lemma filter_none {A} (P : A -> bool) (l : list A) :
  Forall (fun x => P x = false) l -> List.filter P l = [].
Proof using Type.
  induction 1 as [|x l Hx _ IH]; [done|]. simpl. by rewrite Hx, IH.
Qed.

Lemma opened_submits_all :
  selectedStackObjects (opened sort listed) = sort listed.
Proof using Hsort.
  apply filter_all, Forall_forall. intros s Hs.
  apply bool_decide_eq_true, elem_of_list_to_set.
  apply list_elem_of_fmap_2. by rewrite <- (Hsort listed).
Qed.

Lemma handle_all_snoc events e : forall m,
  handle_all m (events ++ [e])
  = m' ← handle_all m events; handle m' e.
Proof using Type.
  induction events as [|x events IH]; intros m.
  - simpl. by destruct (handle m e).
  - simpl. destruct (handle m x) as [m1|]; [|done]. apply IH.
Qed.
End DialogFacts.

(** X18. Whatever the user clicks in the dialog, it goes on working and
    stays in order: every click is handled, the dialog lists the stacks
    it was opened with, only names of listed stacks are selected, and,
    when no two stacks share a name, each check mark shows whether its
    stack is selected. (The sort is taken to reorder the stacks.) *)
Theorem dialog_stays_in_order
    (sort : list DockerStackFile -> list DockerStackFile)
    (listed : list DockerStackFile)
    (events : list StackSelectionModal.Event) :
  (forall l, sort l ≡ₚ l) ->
  exists m,
    StackSelectionModal.handle_all (StackSelectionModal.opened sort listed)
      events = Some m
    /\ StackSelectionModal.stacks m = sort listed
    /\ StackSelectionModal.selectedStacks m
       ⊆ list_to_set (name <$> listed)
    /\ (NoDup (name <$> listed) ->
        StackSelectionModal.checkboxes m
        = StackSelectionModal.has (StackSelectionModal.selectedStacks m)
            <$> StackSelectionModal.stacks m).
Proof.
  intros Hsort.
  destruct (handle_all_well_formed sort Hsort listed events
              (StackSelectionModal.opened sort listed))
    as (m & Hm & H1 & _ & H3 & H4); [by apply opened_well_formed|].
  by exists m.
Qed.

Lemma dialog_stays_in_order_witness :
  exists m,
    StackSelectionModal.handle_all
      (StackSelectionModal.opened (fun l => l)
         [Sample.stack "web" "a"; Sample.stack "db" "b"])
      [StackSelectionModal.Toggle 1; StackSelectionModal.SelectNone;
       StackSelectionModal.Toggle 0]
    = Some m
    /\ StackSelectionModal.stacks m
       = [Sample.stack "web" "a"; Sample.stack "db" "b"].
Proof.
  destruct (dialog_stays_in_order (fun l => l)
              [Sample.stack "web" "a"; Sample.stack "db" "b"]
              [StackSelectionModal.Toggle 1; StackSelectionModal.SelectNone;
               StackSelectionModal.Toggle 0])
    as (m & H1 & H2 & _); [done|].
  by exists m.
Defined.

(** X19. What [Create Selected] submits: every listed stack when
    nothing was clicked or [Select All] came last, no stack when
    [Select None] came last, and in every case stacks of the list,
    those of a same name all together or not at all. *)
Theorem dialog_submits_the_selected_stacks
    (sort : list DockerStackFile -> list DockerStackFile)
    (listed : list DockerStackFile)
    (events : list StackSelectionModal.Event) (m : StackSelectionModal.Modal) :
  (forall l, sort l ≡ₚ l) ->
  StackSelectionModal.handle_all (StackSelectionModal.opened sort listed)
    events = Some m ->
  (events = [] \/ last events = Some StackSelectionModal.SelectAll ->
   StackSelectionModal.selectedStackObjects m = sort listed)
  /\ (last events = Some StackSelectionModal.SelectNone ->
      StackSelectionModal.selectedStackObjects m = [])
  /\ (forall stack,
        stack ∈ StackSelectionModal.selectedStackObjects m ->
        stack ∈ listed
        /\ forall other, other ∈ listed -> name other = name stack ->
             other ∈ StackSelectionModal.selectedStackObjects m).
Proof.
  intros Hsort Hrun.
  assert (forall l : list DockerStackFile,
            List.filter (StackSelectionModal.has (list_to_set (name <$> l))) l
            = l) as Hall.
  { intros l. apply filter_all, Forall_forall. intros s Hs.
    apply bool_decide_eq_true, elem_of_list_to_set.
    by apply list_elem_of_fmap_2. }
  split; [|split].
  - intros [->|Hlast].
    + injection Hrun as <-. by apply opened_submits_all.
    + apply last_Some in Hlast as [events' ->].
      rewrite handle_all_snoc in Hrun.
      destruct (handle_all_well_formed sort Hsort listed events'
                  (StackSelectionModal.opened sort listed))
        as (m1 & Hm1 & Hstacks & Hlen & _); [by apply opened_well_formed|].
      rewrite Hm1 in Hrun. cbn [mbind option_bind] in Hrun.
      cbn [StackSelectionModal.handle] in Hrun.
      unfold StackSelectionModal.selectAll in Hrun.
      rewrite refreshCheckboxes_run in Hrun by done.
      injection Hrun as <-.
      unfold StackSelectionModal.selectedStackObjects.
      cbn [StackSelectionModal.stacks StackSelectionModal.selectedStacks].
      by rewrite Hall.
  - intros Hlast. apply last_Some in Hlast as [events' ->].
    rewrite handle_all_snoc in Hrun.
    destruct (handle_all_well_formed sort Hsort listed events'
                (StackSelectionModal.opened sort listed))
      as (m1 & Hm1 & Hstacks & Hlen & _); [by apply opened_well_formed|].
    rewrite Hm1 in Hrun. cbn [mbind option_bind] in Hrun.
    cbn [StackSelectionModal.handle] in Hrun.
    unfold StackSelectionModal.selectNone in Hrun.
    rewrite refreshCheckboxes_run in Hrun by done.
    injection Hrun as <-.
    unfold StackSelectionModal.selectedStackObjects.
    cbn [StackSelectionModal.stacks StackSelectionModal.selectedStacks].
    apply filter_none, Forall_forall. intros s _.
    apply bool_decide_eq_false. set_solver.
  - intros stack Hstack.
    destruct (handle_all_well_formed sort Hsort listed events
                (StackSelectionModal.opened sort listed))
      as (m1 & Hm1 & Hstacks & _); [by apply opened_well_formed|].
    rewrite Hm1 in Hrun. injection Hrun as ->.
    unfold StackSelectionModal.selectedStackObjects in *.
    rewrite list_elem_of_In, filter_In in Hstack.
    destruct Hstack as [Hin Hsel]. rewrite <- list_elem_of_In in Hin.
    rewrite Hstacks, Hsort in Hin. split; [done|].
    intros other Hother Hname.
    rewrite list_elem_of_In, filter_In. split.
    + rewrite <- list_elem_of_In, Hstacks. by rewrite Hsort.
    + unfold StackSelectionModal.has in *. by rewrite Hname.
Qed.

Lemma dialog_submits_the_selected_stacks_witness :
  StackSelectionModal.selectedStackObjects
    (StackSelectionModal.opened (fun l => l)
       [Sample.stack "web" "a"; Sample.stack "db" "b"])
  = [Sample.stack "web" "a"; Sample.stack "db" "b"].
Proof.
  destruct (dialog_submits_the_selected_stacks (fun l => l)
              [Sample.stack "web" "a"; Sample.stack "db" "b"] []
              (StackSelectionModal.opened (fun l => l)
                 [Sample.stack "web" "a"; Sample.stack "db" "b"]))
    as (H & _); [done|reflexivity|].
  apply H. by left.
Defined.

(** ** The commands *)

Lemma fetchAllComposeStackFiles_world rt w :
  (fetchAllComposeStackFiles rt w).2 = w.
Proof.
  unfold fetchAllComposeStackFiles, bind, await.
  by destruct (Host.fetchComposeYamlFiles rt).
Qed.

Section CommandFacts.
Import CommandManager.
Variable rt : Runtime.
Variable settings : DockerToObsiSettings.

Local Abbreviation start w := {| world := w; shown := [] |}.
Local Abbreviation fetching :=
  [StatusBarItem; SetText (str "Fetching docker stacks...")].

(** The synchronization command, step by step. *)
Lemma dockerToObsiCommand_run w :
  unique_paths (vault w) = true ->
  dockerToObsiCommand rt settings (start w)
  = match (fetchAllComposeStackFiles rt w).1 with
    | Returned stacks =>
        if (length stacks =? 0)%nat
        then (Returned tt,
              {| world := w;
                 shown := fetching
                   ++ [Notice (str "No Docker stacks found."); Remove] |})
        else
          match checkNotesForMatchingStacks settings stacks w with
          | (Returned updatedCount, w') =>
              (Returned tt,
               {| world := w';
                  shown := fetching
                    ++ [Notice (str "Found " ++ decimal (length stacks)
                                  ++ str " Docker stacks.");
                        SetText
                          (str "Updating docker stacks in obsidian files...");
                        Notice
                          (if (0 <? updatedCount)%nat
                           then str "Successfully updated "
                                ++ decimal updatedCount ++ str " note"
                                ++ plural updatedCount
                                ++ str " with Docker stack content."
                           else str "No matching notes found to update.");
                        Remove] |})
          | (_, w') => (Pending, start w')
          end
    | Raised _ =>
        (Returned tt,
         {| world := w;
            shown := fetching
              ++ [Notice (str "Failed to fetch file content from GitHub.");
                  Remove] |})
    | Pending => (Pending, {| world := w; shown := fetching |})
    end.
Proof using Type.
  intros Hunique.
  pose proof (fetchAllComposeStackFiles_world rt w) as Hworld.
  unfold dockerToObsiCommand, and_then at 1, show at 1.
  unfold and_then at 1, show at 1. cbn [world shown app].
  unfold finally, catch, and_then at 1, lift at 1. cbn [world shown].
  destruct (fetchAllComposeStackFiles rt w) as [[stacks|e|] w1];
    cbn [fst snd] in *; subst w1; [|done|done].
  destruct (length stacks =? 0)%nat; [done|].
  unfold and_then at 1, show at 1. unfold and_then at 1, show at 1.
  unfold and_then at 1, lift at 1. cbn [world shown].
  rewrite checkNotesForMatchingStacks_run by done.
  by destruct (0 <? _)%nat.
Qed.

(** The search command, step by step. *)
Lemma createMissingDockerNotesCommand_run w :
  unique_paths (vault w) = true ->
  createMissingDockerNotesCommand rt settings (start w)
  = match (fetchAllComposeStackFiles rt w).1 with
    | Returned stacks =>
        if (length stacks =? 0)%nat
        then (Returned tt,
              {| world := w;
                 shown := fetching
                   ++ [Notice (str "No Docker stacks found."); Remove] |})
        else
          match findMissingStacks settings stacks w with
          | (Returned missingStacks, _) =>
              (Returned tt,
               {| world := w;
                  shown := fetching
                    ++ SetText (str "Finding missing Docker stack notes...")
                    :: (if (length missingStacks =? 0)%nat
                        then [Notice
                                (str "All Docker stacks already have corresponding notes.");
                              Remove]
                        else [Remove; ModalOpen missingStacks; Remove]) |})
          | (_, w') => (Pending, start w')
          end
    | Raised _ =>
        (Returned tt,
         {| world := w;
            shown := fetching
              ++ [Notice
                    (str "Failed to create Docker notes. Check console for details.");
                  Remove] |})
    | Pending => (Pending, {| world := w; shown := fetching |})
    end.
Proof using Type.
  intros Hunique.
  pose proof (fetchAllComposeStackFiles_world rt w) as Hworld.
  unfold createMissingDockerNotesCommand, and_then at 1, show at 1.
  unfold and_then at 1, show at 1. cbn [world shown app].
  unfold finally, catch, and_then at 1, lift at 1. cbn [world shown].
  destruct (fetchAllComposeStackFiles rt w) as [[stacks|e|] w1];
    cbn [fst snd] in *; subst w1; [|done|done].
  destruct (length stacks =? 0)%nat; [done|].
  unfold and_then at 1, show at 1.
  unfold and_then at 1, lift at 1. cbn [world shown].
  destruct (findMissingStacks_run settings w stacks Hunique)
    as (existing & -> & _).
  by destruct (length _ =? 0)%nat.
Qed.
End CommandFacts.

(** X20. The synchronization command always reports. When the fetch
    answers, the command ends without an exception, removes its status
    bar item, shows at least one notice, sends no request and keeps the
    paths of the vault; and it shows the notice of a failed fetch
    exactly when the fetch failed: the synchronization itself cannot
    fail. *)
Theorem sync_command_always_reports
    (rt : Runtime) (settings : DockerToObsiSettings) (w : World) :
  unique_paths (vault w) = true ->
  (fetchAllComposeStackFiles rt w).1 <> Pending ->
  exists trace w',
    CommandManager.dockerToObsiCommand rt settings
      {| CommandManager.world := w; CommandManager.shown := [] |}
    = (Returned tt,
       {| CommandManager.world := w'; CommandManager.shown := trace |})
    /\ CommandManager.status_items 0 trace = 0
    /\ CommandManager.notices trace <> []
    /\ requests w' = requests w
    /\ abstract_path <$> vault w' = abstract_path <$> vault w
    /\ ((exists e, (fetchAllComposeStackFiles rt w).1 = Raised e)
        <-> CommandManager.notices trace
            = [str "Failed to fetch file content from GitHub."]).
Proof.
  intros Hunique Hanswer.
  rewrite dockerToObsiCommand_run by done.
  destruct (fetchAllComposeStackFiles rt w).1 as [stacks|e|]; [| |done].
  - destruct (length stacks =? 0)%nat.
    + eexists _, _. split; [done|]. split; [done|]. split; [done|].
      split; [done|]. split; [done|]. split; [by intros [e He]|done].
    + rewrite checkNotesForMatchingStacks_run by done.
      eexists _, _. split; [done|]. split; [done|]. split; [done|].
      split; [done|]. cbn [vault]. split; [apply sync_vault_paths|].
      split; [by intros [e He]|]. cbn. by intros [= H _].
  - eexists _, _. split; [done|]. split; [done|]. split; [done|].
    split; [done|]. split; [done|]. split; [done|by eexists].
Qed.

Lemma sync_command_always_reports_witness :
  (fetchAllComposeStackFiles Cases.stalled_runtime
     (Sample.world Sample.template_vault)).1 = Raised HttpError
  /\ exists trace w',
       CommandManager.dockerToObsiCommand Cases.stalled_runtime
         Sample.template_settings
         {| CommandManager.world := Sample.world Sample.template_vault;
            CommandManager.shown := [] |}
       = (Returned tt,
          {| CommandManager.world := w'; CommandManager.shown := trace |})
       /\ CommandManager.status_items 0 trace = 0
       /\ CommandManager.notices trace
          = [str "Failed to fetch file content from GitHub."].
Proof.
  split; [reflexivity|].
  destruct (sync_command_always_reports Cases.stalled_runtime
              Sample.template_settings (Sample.world Sample.template_vault))
    as (trace & w' & H1 & H2 & _ & _ & _ & H3).
  - reflexivity.
  - discriminate.
  - exists trace, w'. split; [exact H1|]. split; [exact H2|].
    apply H3. exists HttpError. reflexivity.
Defined.

(** X21. The search command changes nothing and tells what it found.
    When the fetch answers, the command ends without an exception,
    leaves the vault and the requests as they were and removes its
    status bar item; it opens the dialog exactly when some fetched stack
    is missing, with the missing stacks, and shows a notice exactly
    when it opens no dialog. *)
Theorem search_command_opens_the_dialog
    (rt : Runtime) (settings : DockerToObsiSettings) (w : World) :
  unique_paths (vault w) = true ->
  (fetchAllComposeStackFiles rt w).1 <> Pending ->
  exists trace,
    CommandManager.createMissingDockerNotesCommand rt settings
      {| CommandManager.world := w; CommandManager.shown := [] |}
    = (Returned tt,
       {| CommandManager.world := w; CommandManager.shown := trace |})
    /\ CommandManager.status_items 0 trace = 0
    /\ (forall missing,
          CommandManager.ModalOpen missing ∈ trace
          <-> missing <> []
              /\ exists stacks,
                   (fetchAllComposeStackFiles rt w).1 = Returned stacks
                   /\ findMissingStacks settings stacks w
                      = (Returned missing, w))
    /\ (CommandManager.notices trace = []
        <-> exists missing, CommandManager.ModalOpen missing ∈ trace).
Proof.
  intros Hunique Hanswer.
  rewrite createMissingDockerNotesCommand_run by done.
  assert (forall (l : list CommandManager.UiEvent) missing,
            Forall (fun e => forall x, e <> CommandManager.ModalOpen x) l ->
            CommandManager.ModalOpen missing ∈ l -> False) as Hno.
  { intros l missing Hl Hin. rewrite Forall_forall in Hl.
    by apply (Hl _ Hin missing). }
  destruct (fetchAllComposeStackFiles rt w).1 as [stacks|e|]; [| |done].
  - destruct (length stacks =? 0)%nat eqn:Hlen.
    + eexists. split; [done|]. split; [done|]. split.
      * intros missing. split.
        -- intros H. exfalso. revert H. apply Hno. by repeat constructor.
        -- intros (Hne & stacks' & [= <-] & Hmissing).
           apply Nat.eqb_eq in Hlen. destruct stacks; [|done].
           destruct (findMissingStacks_run settings w [] Hunique)
             as (existing & Hrun & _).
           rewrite Hrun in Hmissing. by injection Hmissing as <-.
      * split; [done|]. intros [missing H]. exfalso. revert H.
        apply Hno. by repeat constructor.
    + destruct (findMissingStacks_run settings w stacks Hunique)
        as (existing & Hrun & _).
      rewrite Hrun.
      destruct (List.filter _ stacks) as [|m missing] eqn:Hfilter.
      * eexists. split; [done|]. split; [done|]. split.
        -- intros missing. split.
           ++ intros H. exfalso. revert H. apply Hno. by repeat constructor.
           ++ intros (Hne & stacks' & [= <-] & Hmissing).
              rewrite Hrun in Hmissing. by injection Hmissing as <-.
        -- split; [done|]. intros [missing H]. exfalso. revert H.
           apply Hno. by repeat constructor.
      * eexists. split; [done|]. split; [done|]. split.
        -- intros missing'. split.
           ++ intros H. cbn in H.
              repeat (apply elem_of_cons in H as [H|H]; [try done|]).
              { injection H as ->. split; [done|]. by exists stacks. }
              by apply elem_of_nil in H.
           ++ intros (Hne & stacks' & [= <-] & Hmissing).
              rewrite Hrun in Hmissing. injection Hmissing as <-.
              cbn. set_solver.
        -- split; [|done]. intros _. exists (m :: missing). cbn. set_solver.
  - eexists. split; [done|]. split; [done|]. split.
    + intros missing. split.
      * intros H. exfalso. revert H. apply Hno. by repeat constructor.
      * by intros (_ & stacks & H & _).
    + split; [done|]. intros [missing H]. exfalso. revert H.
      apply Hno. by repeat constructor.
Qed.

Lemma search_command_opens_the_dialog_witness :
  (fetchAllComposeStackFiles Cases.stalled_runtime
     (Sample.world Sample.template_vault)).1 = Raised HttpError
  /\ exists trace,
       CommandManager.createMissingDockerNotesCommand Cases.stalled_runtime
         Sample.template_settings
         {| CommandManager.world := Sample.world Sample.template_vault;
            CommandManager.shown := [] |}
       = (Returned tt,
          {| CommandManager.world := Sample.world Sample.template_vault;
             CommandManager.shown := trace |})
       /\ CommandManager.status_items 0 trace = 0
       /\ CommandManager.notices trace <> [].
Proof.
  split; [reflexivity|].
  destruct (search_command_opens_the_dialog Cases.stalled_runtime
              Sample.template_settings (Sample.world Sample.template_vault))
    as (trace & H1 & H2 & H3 & H4).
  - reflexivity.
  - discriminate.
  - exists trace. split; [exact H1|]. split; [exact H2|].
    intros Hquiet. apply H4 in Hquiet as [missing Hopen].
    apply H3 in Hopen as (_ & stacks & Hfetch & _). discriminate Hfetch.
Defined.

(** ** From the dialog to the notes *)

(** The answer of a fetch does not depend on the vault. *)
Lemma fetchAllComposeStackFiles_any_world rt w w' :
  fetchAllComposeStackFiles rt w' = ((fetchAllComposeStackFiles rt w).1, w').
Proof.
  unfold fetchAllComposeStackFiles, bind, await.
  by destruct (Host.fetchComposeYamlFiles rt).
Qed.

Lemma candidates_app settings (v1 v2 : list AbstractFile) :
  candidates settings (v1 ++ v2)
  = candidates settings v1 ++ candidates settings v2.
Proof. unfold candidates. by rewrite omap_app, List.filter_app. Qed.

Lemma frontmatter_values_grow settings (v created : list AbstractFile) x :
  x ∈ frontmatter_values settings (candidates settings v) ->
  x ∈ frontmatter_values settings (candidates settings (v ++ created)).
Proof.
  unfold frontmatter_values. rewrite candidates_app, omap_app.
  rewrite !elem_of_list_to_set, elem_of_app. by left.
Qed.

Section CallbackFacts.
Import CommandManager.
Variable rt : Runtime.
Variable settings : DockerToObsiSettings.

Local Abbreviation start w := {| world := w; shown := [] |}.
Local Abbreviation creating :=
  [StatusBarItem; SetText (str "Creating notes from template...")].

Lemma onSubmit_run selected w :
  onSubmit rt settings selected (start w)
  = if (length selected =? 0)%nat
    then (Returned tt,
          {| world := w;
             shown := [Notice (str "No stacks selected for creation.")] |})
    else
      match createNotesFromTemplate rt settings selected w with
      | (Returned createdCount, w') =>
          (Returned tt,
           {| world := w';
              shown := creating
                ++ [Notice
                      (if (0 <? createdCount)%nat
                       then str "Successfully created "
                            ++ decimal createdCount ++ str " new note"
                            ++ plural createdCount
                            ++ str " for Docker stacks."
                       else str "Failed to create notes. Check console for errors.");
                    Remove] |})
      | (Raised _, w') =>
          (Returned tt,
           {| world := w';
              shown := creating
                ++ [Notice
                      (str "Failed to create Docker notes. Check console for details.");
                    Remove] |})
      | (Pending, w') => (Pending, {| world := w'; shown := creating |})
      end.
Proof using Type.
  unfold onSubmit. destruct (length selected =? 0)%nat; [done|].
  unfold and_then at 1, show at 1. unfold and_then at 1, show at 1.
  cbn [world shown app].
  unfold finally, catch, and_then at 1, lift at 1. cbn [world shown].
  destruct (createNotesFromTemplate rt settings selected w)
    as [[n|e|] w']; [|done|done].
  by destruct (0 <? n)%nat.
Qed.

(** With an API that answers, a creation ends, with a count or with
    an exception, and adds notes after the entries of the vault. *)
Lemma createNotesFromTemplate_ends selected w :
  responsive rt ->
  exists o w' created,
    createNotesFromTemplate rt settings selected w = (o, w')
    /\ o <> Pending
    /\ vault w' = vault w ++ created.
Proof using Type.
  intros Hresponsive.
  destruct (createNotesFromTemplate_cases rt settings selected w)
    as [->|[->|(tf & fm & ->)]].
  - eexists _, w, []. by rewrite app_nil_r.
  - eexists _, w, []. by rewrite app_nil_r.
  - destruct (create_loop_run rt settings Hresponsive (data tf)
                (bool_decide (is_Some (fm !! str "tags")))
                (trim (folderPath settings)) selected 0 w)
      as (n & w' & created & -> & Hv & _).
    by eexists _, w', created.
Qed.
End CallbackFacts.

(** X22. The callback of the dialog always reports. With an API that
    answers, it ends without an exception, shows exactly one notice,
    leaves no status bar item behind, and keeps every entry of the
    vault, the new notes coming after them; with no stack selected it
    changes nothing at all. *)
Theorem creation_callback_always_reports
    (rt : Runtime) (settings : DockerToObsiSettings)
    (selected : list DockerStackFile) (w : World) :
  responsive rt ->
  exists trace w' created,
    CommandManager.onSubmit rt settings selected
      {| CommandManager.world := w; CommandManager.shown := [] |}
    = (Returned tt,
       {| CommandManager.world := w'; CommandManager.shown := trace |})
    /\ CommandManager.status_items 0 trace = 0
    /\ length (CommandManager.notices trace) = 1
    /\ vault w' = vault w ++ created
    /\ (selected = [] -> w' = w).
Proof.
  intros Hresponsive. rewrite onSubmit_run.
  destruct selected as [|stack selected].
  { eexists _, w, []. rewrite app_nil_r. by cbn. }
  cbn [length Nat.eqb].
  destruct (createNotesFromTemplate_ends rt settings (stack :: selected) w
              Hresponsive) as (o & w' & created & -> & Ho & Hv).
  destruct o as [n|e|]; [| |done]; by eexists _, w', created.
Qed.

Lemma creation_callback_always_reports_witness :
  exists trace w' created,
    CommandManager.onSubmit Sample.runtime Sample.template_settings
      [Sample.stack "db" "services: {}"]
      {| CommandManager.world := Sample.world Sample.template_vault;
         CommandManager.shown := [] |}
    = (Returned tt,
       {| CommandManager.world := w'; CommandManager.shown := trace |})
    /\ length (CommandManager.notices trace) = 1
    /\ vault w' = Sample.template_vault ++ created.
Proof.
  destruct (creation_callback_always_reports Sample.runtime
              Sample.template_settings [Sample.stack "db" "services: {}"]
              (Sample.world Sample.template_vault))
    as (trace & w' & created & H1 & _ & H2 & H3 & _).
  - split; intros; discriminate.
  - by exists trace, w', created.
Defined.

(** X23. Accepting the whole dialog completes the vault. When the
    search command has found missing stacks, the user creates them all
    without touching the selection, and the creation goes well (the
    template is a file of the vault, the destinations of the missing
    stacks are free, distinct and accepted by the host, the metadata of
    each new note can be read, the API answers, the key is not [tags]),
    then the callback reports as many new notes as stacks were missing,
    and the search command, run again, reports that every stack has its
    note. *)
Theorem accepting_every_missing_stack_completes
    (rt : Runtime) (settings : DockerToObsiSettings)
    (sort : list DockerStackFile -> list DockerStackFile)
    (w : World) (stacks missing : list DockerStackFile)
    (tf : TFile) (fm : Frontmatter) :
  responsive rt ->
  unique_paths (vault w) = true ->
  (forall l, sort l ≡ₚ l) ->
  frontmatterProperty settings <> str "tags" ->
  (fetchAllComposeStackFiles rt w).1 = Returned stacks ->
  findMissingStacks settings stacks w = (Returned missing, w) ->
  missing <> [] ->
  truthy (trim (templateFilePath settings)) = true ->
  entry_at (trim (templateFilePath settings)) (vault w) = Some (File tf) ->
  frontmatter tf = Some fm ->
  (forall text, is_Some (parseFrontMatter rt text)) ->
  Forall (fun stack =>
            create_ok rt (destination rt settings (trim (folderPath settings))
                            stack) = true) missing ->
  Forall (fun stack =>
            entry_at (destination rt settings (trim (folderPath settings))
                        stack) (vault w) = None) missing ->
  NoDup (destination rt settings (trim (folderPath settings)) <$> missing) ->
  exists trace w' again,
    CommandManager.onSubmit rt settings
      (StackSelectionModal.selectedStackObjects
         (StackSelectionModal.opened sort missing))
      {| CommandManager.world := w; CommandManager.shown := [] |}
    = (Returned tt,
       {| CommandManager.world := w'; CommandManager.shown := trace |})
    /\ CommandManager.notices trace
       = [str "Successfully created "
          ++ CommandManager.decimal (length missing) ++ str " new note"
          ++ CommandManager.plural (length missing)
          ++ str " for Docker stacks."]
    /\ CommandManager.createMissingDockerNotesCommand rt settings
         {| CommandManager.world := w'; CommandManager.shown := [] |}
       = (Returned tt,
          {| CommandManager.world := w'; CommandManager.shown := again |})
    /\ CommandManager.notices again
       = [str "All Docker stacks already have corresponding notes."].
Proof.
  intros Hresponsive Hunique Hsort Hkey Hfetch Hmissing Hne Htemplate Hentry
    Hfm Hparse Hok Hfree Hnd.
  rewrite (opened_submits_all sort Hsort missing).
  assert (length (sort missing) = length missing) as Hlen
    by (by rewrite Hsort).
  destruct (create_loop_success rt settings Hresponsive (data tf)
              (bool_decide (is_Some (fm !! str "tags")))
              (trim (folderPath settings)) (sort missing) 0 w Hparse)
    as (w' & Hloop).
  { by rewrite Hsort. }
  { by rewrite Hsort. }
  { by rewrite Hsort. }
  assert (createNotesFromTemplate rt settings (sort missing) w
          = (Returned (length (sort missing)), w')) as Hcreate.
  { by rewrite (template_lookup_run rt settings _ w tf fm). }
  destruct (created_names_are_values rt settings (sort missing) w w')
    as (Hunique' & [created Hv] & Hvalues); [done..|].
  rewrite onSubmit_run, Hcreate, Hlen.
  destruct missing as [|m0 missing0] eqn:Hmissing0; [done|].
  rewrite <- Hmissing0 in *. clear Hne.
  assert ((length missing =? 0)%nat = false) as ->
    by (by rewrite Hmissing0).
  assert ((0 <? length missing)%nat = true) as ->
    by (by rewrite Hmissing0).
  eexists _, w', _. split; [done|]. split; [done|].
  rewrite createMissingDockerNotesCommand_run by done.
  rewrite (fetchAllComposeStackFiles_any_world rt w w'), Hfetch.
  cbn [fst].
  assert (Forall (fun stack => name stack <> []) stacks) as Hnames.
  { destruct (fetchAllComposeStackFiles rt w) as [o w1] eqn:Hrun.
    cbn [fst] in Hfetch. subst o. by apply (fetched_names_nonempty rt w _ w1). }
  destruct (findMissingStacks_run settings w stacks Hunique)
    as (existing & Hrun & Hexisting).
  rewrite Hrun in Hmissing. injection Hmissing as Hfilter.
  destruct (findMissingStacks_run settings w' stacks Hunique')
    as (existing' & -> & Hexisting').
  assert (List.filter
            (fun stack => negb (bool_decide (name stack ∈ existing'))) stacks
          = []) as ->.
  { apply filter_none, Forall_forall. intros s Hs.
    apply negb_false_iff, bool_decide_eq_true, Hexisting'.
    rewrite Forall_forall in Hnames. split; [by apply Hnames|].
    destruct (bool_decide (name s ∈ existing)) eqn:Hold.
    - apply bool_decide_eq_true, Hexisting in Hold as [_ Hold].
      rewrite Hv. by apply frontmatter_values_grow.
    - apply Hvalues. rewrite Hsort, <- Hfilter.
      rewrite list_elem_of_In, filter_In, <- list_elem_of_In.
      split; [done|]. by rewrite Hold. }
  destruct stacks as [|s0 stacks0]; [by rewrite <- Hfilter in Hmissing0|].
  by cbn.
Qed.

Lemma accepting_every_missing_stack_completes_witness :
  exists trace w' again,
    CommandManager.onSubmit Sample.runtime Sample.template_settings
      (StackSelectionModal.selectedStackObjects
         (StackSelectionModal.opened (fun l => l)
            [Sample.stack "db" "services: {}"]))
      {| CommandManager.world := Sample.world Sample.template_vault;
         CommandManager.shown := [] |}
    = (Returned tt,
       {| CommandManager.world := w'; CommandManager.shown := trace |})
    /\ CommandManager.notices trace
       = [str "Successfully created "
          ++ CommandManager.decimal 1 ++ str " new note"
          ++ CommandManager.plural 1 ++ str " for Docker stacks."]
    /\ CommandManager.createMissingDockerNotesCommand Sample.runtime
         Sample.template_settings
         {| CommandManager.world := w'; CommandManager.shown := [] |}
       = (Returned tt,
          {| CommandManager.world := w'; CommandManager.shown := again |})
    /\ CommandManager.notices again
       = [str "All Docker stacks already have corresponding notes."].
Proof.
  apply (accepting_every_missing_stack_completes Sample.runtime
           Sample.template_settings (fun l => l)
           (Sample.world Sample.template_vault)
           [Sample.stack "web" "services: {}";
            Sample.stack "db" "services: {}"]
           [Sample.stack "db" "services: {}"]
           Sample.template_file ∅).
  - split; intros; discriminate.
  - by vm_compute.
  - done.
  - discriminate.
  - vm_compute. reflexivity.
  - vm_compute. reflexivity.
  - discriminate.
  - reflexivity.
  - reflexivity.
  - reflexivity.
  - intros text. by eexists.
  - by repeat constructor.
  - by repeat constructor.
  - vm_compute. repeat constructor; set_solver.
Defined.

(** ** Names that share a note *)



(** ** Synchronizing and searching *)

Lemma candidates_File settings g (l : list AbstractFile) :
  candidates settings (File g :: l)
  = if endsWith (path g) (str ".md")
       && (negb (truthy (trim (folderPath settings)))
           || startsWith (path g) (trim (folderPath settings)))
    then g :: candidates settings l
    else candidates settings l.
Proof.
  unfold candidates. cbn [omap list_omap].
  destruct (endsWith (path g) (str ".md")); [|done].
  cbn [List.filter andb]. by destruct (negb _ || _).
Qed.

Lemma sync_keeps_key_values settings smap paths (v : list AbstractFile) :
  omap (key_value settings)
    (candidates settings (sync_entry settings smap paths <$> v))
  = omap (key_value settings) (candidates settings v).
Proof.
  induction v as [|a v IH]; [done|]. rewrite fmap_cons.
  destruct a as [f|p]; [|exact IH].
  assert (exists g, sync_entry settings smap paths (File f) = File g
                    /\ path g = path f /\ frontmatter g = frontmatter f)
    as (g & -> & Hpath & Hfm).
  { unfold sync_entry. destruct (bool_decide (path f ∈ paths)); [|by exists f].
    destruct (note_update settings smap f) as [text|]; [|by exists f].
    by exists (set_data text f). }
  rewrite !candidates_File, Hpath.
  destruct (endsWith (path f) (str ".md") && _); [|exact IH].
  change (omap (key_value settings) (g :: ?l))
    with (match key_value settings g with
          | Some x => x :: omap (key_value settings) l
          | None => omap (key_value settings) l
          end).
  change (omap (key_value settings) (f :: ?l))
    with (match key_value settings f with
          | Some x => x :: omap (key_value settings) l
          | None => omap (key_value settings) l
          end).
  rewrite IH. unfold key_value. by rewrite Hfm.
Qed.

(** X25. A synchronization never changes which stacks are missing:
    the search for missing stacks gives the same answer before and
    after it. *)
Theorem synchronization_keeps_the_missing_stacks
    (settings : DockerToObsiSettings)
    (stacks others : list DockerStackFile) (w : World) :
  unique_paths (vault w) = true ->
  exists n w' missing,
    checkNotesForMatchingStacks settings stacks w = (Returned n, w')
    /\ findMissingStacks settings others w = (Returned missing, w)
    /\ findMissingStacks settings others w' = (Returned missing, w').
Proof.
  intros Hunique.
  pose (w' := {| vault := sync_entry settings (stackMap stacks)
                            (path <$> candidates settings (vault w))
                            <$> vault w;
                 requests := requests w |}).
  assert (unique_paths (vault w') = true) as Hunique'.
  { unfold unique_paths in *. apply bool_decide_eq_true.
    apply bool_decide_eq_true in Hunique. subst w'. cbn [vault].
    by rewrite sync_vault_paths. }
  destruct (findMissingStacks_run settings w others Hunique)
    as (existing & Hrun & Hexisting).
  destruct (findMissingStacks_run settings w' others Hunique')
    as (existing' & Hrun' & Hexisting').
  eexists _, w', _.
  split; [by apply checkNotesForMatchingStacks_run|].
  split; [exact Hrun|]. rewrite Hrun'.
  f_equal. f_equal. apply filter_ext. intros s. f_equal.
  apply bool_decide_ext. rewrite Hexisting, Hexisting'.
  unfold frontmatter_values. subst w'. cbn [vault].
  by rewrite sync_keeps_key_values.
Qed.

Lemma synchronization_keeps_the_missing_stacks_witness :
  exists n w' missing,
    checkNotesForMatchingStacks Sample.template_settings
      [Sample.stack "web" "services: {}"]
      (Sample.world Sample.template_vault) = (Returned n, w')
    /\ findMissingStacks Sample.template_settings
         [Sample.stack "db" "services: {}"]
         (Sample.world Sample.template_vault)
       = (Returned missing, Sample.world Sample.template_vault)
    /\ findMissingStacks Sample.template_settings
         [Sample.stack "db" "services: {}"] w' = (Returned missing, w').
Proof.
  apply synchronization_keeps_the_missing_stacks. by vm_compute.
Defined.

(** ** File names without date placeholders *)

(** X26. A prefix and a suffix that hold no date placeholder are used
    as they are: the file name is the prefix, the capitalized stack
    name, the suffix and [.md], one after the other. *)
Theorem file_name_with_literal_affixes
    (rt : Runtime) (settings : DockerToObsiSettings)
    (stackName : list ascii) :
  includes (fileNamePrefix settings) (str "{{date") = false ->
  includes (fileNameSuffix settings) (str "{{date") = false ->
  generateFileName rt settings stackName
  = fileNamePrefix settings ++ capitalizeStackName rt stackName
    ++ fileNameSuffix settings ++ str ".md".
Proof.
  intros Hprefix Hsuffix. unfold generateFileName.
  rewrite !processDateVariables_none by done.
  destruct (fileNamePrefix settings) as [|p prefix];
    destruct (fileNameSuffix settings) as [|s suffix];
    cbn [truthy app]; by rewrite <- ?app_assoc.
Qed.

Lemma file_name_with_literal_affixes_witness :
  generateFileName Sample.runtime Sample.template_settings (str "my-app")
  = [] ++ capitalizeStackName Sample.runtime (str "my-app") ++ [] ++ str ".md".
Proof.
  apply (file_name_with_literal_affixes Sample.runtime
           Sample.template_settings); reflexivity.
Defined.
